(** * The GTFS schedule viewer client, embedded in Rocq

    A shallow embedding of the two scripts of the schedule viewer:

    - [gtfsscheduleviewer/files/index.js]: the flat script that wires DOM
      elements and map events to HTTP GET calls and mutates the map and the
      DOM in the response callbacks;
    - the [LabeledMarker] overlay class (a marker with a text label).

    Conventions of the embedding.

    - A JavaScript function that can raise an exception is a computation in
      the monad [M]: it threads the whole client state and ends either with
      [Ret] or with [Throw]; what was written before a throw stays written,
      as in the browser.
    - Objects with identity (markers, polylines, XMLHttpRequest objects) live
      in stores (lists) and are referred to by their index; the script's
      variables hold those references, so aliasing is as in the source.
    - A JavaScript object used as a dictionary is a [gmap] keyed by the
      property name as a string. Only own properties are modelled: for a
      stop id that spells a member of [Object.prototype] the script finds
      the inherited member where the embedding finds nothing, so what is
      stated about the marker that the script makes or finds for a stop is
      stated for the other stop ids ([own_key]).
    - The browser, the mapping library, the calendar widget and the server
      are external. Their functions are fields of the class [Platform];
      methods of the mapping library's objects are taken to return normally.
    - A latitude or longitude is a double the script never computes with; it
      is identified with its rendering [String(x)] ([Coord]).
    - [eval(data)] and [JSON.parse(data)] are the decoders of [Platform]: the
      server's answers are taken to have the shape the callbacks index
      positionally, and the texts they hold to be plain text.
    - HTTP requests are those of the script: the [XMLHttpRequest]s of
      [downloadUrl], and what the browser fetches for the object that the
      script's own markup embeds in the document ([svgTag]). What the
      mapping library fetches on its own account (the map, the images of
      the marker icons) is the library's.
    - The page's HTML is not among the sources. Its static elements (the
      inputs, [edit], [edit_status], [bottombar], [content], [routeList])
      are taken to exist and to carry none of the ids the script generates
      ([route_...], [route_container_...], [tripInfo], [trip_...]).
    - [MarkerWithLabel] is the mapping library's: [getText] and [setText]
      are taken to read and write the label content. *)

From Stdlib Require Import ZArith Ascii String Lia.
From stdpp Require Import base option list gmap strings pretty.

Local Open Scope string_scope.
Local Open Scope list_scope.

(** ** JavaScript values the scripts compute with *)

Module Js.

(** A number (an integer here: seconds, months, days, years), [NaN], or a
    string. *)
Inductive JsVal :=
| JNum (n : Z)
| JNaN
| JStr (s : string).

(** [String(v)], and the conversion that [+] with a string applies (an
    integer is printed in full, as JavaScript does below 10^21). *)
Definition to_string (v : JsVal) : string :=
  match v with
  | JNum n => pretty n
  | JNaN => "NaN"
  | JStr s => s
  end.

(** The operator [+]: numeric addition on two numbers, concatenation as soon
    as one side is a string. *)
Definition add (a b : JsVal) : JsVal :=
  match a, b with
  | JNum x, JNum y => JNum (x + y)
  | JNum _, JNaN | JNaN, JNum _ | JNaN, JNaN => JNaN
  | _, _ => JStr (to_string a +:+ to_string b)
  end.

(** [v * k] for a numeric literal [k]. *)
Definition mul (v : JsVal) (k : Z) : JsVal :=
  match v with
  | JNum x => JNum (x * k)
  | _ => JNaN
  end.

(** Truthiness of an optional string ([undefined] and the empty string are
    falsy). *)
Definition truthy (t : option string) : bool :=
  match t with
  | Some s => negb (String.eqb s "")
  | None => false
  end.

Definition is_digit (c : ascii) : bool :=
  ((48 <=? nat_of_ascii c) && (nat_of_ascii c <=? 57))%nat.

Definition digit_value (c : ascii) : Z := Z.of_nat (nat_of_ascii c - 48).

Fixpoint parse_digits (acc : Z) (s : string) : Z :=
  match s with
  | String c s' => if is_digit c then parse_digits (10 * acc + digit_value c) s' else acc
  | EmptyString => acc
  end.

(** [parseInt(s, 10)] on the strings the scripts pass to it (captures of
    digits): the value of the leading run of digits, [NaN] when there is
    none. *)
Definition parseInt10 (s : string) : JsVal :=
  match s with
  | String c _ => if is_digit c then JNum (parse_digits 0 s) else JNaN
  | EmptyString => JNaN
  end.

(** The double-quote character, for HTML text built by the script. *)
Definition dquote : string := String (ascii_of_nat 34) EmptyString.

End Js.

(** ** Regular expressions, as [String.prototype.match] runs them

    A backtracking matcher in continuation-passing style: alternatives are
    tried in priority order (greedy [?] takes its operand first), and the
    first complete match wins. *)

Module Regex.

Inductive regex :=
| RChar (c : ascii)
| RSet (cs : list ascii)
| RDigit
| RSeq (r1 r2 : regex)
| RAlt (r1 r2 : regex)
| ROpt (r : regex)
| RGroup (n : nat) (r : regex).

(** The captures of a match: group number to captured text; a group that did
    not take part is absent ([undefined]). *)
Abbreviation captures := (gmap nat string).

(** The part of [s] consumed when [rest] is what remains. *)
Definition consumed (s rest : string) : string :=
  substring 0 (String.length s - String.length rest) s.

Fixpoint rmatch {R : Type} (r : regex) (s : string) (caps : captures)
    (k : string -> captures -> option R) : option R :=
  match r with
  | RChar c =>
      match s with
      | String a s' => if Ascii.eqb a c then k s' caps else None
      | EmptyString => None
      end
  | RSet cs =>
      match s with
      | String a s' => if existsb (Ascii.eqb a) cs then k s' caps else None
      | EmptyString => None
      end
  | RDigit =>
      match s with
      | String a s' => if Js.is_digit a then k s' caps else None
      | EmptyString => None
      end
  | RSeq r1 r2 => rmatch r1 s caps (fun s1 c1 => rmatch r2 s1 c1 k)
  | RAlt r1 r2 =>
      match rmatch r1 s caps k with
      | Some x => Some x
      | None => rmatch r2 s caps k
      end
  | ROpt r1 =>
      match rmatch r1 s caps k with
      | Some x => Some x
      | None => k s caps
      end
  | RGroup n r1 => rmatch r1 s caps (fun s1 c1 => k s1 (<[n := consumed s s1]> c1))
  end.

(** [text.match(re)] for a regular expression without the [g] flag: the
    leftmost match, [None] for [null]. *)
Fixpoint search (r : regex) (s : string) : option captures :=
  match rmatch r s ∅ (fun _ c => Some c) with
  | Some c => Some c
  | None =>
      match s with
      | String _ s' => search r s'
      | EmptyString => None
      end
  end.

Definition lit (s : string) : regex :=
  match list_ascii_of_string s with
  | [] => ROpt (RSet [])
  | c :: cs => fold_left (fun r a => RSeq r (RChar a)) cs (RChar c)
  end.

Definition set (s : string) : regex := RSet (list_ascii_of_string s).

(** [/([012]?\d):([012345]?\d)(:([012345]?\d))?/] *)
Definition time_re : regex :=
  RSeq (RGroup 1 (RSeq (ROpt (set "012")) RDigit))
    (RSeq (RChar ":")
       (RSeq (RGroup 2 (RSeq (ROpt (set "012345")) RDigit))
          (ROpt (RGroup 3 (RSeq (RChar ":")
                             (RGroup 4 (RSeq (ROpt (set "012345")) RDigit))))))).

(** [/(19|20\d\d)(0[1-9]|1[012])(0[1-9]|[12][0-9]|3[01])/] *)
Definition date_re : regex :=
  RSeq (RGroup 1 (RAlt (lit "19") (RSeq (lit "20") (RSeq RDigit RDigit))))
    (RSeq (RGroup 2 (RAlt (RSeq (RChar "0") (set "123456789"))
                          (RSeq (RChar "1") (set "012"))))
       (RGroup 3 (RAlt (RSeq (RChar "0") (set "123456789"))
                    (RAlt (RSeq (set "12") (set "0123456789"))
                          (RSeq (RChar "3") (set "01")))))).

End Regex.


(** ** The [LabeledMarker] class *)

Module LabeledMarker.

Record GLatLng := { lat : string; lng : string }.
Record GSize := { width : Z; height : Z }.

(** The fields of [GMarkerOptions] that the class reads or writes, with the
    types the mapping library documents for them; [None] is an absent
    field. *)
Record Opts := {
  labelText : option string;
  labelClass : option string;
  labelOffset : option GSize;
  clickable : option bool;
  draggable : option bool
}.

(** [a || b] for an optional string and an optional boolean. *)
Definition or_string (a : option string) (b : string) : string :=
  match a with
  | Some s => if String.eqb s "" then b else s
  | None => b
  end.

Definition or_bool (a : option bool) (b : bool) : bool :=
  match a with
  | Some true => true
  | _ => b
  end.

Definition or_size (a : option GSize) (b : GSize) : GSize :=
  match a with
  | Some x => x
  | None => b
  end.

Definition is_truthy (a : option bool) : bool := or_bool a false.

(** The text div of a label: its class, content and style, and the names of
    the DOM events that have a pass-through listener. *)
Record Div := {
  className : string;
  innerHTML : string;
  style_position : string;
  style_cursor : string;
  listeners : list string
}.

(** A [LabeledMarker] object. [opts_] is the options object itself (the
    constructor keeps the reference, so it shows the write to [draggable]);
    [gmarker_opts] is what [GMarker.apply(this, arguments)] receives. *)
Record t := {
  latlng_ : GLatLng;
  opts_ : Opts;
  labelText_ : string;
  labelClass_ : string;
  labelOffset_ : GSize;
  clickable_ : bool;
  gmarker_opts : Opts;
  div_ : option Div
}.

(** [new LabeledMarker(latlng, opt_opts)]; without an options object the
    first property read throws and no marker is made ([None]). *)
Definition LabeledMarker (latlng : GLatLng) (opt_opts : option Opts) : option t :=
  match opt_opts with
  | None => None
  | Some opt_opts =>
      let labelText_ := or_string (labelText opt_opts) "" in
      let labelClass_ := or_string (labelClass opt_opts) "markerLabel" in
      let labelOffset_ := or_size (labelOffset opt_opts) {| width := 0; height := 0 |} in
      let clickable_ := or_bool (clickable opt_opts) true in
      let opt_opts :=
        if is_truthy (draggable opt_opts) then
          (* This version of LabeledMarker doesn't support dragging. *)
          {| labelText := labelText opt_opts; labelClass := labelClass opt_opts;
             labelOffset := labelOffset opt_opts; clickable := clickable opt_opts;
             draggable := Some false |}
        else opt_opts in
      Some {| latlng_ := latlng; opts_ := opt_opts; labelText_ := labelText_;
              labelClass_ := labelClass_; labelOffset_ := labelOffset_;
              clickable_ := clickable_; gmarker_opts := opt_opts; div_ := None |}
  end.

Definition eventPassthrus : list string :=
  ["click"; "dblclick"; "mousedown"; "mouseup"; "mouseover"; "mouseout"].

(** [LabeledMarker.prototype.initialize]: creates the text div and, when the
    marker is clickable, passes the events fired on it through to the
    marker. *)
Definition initialize (m : t) : t :=
  let div := {| className := labelClass_ m; innerHTML := labelText_ m;
                style_position := "absolute"; style_cursor := "pointer";
                listeners := [] |} in
  let div :=
    if clickable_ m then
      fold_left (fun d name =>
        {| className := className d; innerHTML := innerHTML d;
           style_position := style_position d; style_cursor := style_cursor d;
           listeners := listeners d ++ [name] |}) eventPassthrus div
    else div in
  {| latlng_ := latlng_ m; opts_ := opts_ m; labelText_ := labelText_ m;
     labelClass_ := labelClass_ m; labelOffset_ := labelOffset_ m;
     clickable_ := clickable_ m; gmarker_opts := gmarker_opts m; div_ := Some div |}.

End LabeledMarker.
(** ** The data of the client *)

Module Client.

Import Js.

(** A latitude or a longitude (see the conventions above). *)
Abbreviation Coord := string.

(** [google.maps.LatLng]. *)
Record LatLng := { lat : Coord; lng : Coord }.

(** [google.maps.LatLngBounds] as the map reports it: its two corners. *)
Record LatLngBounds := { northEast : LatLng; southWest : LatLng }.

(** The argument of [load]. *)
Record Config := { cfg_forbid_editing : bool; cfg_bounds : LatLngBounds }.

(** What [map.fitBounds] was last called with: the bounds of the
    configuration, or the value of [boundsOfPolyLine] ([None] is [null];
    otherwise the points the bounds were extended with). *)
Inductive FitArg :=
| FitBox (b : LatLngBounds)
| FitPoints (pts : option (list LatLng)).

(** The three icons of [initIcons]. *)
Inductive Icon := iconSelected | iconBackground | iconBackgroundStation.

(** A marker object: [google.maps.Marker], or [MarkerWithLabel] when
    [m_label] is [Some] (its label content). [m_map] says whether the marker
    is attached to the map ([setMap(null)] clears it). *)
Record Marker := {
  m_stopId : string;
  m_stopName : string;
  m_position : LatLng;
  m_icon : option Icon;              (* [None]: the icon variable was still undefined *)
  m_draggable : bool;
  m_label : option string;
  m_map : bool
}.

(** A [google.maps.Polyline]. *)
Record Polyline := {
  pl_path : list LatLng;
  pl_color : string;
  pl_weight : Z;
  pl_map : bool
}.

(** The callbacks handed to [downloadUrl], one constructor per function or
    closure of the script, with what the closure captured. *)
Inductive Callback :=
| CbDisplayStopsBackground
| CbDisplayStops
| CbChangeStopLocation
| CbSaveData
| CbStopInfoWindow (marker : nat)
| CbDisplayRoutes
| CbDisplayPatterns
| CbDisplayTripStopTimes
| CbDisplayTripPolyLine
| CbDisplayTripRows (tripId : string).

(** The life of an [XMLHttpRequest]: sent, then loaded or failed; [Aborted]
    is what [xhr.abort()] would leave. *)
Inductive XhrStatus := Sent | Loaded | Failed | Aborted.

(** An [XMLHttpRequest] of [downloadUrl]. [xhr_timeout] is the [timeout]
    property (0, its default, means none). *)
Record Xhr := {
  xhr_method : string;
  xhr_url : string;
  xhr_async : bool;
  xhr_timeout : Z;
  xhr_onload : Callback;
  xhr_status : XhrStatus
}.

(** *** The route list of the document

    [div#routeList] holds one container per route; [callbackDisplayRoutes]
    builds them and [callbackDisplayPatterns] appends a [div#tripInfo]. *)

(** A [span.tripChoice] of a pattern, with the trip its click selects. *)
Record TripSpan := {
  ts_tripId : string;       (* id is "trip_" + tripId *)
  ts_text : string;
  ts_className : string
}.

Inductive PatChild :=
| PText (s : string)
| PSpan (sp : TripSpan)
| PBr.

(** A [div.patternSection]. *)
Record PatternDiv := { pd_className : string; pd_children : list PatChild }.

(** A [div#tripInfo.tripSection]: its pattern sections. *)
Record TripInfo := { ti_patterns : list PatternDiv }.

(** A [div.routeContainer] with its [div#route_<id>] ("elem"). The children
    of the elem after its two own ([span.shortName] and the name) are
    [rc_elemTripInfos]; the children of the container after the elem are
    [rc_tripInfos]. *)
Record RouteContainer := {
  rc_routeId : string;
  rc_shortName : string;
  rc_routeName : string;
  rc_elemClass : string;
  rc_containerClass : string;
  rc_elemTripInfos : list TripInfo;
  rc_tripInfos : list TripInfo
}.

(** *** Rows of the server's answers, by position *)

(** A row of [stops.txt]: [list[0]] ... [list[4]]. *)
Record StopRow := {
  sr_stopId : string;
  sr_stopName : string;
  sr_lat : Coord;
  sr_lon : Coord;
  sr_locationType : Z
}.

(** An entry of [/json/stoptrips]: [[time, [tripid, tripname, service_id], timepoint]]. *)
Record TimeTrip := {
  tt_time : Z;
  tt_tripid : string;
  tt_tripname : string;
  tt_service_id : string;
  tt_timepoint : bool
}.

(** A row of [/json/routes]: [[routeId, shortName, routeName]]. *)
Record RouteRow := { rr_routeId : string; rr_shortName : string; rr_routeName : string }.

(** A pattern of [/json/routepatterns]:
    [[patName, patId, len(early trips), trips, len(later trips), has_non_zero_trip_type]],
    each trip a pair [[time, tripId]]. *)
Record Pattern := {
  pat_name : string;
  pat_id : string;
  pat_early : Z;
  pat_trips : list (Z * string);
  pat_later : Z;
  pat_unusual : string
}.

(** [/json/tripstoptimes]: [[stops, arrivalTimes, departureTimes]]; a time
    list may be [null], and so may a time. *)
Record StopTimes := {
  st_stops : list StopRow;
  st_arrivals : option (list (option Z));
  st_departures : option (list (option Z))
}.

(** [/json/tripshape]: the points, and a colour when it is truthy. *)
Record PolyData := { poly_points : list LatLng; poly_color : option string }.

(** ** The platform: browser, mapping library and server formats *)

Class Platform := {
  encodeURIComponent : string -> string;
  unescape : string -> string;
  (** [eval(data)] at each of its uses; [None] is a falsy result where the
      callback tests for one. *)
  eval_stops : string -> list StopRow;
  eval_timeTrips : string -> list TimeTrip;
  eval_routes : string -> list RouteRow;
  eval_patterns : string -> list Pattern;
  eval_stopTimes : string -> option StopTimes;
  parse_polyData : string -> option PolyData;
  eval_rows : string -> option (list (string * list (string * string)));
  (** [Math.ceil(Math.log(count) / 0.693148)], computed on doubles. *)
  ceil_log2 : Z -> nat;
  (** [navigator.userAgent.toLowerCase().indexOf("msie") != -1] and
      [isSVGControlInstalled()]. *)
  agent_is_msie : bool;
  isSVGControlInstalled : bool;
  (** The height [sizeRouteList] computes from the layout, given the
      [display] of the bottom bar. *)
  layout_height : string -> string
}.

(** ** The state of the client *)

(** What the mapping library holds: the map, the overlay objects and the
    info window. *)
Record MapState := {
  map_loaded : bool;                 (* [map] is defined once [load] ran *)
  map_fit : option FitArg;           (* last [map.fitBounds] *)
  markers : list Marker;             (* marker objects, by reference *)
  polylines : list Polyline;         (* polyline objects, by reference *)
  infoWindow_content : string;
  infoWindow_anchor : option nat
}.

(** The script's global variables. [globals] is the set of undeclared names
    that an assignment has created as implicit globals so far. *)
Record Vars := {
  stopMarkersSelected : gmap string nat;
  stopMarkersBackground : gmap string nat;
  existingPolylines : list nat;
  boundsOfPolyLine : option (list LatLng);
  selectedRoute : option string;
  forbid_editing : bool;
  icons_initialized : bool;          (* [initIcons] ran *)
  globals : gset string
}.

(** The document: the properties of its static elements, keyed by element id
    and property name (an absent key reads as the empty string), and the
    route list. *)
Record Dom := {
  props : gmap (string * string) string;
  routeList : list RouteContainer
}.

(** The requests issued so far through [XMLHttpRequest], the console, and
    the URLs the browser has fetched (with GET) for objects embedded in
    markup that the script wrote into the document. *)
Record Net := {
  requests : list Xhr;
  console : list string;
  fetched : list string
}.

Record State := {
  mapst : MapState;
  vars : Vars;
  dom : Dom;
  net : Net
}.

Definition init_state : State := {|
  mapst := {| map_loaded := false; map_fit := None; markers := []; polylines := [];
              infoWindow_content := ""; infoWindow_anchor := None |};
  vars := {| stopMarkersSelected := ∅; stopMarkersBackground := ∅;
             existingPolylines := []; boundsOfPolyLine := None;
             selectedRoute := None; forbid_editing := false;
             icons_initialized := false; globals := ∅ |};
  dom := {| props := ∅; routeList := [] |};
  net := {| requests := []; console := []; fetched := [] |}
|}.

(** The script's constants. *)
Definition log : bool := false.
Definition twelveHourTime : bool := false.

(** *** Field updates *)

Definition with_mapst (f : MapState -> MapState) (s : State) : State :=
  {| mapst := f (mapst s); vars := vars s; dom := dom s; net := net s |}.
Definition with_vars (f : Vars -> Vars) (s : State) : State :=
  {| mapst := mapst s; vars := f (vars s); dom := dom s; net := net s |}.
Definition with_dom (f : Dom -> Dom) (s : State) : State :=
  {| mapst := mapst s; vars := vars s; dom := f (dom s); net := net s |}.
Definition with_net (f : Net -> Net) (s : State) : State :=
  {| mapst := mapst s; vars := vars s; dom := dom s; net := f (net s) |}.

Definition set_map_loaded (b : bool) (m : MapState) : MapState :=
  {| map_loaded := b; map_fit := map_fit m; markers := markers m; polylines := polylines m;
     infoWindow_content := infoWindow_content m; infoWindow_anchor := infoWindow_anchor m |}.
Definition set_map_fit (b : option FitArg) (m : MapState) : MapState :=
  {| map_loaded := map_loaded m; map_fit := b; markers := markers m; polylines := polylines m;
     infoWindow_content := infoWindow_content m; infoWindow_anchor := infoWindow_anchor m |}.
Definition set_markers (l : list Marker) (m : MapState) : MapState :=
  {| map_loaded := map_loaded m; map_fit := map_fit m; markers := l; polylines := polylines m;
     infoWindow_content := infoWindow_content m; infoWindow_anchor := infoWindow_anchor m |}.
Definition set_polylines (l : list Polyline) (m : MapState) : MapState :=
  {| map_loaded := map_loaded m; map_fit := map_fit m; markers := markers m; polylines := l;
     infoWindow_content := infoWindow_content m; infoWindow_anchor := infoWindow_anchor m |}.
Definition set_infoWindow (html : string) (anchor : option nat) (m : MapState) : MapState :=
  {| map_loaded := map_loaded m; map_fit := map_fit m; markers := markers m;
     polylines := polylines m; infoWindow_content := html; infoWindow_anchor := anchor |}.

Definition set_stopMarkersSelected (x : gmap string nat) (v : Vars) : Vars :=
  {| stopMarkersSelected := x; stopMarkersBackground := stopMarkersBackground v;
     existingPolylines := existingPolylines v; boundsOfPolyLine := boundsOfPolyLine v;
     selectedRoute := selectedRoute v; forbid_editing := forbid_editing v;
     icons_initialized := icons_initialized v; globals := globals v |}.
Definition set_stopMarkersBackground (x : gmap string nat) (v : Vars) : Vars :=
  {| stopMarkersSelected := stopMarkersSelected v; stopMarkersBackground := x;
     existingPolylines := existingPolylines v; boundsOfPolyLine := boundsOfPolyLine v;
     selectedRoute := selectedRoute v; forbid_editing := forbid_editing v;
     icons_initialized := icons_initialized v; globals := globals v |}.
Definition set_existingPolylines (x : list nat) (v : Vars) : Vars :=
  {| stopMarkersSelected := stopMarkersSelected v;
     stopMarkersBackground := stopMarkersBackground v;
     existingPolylines := x; boundsOfPolyLine := boundsOfPolyLine v;
     selectedRoute := selectedRoute v; forbid_editing := forbid_editing v;
     icons_initialized := icons_initialized v; globals := globals v |}.
Definition set_boundsOfPolyLine (x : option (list LatLng)) (v : Vars) : Vars :=
  {| stopMarkersSelected := stopMarkersSelected v;
     stopMarkersBackground := stopMarkersBackground v;
     existingPolylines := existingPolylines v; boundsOfPolyLine := x;
     selectedRoute := selectedRoute v; forbid_editing := forbid_editing v;
     icons_initialized := icons_initialized v; globals := globals v |}.
Definition set_selectedRoute (x : option string) (v : Vars) : Vars :=
  {| stopMarkersSelected := stopMarkersSelected v;
     stopMarkersBackground := stopMarkersBackground v;
     existingPolylines := existingPolylines v; boundsOfPolyLine := boundsOfPolyLine v;
     selectedRoute := x; forbid_editing := forbid_editing v; icons_initialized := icons_initialized v; globals := globals v |}.
Definition set_forbid_editing (x : bool) (v : Vars) : Vars :=
  {| stopMarkersSelected := stopMarkersSelected v;
     stopMarkersBackground := stopMarkersBackground v;
     existingPolylines := existingPolylines v; boundsOfPolyLine := boundsOfPolyLine v;
     selectedRoute := selectedRoute v; forbid_editing := x; icons_initialized := icons_initialized v; globals := globals v |}.
Definition set_icons_initialized (x : bool) (v : Vars) : Vars :=
  {| stopMarkersSelected := stopMarkersSelected v;
     stopMarkersBackground := stopMarkersBackground v;
     existingPolylines := existingPolylines v; boundsOfPolyLine := boundsOfPolyLine v;
     selectedRoute := selectedRoute v; forbid_editing := forbid_editing v;
     icons_initialized := x; globals := globals v |}.
Definition set_globals (x : gset string) (v : Vars) : Vars :=
  {| stopMarkersSelected := stopMarkersSelected v;
     stopMarkersBackground := stopMarkersBackground v;
     existingPolylines := existingPolylines v; boundsOfPolyLine := boundsOfPolyLine v;
     selectedRoute := selectedRoute v; forbid_editing := forbid_editing v; icons_initialized := icons_initialized v; globals := x |}.

Definition set_props (x : gmap (string * string) string) (d : Dom) : Dom :=
  {| props := x; routeList := routeList d |}.
Definition set_routeList (x : list RouteContainer) (d : Dom) : Dom :=
  {| props := props d; routeList := x |}.

Definition set_requests (x : list Xhr) (n : Net) : Net :=
  {| requests := x; console := console n; fetched := fetched n |}.
Definition set_console (x : list string) (n : Net) : Net :=
  {| requests := requests n; console := x; fetched := fetched n |}.
Definition set_fetched (x : list string) (n : Net) : Net :=
  {| requests := requests n; console := console n; fetched := x |}.

Definition set_m_map (b : bool) (m : Marker) : Marker :=
  {| m_stopId := m_stopId m; m_stopName := m_stopName m; m_position := m_position m;
     m_icon := m_icon m; m_draggable := m_draggable m; m_label := m_label m; m_map := b |}.
Definition set_m_label (t : option string) (m : Marker) : Marker :=
  {| m_stopId := m_stopId m; m_stopName := m_stopName m; m_position := m_position m;
     m_icon := m_icon m; m_draggable := m_draggable m; m_label := t; m_map := m_map m |}.
Definition set_m_position (p : LatLng) (m : Marker) : Marker :=
  {| m_stopId := m_stopId m; m_stopName := m_stopName m; m_position := p;
     m_icon := m_icon m; m_draggable := m_draggable m; m_label := m_label m;
     m_map := m_map m |}.
Definition set_pl_map (b : bool) (p : Polyline) : Polyline :=
  {| pl_path := pl_path p; pl_color := pl_color p; pl_weight := pl_weight p; pl_map := b |}.
Definition set_xhr_status (x : XhrStatus) (r : Xhr) : Xhr :=
  {| xhr_method := xhr_method r; xhr_url := xhr_url r; xhr_async := xhr_async r;
     xhr_timeout := xhr_timeout r; xhr_onload := xhr_onload r; xhr_status := x |}.

(** ** Computations: state and exceptions *)

Inductive JsError :=
| ReferenceError (name : string)     (* an unresolvable name was read *)
| TypeError (what : string).         (* a property of null or undefined *)

Inductive Outcome (A : Type) :=
| Ret (a : A)
| Throw (e : JsError).
Arguments Ret {A} a.
Arguments Throw {A} e.

Definition M (A : Type) : Type := State -> Outcome A * State.

Definition ret {A : Type} (a : A) : M A := fun s => (Ret a, s).

Definition bind {A B : Type} (m : M A) (f : A -> M B) : M B :=
  fun s =>
    match m s with
    | (Ret a, s') => f a s'
    | (Throw e, s') => (Throw e, s')
    end.

Definition throw {A : Type} (e : JsError) : M A := fun s => (Throw e, s).
Definition get : M State := fun s => (Ret s, s).
Definition modify (f : State -> State) : M unit := fun s => (Ret tt, f s).

#[global] Instance M_ret : MRet M := @ret.
#[global] Instance M_bind : MBind M := fun A B f m => bind m f.

(** The state a computation leaves, whether it returned or threw. *)
Definition exec {A : Type} (m : M A) (s : State) : State := snd (m s).

Definition returns {A : Type} (m : M A) (s : State) : bool :=
  match fst (m s) with
  | Ret _ => true
  | Throw _ => false
  end.

(** [for (...) body]: the body at each element, in order. *)
Fixpoint for_each {A : Type} (f : A -> M unit) (l : list A) : M unit :=
  match l with
  | [] => mret tt
  | x :: l' => f x;; for_each f l'
  end.

(** *** Globals, properties and object stores *)

(** Reading a name that is not declared in the script: a [ReferenceError]
    unless an assignment has created it. *)
Definition read_global (name : string) : M unit :=
  s ← get;
  if decide (name ∈ globals (vars s)) then mret tt
  else throw (ReferenceError name).

(** Assigning to an undeclared name creates the global. *)
Definition assign_global (name : string) : M unit :=
  modify (with_vars (fun v => set_globals ({[name]} ∪ globals v) v)).

(** [document.getElementById(id).prop] of a static element. *)
Definition get_prop (id prop : string) : M string :=
  s ← get; mret (default "" (props (dom s) !! (id, prop))).

Definition set_prop (id prop value : string) : M unit :=
  modify (with_dom (fun d => set_props (<[(id, prop) := value]> (props d)) d)).

Definition update_marker (r : nat) (f : Marker -> Marker) (s : State) : State :=
  with_mapst (fun m => set_markers (alter f r (markers m)) m) s.

Definition update_polyline (r : nat) (f : Polyline -> Polyline) (s : State) : State :=
  with_mapst (fun m => set_polylines (alter f r (polylines m)) m) s.

(** Dereferencing a marker. *)
Definition get_marker (r : nat) : M Marker :=
  s ← get;
  match markers (mapst s) !! r with
  | Some m => mret m
  | None => throw (TypeError "marker")
  end.

(** [marker.setMap(null)] and [polyline.setMap(null)]. *)
Definition marker_setMap_null (r : nat) : M unit :=
  modify (update_marker r (set_m_map false)).

Definition polyline_setMap_null (r : nat) : M unit :=
  modify (update_polyline r (set_pl_map false)).

(** [marker.getText()] and [marker.setText(t)] of a labelled marker; a plain
    [google.maps.Marker] has neither. *)
Definition marker_getText (r : nat) : M string :=
  m ← get_marker r;
  match m_label m with
  | Some t => mret t
  | None => throw (TypeError "getText")
  end.

Definition marker_setText (r : nat) (t : string) : M unit :=
  m ← get_marker r;
  match m_label m with
  | Some _ => modify (update_marker r (set_m_label (Some t)))
  | None => throw (TypeError "setText")
  end.

(** [map.fitBounds(b)]: [map] is undefined until [load] ran. *)
Definition map_fitBounds (b : FitArg) : M unit :=
  s ← get;
  if map_loaded (mapst s) then modify (with_mapst (set_map_fit (Some b)))
  else throw (TypeError "map").

Definition console_log (line : string) : M unit :=
  modify (with_net (fun n => set_console (console n ++ [line]) n)).

(** The browser fetches [url] for an object embedded in the document. *)
Definition browser_fetch (url : string) : M unit :=
  modify (with_net (fun n => set_fetched (fetched n ++ [url]) n)).

(** ** The script [index.js] *)

Section Script.

Context `{Platform}.

(** *** Requests *)

(** [downloadUrl(url, callback)]: a new [XMLHttpRequest], opened with
    ["GET"], asynchronous, with its [onload] and [onerror] handlers, and
    sent. The handlers run later, as the events [EvXhrLoad] and
    [EvXhrError]. *)
Definition downloadUrl (url : string) (callback : Callback) : M unit :=
  (if log then console_log url else mret tt);;
  modify (with_net (fun n =>
    set_requests (requests n ++
      [{| xhr_method := "GET"; xhr_url := url; xhr_async := true; xhr_timeout := 0;
          xhr_onload := callback; xhr_status := Sent |}]) n)).

(** *** Time and date *)

Definition leadingZero (digit : Z) : string :=
  if (digit <? 10)%Z then "0" +:+ pretty digit else "" +:+ pretty digit.

Definition formatTime (secSinceMidnight : Z) : string :=
  let hours := (secSinceMidnight / 3600)%Z in
  let suffix := "" in
  let '(hours, suffix) :=
    if twelveHourTime then
      let suffix := if (12 <=? hours)%Z then "p" else "a" in
      let suffix := suffix +:+ (if (24 <=? hours)%Z then " next day" else "") in
      let hours := Z.rem hours 12 in
      (if (hours =? 0)%Z then 12%Z else hours, suffix)
    else (hours, suffix) in
  let minutes := Z.rem (secSinceMidnight / 60) 60 in
  let seconds := Z.rem secSinceMidnight 60 in
  if (seconds =? 0)%Z then
    pretty hours +:+ ":" +:+ leadingZero minutes +:+ suffix
  else
    pretty hours +:+ ":" +:+ leadingZero minutes +:+ ":" +:+ leadingZero seconds +:+ suffix.

(** [parseTimeInput()]. The statement [second += parseInt(m[4], 10)] names
    [second], which the script neither declares nor assigns anywhere else:
    the compound assignment reads it first. *)
Definition parseTimeInput : M JsVal :=
  text ← get_prop "timeInput" "value";
  match Regex.search Regex.time_re text with
  | Some m =>
      let seconds := mul (parseInt10 (default "" (m !! 1))) 3600 in
      let seconds := add seconds (mul (parseInt10 (default "" (m !! 2))) 60) in
      (if truthy (m !! 4) then read_global "second";; assign_global "second"
       else mret tt);;
      mret seconds
  | None =>
      (if log then console_log ("Couldn't match " +:+ text +:+ " to time")
       else mret tt);;
      mret (JStr "")
  end.

Definition parseDateInput : M string :=
  text ← get_prop "startDateInput" "value";
  match Regex.search Regex.date_re text with
  | Some m => mret text
  | None =>
      (if log then console_log ("Couldn't match " +:+ text +:+ " to date")
       else mret tt);;
      mret ""
  end.

Definition maybeAddLeadingZero (number : Z) : JsVal :=
  if (10 <? number)%Z then JNum number
  else JStr ("0" +:+ pretty number).

(** [setStartDate(y, m, d)], the calendar's return function; the assignment
    to [value] converts to a string. *)
Definition setStartDate (y : JsVal) (m d : Z) : M unit :=
  set_prop "startDateInput" "value"
    (to_string (add (add y (maybeAddLeadingZero m)) (maybeAddLeadingZero d))).

(** [new Array(logCount + 1).join(".")]: [logCount] dots. *)
Definition countToRepeatedDots (count : Z) : string :=
  let logCount := (ceil_log2 count + 1)%nat in
  String.concat "" (replicate logCount ".").

(** *** Layout *)

Definition sizeRouteList : M unit :=
  display ← get_prop "bottombar" "style.display";
  set_prop "content" "style.height" (layout_height display).

(** *** Markers *)

(** [clearMap()]: remove all overlays from the map. *)
Definition clearMap : M unit :=
  modify (with_vars (set_boundsOfPolyLine None));;
  s ← get;
  for_each marker_setMap_null (map_to_list (stopMarkersSelected (vars s))).*2;;
  for_each marker_setMap_null (map_to_list (stopMarkersBackground (vars s))).*2;;
  for_each polyline_setMap_null (existingPolylines (vars s));;
  modify (with_vars (set_stopMarkersSelected ∅));;
  modify (with_vars (set_stopMarkersBackground ∅));;
  modify (with_vars (set_existingPolylines [])).

(** The icon variable's value when the marker is made. *)
Definition icon_value (i : Icon) (s : State) : option Icon :=
  if icons_initialized (vars s) then Some i else None.

(** [addStopMarker(stopId, stopName, stopLat, stopLon, locationType,
    selected, text)]: add a stop to the map, returning the marker. The two
    listeners it installs ([click], [dragend]) are the events
    [EvMarkerClick] and [EvMarkerDragEnd]. The two dictionaries are looked
    up for the stops recorded in them: a stop id that spells a member of
    [Object.prototype] is not one of these (see the conventions). *)
Definition addStopMarker (stopId stopName : string) (stopLat stopLon : Coord)
    (locationType : Z) (selected : bool) (text : option string) : M nat :=
  s ← get;
  match stopMarkersSelected (vars s) !! stopId with
  | Some marker =>
      (* stop was selected *)
      (if truthy text then
         oldText ← marker_getText marker;
         assign_global "oldText";;
         let oldText := if truthy (Some oldText) then oldText +:+ "<br>" else oldText in
         marker_setText marker (oldText +:+ default "" text)
       else mret tt);;
      mret marker
  | None =>
      let create : M nat :=
        s ← get;
        let icon :=
          if selected then iconSelected
          else if (locationType =? 1)%Z then iconBackgroundStation
          else iconBackground in
        let ll := {| lat := stopLat; lng := stopLon |} in
        let label :=
          if selected || truthy text
          then Some (if truthy text then default "" text else "")
          else None in
        let marker := length (markers (mapst s)) in
        modify (with_mapst (fun m => set_markers (markers m ++
          [{| m_stopId := stopId; m_stopName := stopName; m_position := ll;
              m_icon := icon_value icon s;
              m_draggable := negb (forbid_editing (vars s));
              m_label := label; m_map := map_loaded (mapst s) |}]) m));;
        (if selected then
           modify (with_vars (fun v =>
             set_stopMarkersSelected (<[stopId := marker]> (stopMarkersSelected v)) v))
         else
           modify (with_vars (fun v =>
             set_stopMarkersBackground (<[stopId := marker]> (stopMarkersBackground v)) v)));;
        mret marker in
      match stopMarkersBackground (vars s) !! stopId with
      | Some marker =>
          (* Stop was in the background. Either delete it from the
             background or leave it where it is. *)
          if selected then
            marker_setMap_null marker;;
            modify (with_vars (fun v =>
              set_stopMarkersBackground (delete stopId (stopMarkersBackground v)) v));;
            create
          else mret marker
      | None => create
      end
  end.

Definition addStopMarkerFromList (list : StopRow) (selected : bool)
    (text : option string) : M nat :=
  addStopMarker (sr_stopId list) (sr_stopName list) (sr_lat list) (sr_lon list)
    (sr_locationType list) selected text.

(** *** Fetching *)

Definition fetchStopsInBounds (bounds : LatLngBounds) : M unit :=
  let url := "/json/boundboxstops?n=" +:+ lat (northEast bounds)
             +:+ "&e=" +:+ lng (northEast bounds)
             +:+ "&s=" +:+ lat (southWest bounds)
             +:+ "&w=" +:+ lng (southWest bounds)
             +:+ "&limit=50" in
  assign_global "url";;
  downloadUrl url CbDisplayStopsBackground.

Definition callbackZoomEnd : M unit := mret tt.

(** [callbackMoveEnd()]; [bounds] is what [map.getBounds()] returns. *)
Definition callbackMoveEnd (bounds : LatLngBounds) : M unit :=
  fetchStopsInBounds bounds.

Definition fetchStopInfoWindow (marker : nat) : M unit :=
  m ← get_marker marker;
  time ← parseTimeInput;
  date ← parseDateInput;
  let url := "/json/stoptrips?stop=" +:+ encodeURIComponent (m_stopId m)
             +:+ "&time=" +:+ to_string time +:+ "&date=" +:+ date in
  downloadUrl url (CbStopInfoWindow marker).

Definition stopTextSearchSubmit : M unit :=
  text ← get_prop "stopTextSearchInput" "value";
  let url := "/json/stopsearch?q=" +:+ text in
  downloadUrl url CbDisplayStops.

Definition changeStopLocation (marker : nat) : M unit :=
  m ← get_marker marker;
  let url := "/json/setstoplocation?id=" +:+ encodeURIComponent (m_stopId m)
             +:+ "&lat=" +:+ encodeURIComponent (lat (m_position m))
             +:+ "&lng=" +:+ encodeURIComponent (lng (m_position m)) in
  downloadUrl url CbChangeStopLocation.

Definition saveData : M unit :=
  let url := "/json/savedata" in
  downloadUrl url CbSaveData.

Definition fetchRoutes : M unit :=
  assign_global "url";;
  downloadUrl "/json/routes" CbDisplayRoutes.

Definition fetchPatterns (routeId : string) : M unit :=
  time ← parseTimeInput;
  date ← parseDateInput;
  assign_global "url";;
  downloadUrl ("/json/routepatterns?route=" +:+ encodeURIComponent routeId
               +:+ "&time=" +:+ to_string time +:+ "&date=" +:+ date)
    CbDisplayPatterns.

Definition fetchTripPolyLine (tripId : string) : M unit :=
  assign_global "url";;
  downloadUrl ("/json/tripshape?trip=" +:+ encodeURIComponent tripId)
    CbDisplayTripPolyLine.

Definition fetchTripRows (tripId : string) : M unit :=
  assign_global "url";;
  downloadUrl ("/json/triprows?trip=" +:+ encodeURIComponent tripId)
    (CbDisplayTripRows tripId).

(** *** The route list *)

(** The first element of a list, in order, that [f] applies to, replaced by
    what [f] gives; [None] when there is none. *)
Fixpoint update_first {A : Type} (f : A -> option A) (l : list A) : option (list A) :=
  match l with
  | [] => None
  | x :: l' =>
      match f x with
      | Some y => Some (y :: l')
      | None => cons x <$> update_first f l'
      end
  end.

Definition container_id (c : RouteContainer) : string := "route_container_" +:+ rc_routeId c.
Definition elem_id (c : RouteContainer) : string := "route_" +:+ rc_routeId c.
Definition span_id (sp : TripSpan) : string := "trip_" +:+ ts_tripId sp.

Definition set_rc_elemClass (x : string) (c : RouteContainer) : RouteContainer :=
  {| rc_routeId := rc_routeId c; rc_shortName := rc_shortName c;
     rc_routeName := rc_routeName c; rc_elemClass := x;
     rc_containerClass := rc_containerClass c;
     rc_elemTripInfos := rc_elemTripInfos c; rc_tripInfos := rc_tripInfos c |}.
Definition set_rc_containerClass (x : string) (c : RouteContainer) : RouteContainer :=
  {| rc_routeId := rc_routeId c; rc_shortName := rc_shortName c;
     rc_routeName := rc_routeName c; rc_elemClass := rc_elemClass c;
     rc_containerClass := x;
     rc_elemTripInfos := rc_elemTripInfos c; rc_tripInfos := rc_tripInfos c |}.
Definition set_rc_elemTripInfos (x : list TripInfo) (c : RouteContainer) : RouteContainer :=
  {| rc_routeId := rc_routeId c; rc_shortName := rc_shortName c;
     rc_routeName := rc_routeName c; rc_elemClass := rc_elemClass c;
     rc_containerClass := rc_containerClass c;
     rc_elemTripInfos := x; rc_tripInfos := rc_tripInfos c |}.
Definition set_rc_tripInfos (x : list TripInfo) (c : RouteContainer) : RouteContainer :=
  {| rc_routeId := rc_routeId c; rc_shortName := rc_shortName c;
     rc_routeName := rc_routeName c; rc_elemClass := rc_elemClass c;
     rc_containerClass := rc_containerClass c;
     rc_elemTripInfos := rc_elemTripInfos c; rc_tripInfos := x |}.

(** [document.getElementById(target)] for a [target] that starts with
    ["route_"], with what is then done to the element found: [fc] when it is
    a container, [fe] when it is an elem. Only those two kinds of element
    have such an id (the others are ["tripInfo"] and ["trip_..."]); document
    order puts a container before its elem. *)
Definition update_route_by_id (target : string) (fc fe : RouteContainer -> RouteContainer)
    (l : list RouteContainer) : option (list RouteContainer) :=
  update_first (fun c =>
    if String.eqb (container_id c) target then Some (fc c)
    else if String.eqb (elem_id c) target then Some (fe c)
    else None) l.

(** [document.getElementById("tripInfo")] with what is then done to it
    ([f] gives the nodes that take its place): the trip sections are the
    only elements with that id; document order puts those under the elem
    before those under the container. *)
Definition update_tripInfo (f : TripInfo -> list TripInfo) (l : list RouteContainer)
    : option (list RouteContainer) :=
  update_first (fun c =>
    match rc_elemTripInfos c with
    | t :: ts => Some (set_rc_elemTripInfos (f t ++ ts) c)
    | [] =>
        match rc_tripInfos c with
        | t :: ts => Some (set_rc_tripInfos (f t ++ ts) c)
        | [] => None
        end
    end) l.

Definition map_spans (f : TripSpan -> TripSpan) (t : TripInfo) : TripInfo :=
  {| ti_patterns :=
       map (fun pd =>
         {| pd_className := pd_className pd;
            pd_children :=
              map (fun ch => match ch with PSpan sp => PSpan (f sp) | _ => ch end)
                (pd_children pd) |}) (ti_patterns t) |}.

Definition set_ts_className (x : string) (sp : TripSpan) : TripSpan :=
  {| ts_tripId := ts_tripId sp; ts_text := ts_text sp; ts_className := x |}.

(** [document.getElementById(target)] for a [target] that starts with
    ["trip_"]: the first span with that id, in document order, with [f]
    applied to it. *)
Definition update_span_by_id (target : string) (f : TripSpan -> TripSpan)
    (l : list RouteContainer) : option (list RouteContainer) :=
  let in_child (ch : PatChild) : option PatChild :=
    match ch with
    | PSpan sp => if String.eqb (span_id sp) target then Some (PSpan (f sp)) else None
    | _ => None
    end in
  let in_pattern (pd : PatternDiv) : option PatternDiv :=
    (fun cs => {| pd_className := pd_className pd; pd_children := cs |})
      <$> update_first in_child (pd_children pd) in
  let in_tripInfo (t : TripInfo) : option TripInfo :=
    (fun ps => {| ti_patterns := ps |}) <$> update_first in_pattern (ti_patterns t) in
  update_first (fun c =>
    match update_first in_tripInfo (rc_elemTripInfos c) with
    | Some ts => Some (set_rc_elemTripInfos ts c)
    | None => (fun ts => set_rc_tripInfos ts c) <$> update_first in_tripInfo (rc_tripInfos c)
    end) l.

Definition set_route_list (l : list RouteContainer) : M unit :=
  modify (with_dom (set_routeList l)).

(** *** Selecting a trip *)

Definition selectTrip (tripId : string) : M unit :=
  s ← get;
  (match update_tripInfo (fun t => [map_spans (set_ts_className "tripChoice") t])
           (routeList (dom s)) with
   | Some l => assign_global "tripSpans";; set_route_list l
   | None => mret tt
   end);;
  s ← get;
  (* Won't find the span if a different route is selected *)
  (match update_span_by_id ("trip_" +:+ tripId) (set_ts_className "tripChoiceSelected")
           (routeList (dom s)) with
   | Some l => set_route_list l
   | None => mret tt
   end);;
  clearMap;;
  assign_global "url";;
  downloadUrl ("/json/tripstoptimes?trip=" +:+ encodeURIComponent tripId)
    CbDisplayTripStopTimes;;
  fetchTripPolyLine tripId;;
  fetchTripRows tripId.

Definition tripTextSearchSubmit : M unit :=
  text ← get_prop "tripTextSearchInput" "value";
  selectTrip text.

(** *** Selecting a route *)

Definition selectRoute (routeId : string) : M unit :=
  assign_global "routeSpans";;
  (* the divs under the list that can carry the class are the containers
     and the elems *)
  modify (with_dom (fun d => set_routeList
    (map (fun c =>
       let c := if String.eqb (rc_containerClass c) "routeChoiceSelected"
                then set_rc_containerClass "routeChoice" c else c in
       if String.eqb (rc_elemClass c) "routeChoiceSelected"
       then set_rc_elemClass "routeChoice" c else c) (routeList d)) d));;
  (* remove any previously-expanded route *)
  s ← get;
  (match update_tripInfo (fun _ => []) (routeList (dom s)) with
   | Some l => set_route_list l
   | None => mret tt
   end);;
  modify (with_vars (set_selectedRoute (Some routeId)));;
  s ← get;
  match update_route_by_id ("route_" +:+ routeId)
          (set_rc_containerClass "routeChoiceSelected")
          (set_rc_elemClass "routeChoiceSelected") (routeList (dom s)) with
  | Some l => set_route_list l;; fetchPatterns routeId
  | None => throw (TypeError "span")
  end.

(** *** Response callbacks *)

Definition callbackDisplayStops (data : string) (responseCode : Z) : M unit :=
  if negb (responseCode =? 200)%Z then mret tt
  else
    clearMap;;
    let stops := eval_stops data in
    match stops with
    | [stop] =>
        marker ← addStopMarkerFromList stop true None;
        fetchStopInfoWindow marker
    | _ => for_each (fun stop => addStopMarkerFromList stop true None;; mret tt) stops
    end.

(** The first loop of [callbackDisplayStopsBackground]: add the new markers
    and remove them from the local [oldStopMarkers]. *)
Fixpoint addBackgroundStops (stops : list StopRow) (oldStopMarkers : gmap string nat)
    : M (gmap string nat) :=
  match stops with
  | [] => mret oldStopMarkers
  | stop :: stops' =>
      marker ← addStopMarkerFromList stop false None;
      m ← get_marker marker;
      addBackgroundStops stops'
        (match oldStopMarkers !! m_stopId m with
         | Some _ => delete (m_stopId m) oldStopMarkers
         | None => oldStopMarkers
         end)
  end.

(** Add stops markers to the map and remove stops no longer in the
    background. *)
Definition callbackDisplayStopsBackground (data : string) (responseCode : Z) : M unit :=
  if negb (responseCode =? 200)%Z then mret tt
  else
    let stops := eval_stops data in
    s ← get;
    (* Make a list of all background markers *)
    let oldStopMarkers := stopMarkersBackground (vars s) in
    (* Add new markers to the map and remove from oldStopMarkers *)
    oldStopMarkers ← addBackgroundStops stops oldStopMarkers;
    (* Delete all markers that remain in oldStopMarkers *)
    for_each marker_setMap_null (map_to_list oldStopMarkers).*2.

Definition callbackChangeStopLocation (data : string) (responseCode : Z) : M unit :=
  set_prop "edit_status" "innerHTML" (unescape data).

Definition callbackSaveData (data : string) (responseCode : Z) : M unit :=
  set_prop "edit_status" "innerHTML" data.

Definition callbackDisplayStopInfoWindow (marker : nat) (data : string)
    (responseCode : Z) : M unit :=
  if negb (responseCode =? 200)%Z then mret tt
  else
    let timeTrips := eval_timeTrips data in
    m ← get_marker marker;
    let html := "<b>" +:+ m_stopName m +:+ "</b> (" +:+ m_stopId m +:+ ")<br>" in
    let latLng := m_position m in
    let html := html +:+ "(" +:+ lat latLng +:+ ", " +:+ lng latLng +:+ ")<br>" in
    let html := html +:+ "<table><tr><th>service_id<th>time<th>name</tr>" in
    let html :=
      fold_left (fun html t =>
        html +:+ "<tr onClick='map.closeInfoWindow();selectTrip(" +:+ dquote
             +:+ tt_tripid t +:+ dquote +:+ ")'>"
             +:+ "<td>" +:+ tt_service_id t
             +:+ "<td align='right'>" +:+ (if tt_timepoint t then "" else "~")
             +:+ formatTime (tt_time t) +:+ "<td>" +:+ tt_tripname t +:+ "</tr>")
        timeTrips html in
    let html := html +:+ "</table>" in
    modify (with_mapst (set_infoWindow html (Some marker))).

(** [callbackDisplayRoutes]. On a code other than 200 the statement
    [patternDiv.appendChild(div)] runs: it reads the implicit global
    [patternDiv] and then [div], which is no global of the script (the only
    [div] is a local of [callbackDisplayPatterns]); nothing of the document
    model can be moved by it. *)
Definition callbackDisplayRoutes (data : string) (responseCode : Z) : M unit :=
  (if negb (responseCode =? 200)%Z then read_global "patternDiv";; read_global "div"
   else mret tt);;
  let routes := eval_routes data in
  set_route_list [];;
  assign_global "i";;
  for_each (fun row =>
    s ← get;
    set_route_list (routeList (dom s) ++
      [{| rc_routeId := rr_routeId row;
          rc_shortName := rr_shortName row +:+ " ";
          rc_routeName := rr_routeName row;
          rc_elemClass := "routeChoice";
          rc_containerClass := "routeContainer";
          rc_elemTripInfos := [];
          rc_tripInfos := [] |}])) routes.

(** The [div.patternSection] that [callbackDisplayPatterns] builds for one
    pattern. *)
Definition patternSection (pat : Pattern) : PatternDiv :=
  {| pd_className :=
       "patternSection" +:+ (if String.eqb (pat_unusual pat) "1" then " unusualPattern" else "");
     pd_children :=
       [PText (pat_name pat);
        PText (", " +:+ pretty (pat_early pat + Z.of_nat (length (pat_trips pat))
                                 + pat_later pat)%Z +:+ " trips: ")]
       ++ (if (0 <? pat_early pat)%Z
           then [PText (countToRepeatedDots (pat_early pat) +:+ " ")] else [])
       ++ concat (map (fun trip : Z * string =>
                    [PText " ";
                     PSpan {| ts_tripId := trip.2; ts_text := formatTime trip.1;
                              ts_className := "tripChoice" |}]) (pat_trips pat))
       ++ (if (0 <? pat_later pat)%Z
           then [PText (" " +:+ countToRepeatedDots (pat_later pat))] else [])
       ++ [PBr] |}.

(** [callbackDisplayPatterns]. [firstTrip] is the first trip of the first
    pattern, [null] when that pattern has none; the local [tripId] is
    defined as soon as some pattern has a trip. A [null] first trip reaches
    [selectTrip] only through string conversions, which render it "null". *)
Definition callbackDisplayPatterns (data : string) (responseCode : Z) : M unit :=
  if negb (responseCode =? 200)%Z then mret tt
  else
    let patterns := eval_patterns data in
    clearMap;;
    assign_global "i";;
    for_each (fun _ : Pattern => assign_global "patternDiv";; assign_global "j") patterns;;
    let div := {| ti_patterns := map patternSection patterns |} in
    let firstTrip : option string :=
      match patterns with
      | pat :: _ => match pat_trips pat with trip :: _ => Some trip.2 | [] => None end
      | [] => None
      end in
    let tripId_defined := existsb (fun pat => negb (length (pat_trips pat) =? 0)%nat) patterns in
    s ← get;
    let route := update_route_by_id
                   ("route_container_" +:+ default "null" (selectedRoute (vars s)))
                   (fun c => set_rc_tripInfos (rc_tripInfos c ++ [div]) c)
                   (fun c => set_rc_elemTripInfos (rc_elemTripInfos c ++ [div]) c)
                   (routeList (dom s)) in
    assign_global "route";;
    match route with
    | Some l =>
        set_route_list l;;
        if tripId_defined then selectTrip (default "null" firstTrip) else mret tt
    | None => throw (TypeError "route")
    end.

Definition expandBoundingBox (latLng : LatLng) : M unit :=
  modify (with_vars (fun v =>
    match boundsOfPolyLine v with
    | None => set_boundsOfPolyLine (Some [latLng]) v
    | Some pts => set_boundsOfPolyLine (Some (pts ++ [latLng])) v
    end)).

(** Display a line given a list of points. *)
Definition displayPolyLine (polyData : PolyData) : M unit :=
  let points := poly_points polyData in
  assign_global "i";;
  for_each expandBoundingBox points;;
  let linePoints := points in
  let color := if truthy (poly_color polyData) then default "" (poly_color polyData)
               else "#003399" in
  s ← get;
  let polyline := length (polylines (mapst s)) in
  modify (with_mapst (fun m => set_polylines (polylines m ++
    [{| pl_path := linePoints; pl_color := color; pl_weight := 4;
        pl_map := map_loaded (mapst s) |}]) m));;
  s ← get;
  map_fitBounds (FitPoints (boundsOfPolyLine (vars s)));;
  modify (with_vars (fun v => set_existingPolylines (existingPolylines v ++ [polyline]) v)).

Definition displayTripStopTimes (stops : list StopRow)
    (arrivalTimes departureTimes : option (list (option Z))) : M unit :=
  assign_global "i";;
  for_each (fun '((i, stop) : nat * StopRow) =>
    let arrival : option Z := l ← arrivalTimes; t ← l !! i; t in
    let departure : option Z := l ← departureTimes; t ← l !! i; t in
    marker ←
      match arrival with
      | Some a =>
          let label := formatTime a in
          let label :=
            match departure with
            | Some d => if negb (a =? d)%Z then label +:+ "-" +:+ formatTime d else label
            | None => label
            end in
          assign_global "label";;
          addStopMarkerFromList stop true (Some label)
      | None => addStopMarkerFromList stop true None
      end;
    m ← get_marker marker;
    expandBoundingBox (m_position m)) (zip (seq 0 (length stops)) stops);;
  s ← get;
  map_fitBounds (FitPoints (boundsOfPolyLine (vars s))).

Definition callbackDisplayTripStopTimes (data : string) (responseCode : Z) : M unit :=
  if negb (responseCode =? 200)%Z then mret tt
  else
    match eval_stopTimes data with
    | None => mret tt
    | Some stopsTimes =>
        displayTripStopTimes (st_stops stopsTimes) (st_arrivals stopsTimes)
          (st_departures stopsTimes)
    end.

Definition callbackDisplayTripPolyLine (data : string) (responseCode : Z) : M unit :=
  if negb (responseCode =? 200)%Z then mret tt
  else
    match parse_polyData data with
    | None => mret tt
    | Some polyData => displayPolyLine polyData
    end.

(** Return HTML to embed a SVG object in this page. *)
Definition svgTag (src attributes : string) : string :=
  if agent_is_msie then
    if isSVGControlInstalled then
      "<embed pluginspage='http://www.adobe.com/svg/viewer/install/' src='" +:+ src
        +:+ "' " +:+ attributes +:+ "></embed>"
    else
      "<p>Please install the <a href='http://www.adobe.com/svg/viewer/install/'>Adobe SVG Viewer</a> to get SVG support in IE</p>"
  else
    "<object data='" +:+ src +:+ "' type='image/svg+xml' " +:+ attributes
      +:+ "><p>No SVG support in your browser. Try Firefox 1.5 or newer or install the <a href='http://www.adobe.com/svg/viewer/install/'>Adobe SVG Viewer</a></p></object>".

(** What the markup of [svgTag] makes the browser fetch once it is in the
    document: the [data] of the [object] element, or the [src] of the
    [embed] element (the SVG control loads it); the notice for a browser
    without the control embeds nothing. *)
Definition svgTag_embeds (src : string) : list string :=
  if agent_is_msie then
    if isSVGControlInstalled then [src] else []
  else [src].

(** Format key-value pairs into a human readable string. *)
Definition formatDictionary (d : list (string * string)) : string :=
  fst (fold_left (fun (acc : string * bool) (kv : string * string) =>
         let output := if acc.2 then acc.1 else acc.1 +:+ "&nbsp;&nbsp; " in
         (output +:+ "<b>" +:+ kv.1 +:+ "</b>=" +:+ kv.2, false)) d ("", true)).

Definition callbackDisplayTripRows (data : string) (responseCode : Z) (tripId : string)
    : M unit :=
  if negb (responseCode =? 200)%Z then mret tt
  else
    match eval_rows data with
    | None => mret tt
    | Some rows =>
        let html :=
          fold_left (fun (html : string) (r : string * list (string * string)) =>
            html +:+ "<b>" +:+ r.1 +:+ "</b>: " +:+ formatDictionary r.2 +:+ "<br>")
            rows "" in
        let src := "/ttablegraph?height=100&trip=" +:+ encodeURIComponent tripId in
        let html := html +:+ svgTag src "height='115' width='100%'" in
        set_prop "bottombar" "style.display" "block";;
        set_prop "bottombar" "style.height" "175px";;
        set_prop "bottombar" "innerHTML" html;;
        (* the browser renders the new content of the bottom bar *)
        for_each browser_fetch (svgTag_embeds src);;
        sizeRouteList
    end.

(** [callback(xhr.responseText, xhr.status)] for each callback of the script. *)
Definition run_callback (cb : Callback) (data : string) (responseCode : Z) : M unit :=
  match cb with
  | CbDisplayStopsBackground => callbackDisplayStopsBackground data responseCode
  | CbDisplayStops => callbackDisplayStops data responseCode
  | CbChangeStopLocation => callbackChangeStopLocation data responseCode
  | CbSaveData => callbackSaveData data responseCode
  | CbStopInfoWindow marker => callbackDisplayStopInfoWindow marker data responseCode
  | CbDisplayRoutes => callbackDisplayRoutes data responseCode
  | CbDisplayPatterns => callbackDisplayPatterns data responseCode
  | CbDisplayTripStopTimes => callbackDisplayTripStopTimes data responseCode
  | CbDisplayTripPolyLine => callbackDisplayTripPolyLine data responseCode
  | CbDisplayTripRows tripId => callbackDisplayTripRows data responseCode tripId
  end.

(** *** Loading the page *)

(** [load(config)]; [initIcons()] defines the three icon variables. *)
Definition load (config : Config) : M unit :=
  modify (with_vars (set_forbid_editing (cfg_forbid_editing config)));;
  sizeRouteList;;
  modify (with_mapst (set_map_loaded true));;
  map_fitBounds (FitBox (cfg_bounds config));;
  modify (with_vars (set_icons_initialized true));;
  fetchStopsInBounds (cfg_bounds config);;
  fetchRoutes.

(** ** The event loop

    What the browser delivers to the script, one event at a time: the page's
    [onload], the map's events, the user's actions on the document and on
    the markers, the calendar's return, and the completion of a request. *)

Inductive Event :=
| EvLoad (config : Config)
| EvMoveEnd (bounds : LatLngBounds)
| EvZoomEnd
| EvInput (id value : string)
| EvStopTextSearchSubmit
| EvTripTextSearchSubmit
| EvRouteClick (routeId : string)
| EvTripClick (tripId : string)
| EvMarkerClick (marker : nat)
| EvMarkerDragEnd (marker : nat) (position : LatLng)
| EvSaveData
| EvSetStartDate (y : JsVal) (m d : Z)
| EvXhrLoad (i : nat) (responseText : string) (status : Z)
| EvXhrError (i : nat) (status : Z).

(** Whether the browser can deliver the event in a state: the page loads
    once; the map's listeners exist once [load] ran; a route is clicked on
    its elem; a marker is clicked or dragged while it is on the map (and
    draggable); a request completes once. Inputs, submits, saves, the
    calendar's return and trip selections ([selectTrip] is the listener of
    the trip spans and of the rows of the info window) are always
    possible. *)
Definition enabled (e : Event) (s : State) : bool :=
  match e with
  | EvLoad _ => negb (map_loaded (mapst s))
  | EvMoveEnd _ | EvZoomEnd => map_loaded (mapst s)
  | EvRouteClick routeId =>
      existsb (fun c => String.eqb (rc_routeId c) routeId) (routeList (dom s))
  | EvMarkerClick marker =>
      match markers (mapst s) !! marker with
      | Some m => m_map m
      | None => false
      end
  | EvMarkerDragEnd marker _ =>
      match markers (mapst s) !! marker with
      | Some m => m_map m && m_draggable m
      | None => false
      end
  | EvXhrLoad i _ _ | EvXhrError i _ =>
      match requests (net s) !! i with
      | Some x => match xhr_status x with Sent => true | _ => false end
      | None => false
      end
  | _ => true
  end.

Definition set_request_status (i : nat) (x : XhrStatus) : M unit :=
  modify (with_net (fun n => set_requests (alter (set_xhr_status x) i (requests n)) n)).

(** The listener that runs for an event. *)
Definition handle (e : Event) : M unit :=
  match e with
  | EvLoad config => load config
  | EvMoveEnd bounds => callbackMoveEnd bounds
  | EvZoomEnd => callbackZoomEnd
  | EvInput id value => set_prop id "value" value
  | EvStopTextSearchSubmit => stopTextSearchSubmit
  | EvTripTextSearchSubmit => tripTextSearchSubmit
  | EvRouteClick routeId => selectRoute routeId
  | EvTripClick tripId => selectTrip tripId
  | EvMarkerClick marker => fetchStopInfoWindow marker
  | EvMarkerDragEnd marker position =>
      (* the library has moved the marker *)
      modify (update_marker marker (set_m_position position));;
      set_prop "edit" "style.visibility" "visible";;
      set_prop "edit_status" "innerHTML" "updating...";;
      changeStopLocation marker
  | EvSaveData => saveData
  | EvSetStartDate y m d => setStartDate y m d
  | EvXhrLoad i responseText status =>
      (* xhr.onload: readyState is 4 when the load event fires *)
      s ← get;
      set_request_status i Loaded;;
      match requests (net s) !! i with
      | Some x => run_callback (xhr_onload x) responseText status
      | None => mret tt
      end
  | EvXhrError i status =>
      (* xhr.onerror *)
      set_request_status i Failed;;
      console_log (" " +:+ pretty status)
  end.

(** One turn of the event loop: an exception ends the listener and leaves
    the state as it is at that point. *)
Definition step (s : State) (e : Event) : State :=
  if enabled e s then exec (handle e) s else s.

Definition run (events : list Event) (s : State) : State := fold_left step events s.

(** The states the client can be in. *)
Definition reachable (s : State) : Prop := exists events, s = run events init_state.
End Script.

End Client.

(** ** A concrete platform, for running the client on examples

    Identity encoders; a stop, a route or a trip per character of the
    answer; no stop times, a one-point shape and one row that repeats the
    answer. *)

Module Demo.

Import Js Client.

Definition stop_of_char (c : ascii) : StopRow :=
  {| sr_stopId := String c ""; sr_stopName := "Stop " +:+ String c "";
     sr_lat := "47.5"; sr_lon := "8.5"; sr_locationType := 0 |}.

Definition route_of_char (c : ascii) : RouteRow :=
  {| rr_routeId := String c ""; rr_shortName := String c ""; rr_routeName := "Route" |}.

Definition pattern_of_char (c : ascii) : Pattern :=
  {| pat_name := "Pattern"; pat_id := String c ""; pat_early := 0;
     pat_trips := [(3600%Z, String c "")]; pat_later := 0; pat_unusual := "0" |}.

Definition platform : Platform := {|
  encodeURIComponent := fun s => s;
  unescape := fun s => s;
  eval_stops := fun data => map stop_of_char (list_ascii_of_string data);
  eval_timeTrips := fun _ => [];
  eval_routes := fun data => map route_of_char (list_ascii_of_string data);
  eval_patterns := fun data => map pattern_of_char (list_ascii_of_string data);
  eval_stopTimes := fun _ => None;
  parse_polyData := fun _ =>
    Some {| poly_points := [{| lat := "47.5"; lng := "8.5" |}]; poly_color := None |};
  eval_rows := fun data => Some [("trips.txt", [("trip_id", data)])];
  ceil_log2 := fun _ => 0%nat;
  agent_is_msie := false;
  isSVGControlInstalled := false;
  layout_height := fun _ => "100px"
|}.

Definition config : Config :=
  {| cfg_forbid_editing := false;
     cfg_bounds := {| northEast := {| lat := "48"; lng := "9" |};
                      southWest := {| lat := "47"; lng := "8" |} |} |}.

End Demo.

(** * Notions used in the properties *)

Module ClientNotions.

Import Js Client.

(** ** A program logic for the computations of the script *)

(** [hoare P m Q E]: from a state in [P], [m] either returns [a] in a state
    in [Q a] or throws in a state in [E]. *)
Definition hoare {A : Type} (P : State -> Prop) (m : M A)
    (Q : A -> State -> Prop) (E : State -> Prop) : Prop :=
  forall s, P s ->
    match m s with
    | (Ret a, s') => Q a s'
    | (Throw _, s') => E s'
    end.

(** [keeps I E m]: [m] maintains [I] when it returns, and ends in [E] when
    it throws. With [E := I] this is an invariant of the event loop; with
    [E := fun _ => False], [m] in addition never throws. *)
Definition keeps {A : Type} (I E : State -> Prop) (m : M A) : Prop :=
  hoare I m (fun _ => I) E.

Definition never (s : State) : Prop := False.

(** ** What the claims speak of *)

(** The path of a URL: what comes before the query. *)
Fixpoint url_path (url : string) : string :=
  match url with
  | String c url' => if Ascii.eqb c "?" then "" else String c (url_path url')
  | EmptyString => ""
  end.

(** The nine endpoints the specification lists. *)
Definition spec_endpoints : list string :=
  ["/json/boundboxstops"; "/json/stopsearch"; "/json/routes"; "/json/routepatterns";
   "/json/tripstoptimes"; "/json/tripshape"; "/json/triprows"; "/json/setstoplocation";
   "/json/savedata"].

(** The endpoints the script requests: the nine, and [/json/stoptrips] of
    [fetchStopInfoWindow]. *)
Definition endpoints : list string := spec_endpoints ++ ["/json/stoptrips"].

(** A request as [downloadUrl] leaves it: a GET to one of the endpoints,
    asynchronous, with no timeout set, and not aborted. *)
Record good_request (x : Xhr) : Prop := {
  good_method : xhr_method x = "GET";
  good_path : url_path (xhr_url x) ∈ endpoints;
  good_async : xhr_async x = true;
  good_timeout : xhr_timeout x = 0%Z;
  good_status : xhr_status x <> Aborted
}.

(** The overlays on the map are the ones the script's variables record:
    the two marker maps share no stop id; each records, under a stop id, a
    marker of that stop; a marker on the map is recorded under its stop id;
    a polyline on the map is in [existingPolylines]. *)
Record Tracked (ms : list Marker) (ps : list Polyline) (sel bg : gmap string nat)
    (lines : list nat) : Prop := {
  tr_disjoint : forall id r, sel !! id = Some r -> bg !! id = None;
  tr_sel : forall id r, sel !! id = Some r ->
           exists m, ms !! r = Some m /\ m_stopId m = id;
  tr_bg : forall id r, bg !! id = Some r ->
          exists m, ms !! r = Some m /\ m_stopId m = id;
  tr_shown : forall r m, ms !! r = Some m -> m_map m = true ->
             sel !! m_stopId m = Some r \/ bg !! m_stopId m = Some r;
  tr_lines : forall r p, ps !! r = Some p -> pl_map p = true -> r ∈ lines
}.

(** The invariant of the event loop. *)
Record Inv (s : State) : Prop := {
  inv_tracked : Tracked (markers (mapst s)) (polylines (mapst s))
                  (stopMarkersSelected (vars s)) (stopMarkersBackground (vars s))
                  (existingPolylines (vars s));
  inv_requests : Forall good_request (requests (net s));
  inv_second : "second" ∉ globals (vars s);
  inv_div : "div" ∉ globals (vars s)
}.

(** Every URL the browser has fetched for an embedded object is one of the
    timetable graph. *)
Definition good_fetches (s : State) : Prop :=
  Forall (fun url => url_path url = "/ttablegraph") (fetched (net s)).

(** Whether the time input holds a seconds field, as [parseTimeInput]
    tests it ([m[4]]). *)
Definition time_has_seconds (s : State) : bool :=
  match Regex.search Regex.time_re (default "" (props (dom s) !! ("timeInput", "value"))) with
  | Some m => truthy (m !! 4)
  | None => false
  end.

(** The stop ids of an answer of the server. *)
Definition stop_ids (stops : list StopRow) : list string := sr_stopId <$> stops.

(** A marker, or a polyline, is on the map. *)
Definition marker_shown (s : State) (r : nat) : Prop :=
  exists m, markers (mapst s) !! r = Some m /\ m_map m = true.


(** No marker and no polyline is on the map. *)
Definition nothing_shown (s : State) : Prop :=
  (forall r m, markers (mapst s) !! r = Some m -> m_map m = false) /\
  (forall r p, polylines (mapst s) !! r = Some p -> pl_map p = false).

(** The markers, and the polylines, [rs] taken off the map. *)
Definition hide_markers (rs : list nat) (ms : list Marker) : list Marker :=
  foldl (fun l r => alter (set_m_map false) r l) ms rs.

Definition hide_polylines (rs : list nat) (ps : list Polyline) : list Polyline :=
  foldl (fun l r => alter (set_pl_map false) r l) ps rs.

(** The markers a dictionary of the script holds. *)
Definition refs (d : gmap string nat) : list nat := (map_to_list d).*2.

(** The state [clearMap] leaves: every recorded marker and polyline off the
    map, and the three variables empty. *)
Definition cleared (s : State) : State :=
  {| mapst :=
       set_polylines
         (hide_polylines (existingPolylines (vars s)) (polylines (mapst s)))
         (set_markers
            (hide_markers (refs (stopMarkersSelected (vars s))
                           ++ refs (stopMarkersBackground (vars s)))
               (markers (mapst s)))
            (mapst s));
     vars :=
       set_existingPolylines []
         (set_stopMarkersBackground ∅
            (set_stopMarkersSelected ∅ (set_boundsOfPolyLine None (vars s))));
     dom := dom s;
     net := net s |}.

(** The callbacks that test the response code first. *)
Definition guarded (cb : Callback) : bool :=
  match cb with
  | CbChangeStopLocation | CbSaveData | CbDisplayRoutes => false
  | _ => true
  end.

(** The marker [addStopMarker] makes, and the state once it is recorded. *)
Definition new_marker (s : State) (stopId stopName : string) (stopLat stopLon : Coord)
    (locationType : Z) (selected : bool) (text : option string) : Marker :=
  {| m_stopId := stopId; m_stopName := stopName;
     m_position := {| lat := stopLat; lng := stopLon |};
     m_icon := icon_value (if selected then iconSelected
                           else if (locationType =? 1)%Z then iconBackgroundStation
                           else iconBackground) s;
     m_draggable := negb (forbid_editing (vars s));
     m_label := if selected || truthy text
                then Some (if truthy text then default "" text else "") else None;
     m_map := map_loaded (mapst s) |}.

Definition record_marker (selected : bool) (m : Marker) (s : State) : State :=
  with_vars (fun v =>
    if selected
    then set_stopMarkersSelected
           (<[m_stopId m := length (markers (mapst s))]> (stopMarkersSelected v)) v
    else set_stopMarkersBackground
           (<[m_stopId m := length (markers (mapst s))]> (stopMarkersBackground v)) v)
    (with_mapst (fun ms => set_markers (markers ms ++ [m]) ms) s).

(** The background marker of a stop taken off the map and out of
    [stopMarkersBackground]. *)
Definition drop_background (stopId : string) (r : nat) (s : State) : State :=
  with_vars (fun v => set_stopMarkersBackground (delete stopId (stopMarkersBackground v)) v)
    (update_marker r (set_m_map false) s).

(** The operations claim C2 names. *)
Inductive Op :=
| OpAddStopMarker (stopId stopName : string) (stopLat stopLon : Coord)
    (locationType : Z) (selected : bool) (text : option string)
| OpAddStopMarkerFromList (list : StopRow) (selected : bool) (text : option string)
| OpCallbackDisplayStopsBackground (data : string) (responseCode : Z)
| OpClearMap.

Section Operations.

Context `{Platform}.

Definition run_op (s : State) (op : Op) : State :=
  match op with
  | OpAddStopMarker stopId stopName stopLat stopLon locationType selected text =>
      exec (addStopMarker stopId stopName stopLat stopLon locationType selected text) s
  | OpAddStopMarkerFromList list selected text =>
      exec (addStopMarkerFromList list selected text) s
  | OpCallbackDisplayStopsBackground data responseCode =>
      exec (callbackDisplayStopsBackground data responseCode) s
  | OpClearMap => exec clearMap s
  end.

End Operations.

(** The user actions claim C5 lists. *)
Definition user_action (e : Event) : bool :=
  match e with
  | EvStopTextSearchSubmit | EvRouteClick _ | EvTripClick _ | EvTripTextSearchSubmit
  | EvMarkerClick _ | EvMarkerDragEnd _ _ | EvMoveEnd _ => true
  | _ => false
  end.

Definition selects_trip (e : Event) : bool :=
  match e with
  | EvTripClick _ | EvTripTextSearchSubmit => true
  | _ => false
  end.

(** The actions whose URL includes [parseTimeInput()]. *)
Definition reads_time (e : Event) : bool :=
  match e with
  | EvRouteClick _ | EvMarkerClick _ => true
  | _ => false
  end.

(** The paths an action is to request, in order: the three of a trip
    selection, one for each of the other actions. *)
Definition action_paths (e : Event) : list string :=
  match e with
  | EvStopTextSearchSubmit => ["/json/stopsearch"]
  | EvRouteClick _ => ["/json/routepatterns"]
  | EvTripClick _ | EvTripTextSearchSubmit =>
      ["/json/tripstoptimes"; "/json/tripshape"; "/json/triprows"]
  | EvMarkerClick _ => ["/json/stoptrips"]
  | EvMarkerDragEnd _ _ => ["/json/setstoplocation"]
  | EvMoveEnd _ => ["/json/boundboxstops"]
  | _ => []
  end.

(** [m] returns and sends new requests, all GETs, to the paths [paths], in
    this order. *)
Definition sends (m : M unit) (s : State) (paths : list string) : Prop :=
  exists s' new, m s = (Ret tt, s') /\
                 requests (net s') = requests (net s) ++ new /\
                 url_path <$> (xhr_url <$> new) = paths /\
                 Forall (fun x => xhr_method x = "GET") new.

(** The route list holds an elem for the route: the click has a target. *)
Definition has_route (routeId : string) (l : list RouteContainer) : bool :=
  existsb (fun c => String.eqb (rc_routeId c) routeId) l.

(** The overlay objects and the variables that record them. *)
Definition overlays (s : State) :=
  (markers (mapst s), polylines (mapst s), stopMarkersSelected (vars s),
   stopMarkersBackground (vars s), existingPolylines (vars s)).

(** The overlays are [k], and the requests issued so far extend [R]. *)
Definition Framed (k : list Marker * list Polyline * gmap string nat * gmap string nat
                       * list nat) (R : list Xhr) (s : State) : Prop :=
  overlays s = k /\ R `prefix_of` requests (net s).



(** What the marker maps [sel] and [bg] and the polyline list [lines]
    recorded is still on record: a selected stop under its marker, a
    background stop under its marker (or, where [promote] allows it, as a
    selected stop), the polylines in their places in the list. *)
Definition on_record (promote : bool) (sel bg : gmap string nat) (lines : list nat)
    (s : State) : Prop :=
  (forall id r, sel !! id = Some r -> stopMarkersSelected (vars s) !! id = Some r) /\
  (forall id r, bg !! id = Some r ->
     stopMarkersBackground (vars s) !! id = Some r \/
     (promote = true /\ is_Some (stopMarkersSelected (vars s) !! id))) /\
  lines `prefix_of` existingPolylines (vars s).



(** The requests issued so far extend [R]. *)
Definition sent_before (R : list Xhr) (s : State) : Prop :=
  R `prefix_of` requests (net s).

(** The request marked as loaded, before its callback runs. *)
Definition loaded (i : nat) (s : State) : State :=
  with_net (fun n => set_requests (alter (set_xhr_status Loaded) i (requests n)) n) s.

(** ** Two concrete states, on the platform [Demo.platform] *)

(** The page loaded and the first answer arrived: the background markers of
    the stops "a" and "b" are on the map; the request for the routes is in
    flight. *)
Definition two_background_stops : State :=
  @run Demo.platform [EvLoad Demo.config; EvXhrLoad 0 "ab" 200] init_state.

(** Two stop searches in flight: "a" (request 2), then "b" (request 3). *)
Definition two_searches : State :=
  @run Demo.platform
      [EvLoad Demo.config;
       EvInput "stopTextSearchInput" "a"; EvStopTextSearchSubmit;
       EvInput "stopTextSearchInput" "b"; EvStopTextSearchSubmit] init_state.




End ClientNotions.

(** * Notions used in the further properties *)

Module BehaviourNotions.

Import Js Client ClientNotions.

(** ** Times and dates as texts *)

(** The integers [lo], [lo + 1], ..., [lo + n - 1]. *)
Definition zrange (lo : Z) (n : nat) : list Z := (fun i => (lo + Z.of_nat i)%Z) <$> seq 0 n.

(** The number of seconds [parseTimeInput] computes from a match. *)
Definition time_value (m : Regex.captures) : JsVal :=
  add (mul (parseInt10 (default "" (m !! 1))) 3600)
      (mul (parseInt10 (default "" (m !! 2))) 60).

(** Whether [text], as the value of the time input, is read as [n]
    seconds: it matches without a seconds field, and the hours and minutes
    add up to [n]. *)
Definition time_reads (text : string) (n : Z) : bool :=
  match Regex.search Regex.time_re text with
  | Some m =>
      negb (truthy (m !! 4)) &&
      match time_value m with
      | JNum k => (k =? n)%Z
      | _ => false
      end
  | None => false
  end.

(** What a group [[cs]?\d] of the time expression captures: a digit, or a
    character of [cs] and a digit. *)
Definition two_digits (cs : list ascii) (t : string) : Prop :=
  (exists d, t = String d "" /\ is_digit d = true) \/
  (exists a d, t = String a (String d "") /\
               existsb (Ascii.eqb a) cs = true /\ is_digit d = true).

(** A date written with four digits for the year and two for the month and
    for the day. *)
Definition date_text (y m d : Z) : string :=
  pretty y +:+ leadingZero m +:+ leadingZero d.

(** Whether [text] matches the date expression. *)
Definition date_matches (text : string) : bool :=
  match Regex.search Regex.date_re text with
  | Some _ => true
  | None => false
  end.

(** The years between 1900 and 2099 whose dates the date expression takes:
    the alternation [19|20\d\d] inside the first group reads a year of the
    twenty-first century in full, but of a year [19YY] only the [19]. *)
Definition year_accepted (y : Z) : bool :=
  ((2000 <=? y) || ((1901 <=? y) && (y <=? 1912)) || (y =? 1919))%Z.

(** ** Markers *)

(** The stop [id] is on record in the background with the marker [r];
    with [off], that marker is off the map. *)
Definition background_record (off : bool) (id : string) (r : nat) (s : State) : Prop :=
  stopMarkersBackground (vars s) !! id = Some r /\
  exists m, markers (mapst s) !! r = Some m /\ (off = true -> m_map m = false).

(** The names that every plain object of the browser inherits from
    [Object.prototype] (those of the language standard, and those the
    browsers of the script's time add). For such a name [obj[name]] is
    defined on every dictionary of the script, whether or not a stop of
    that id was recorded, and [addStopMarker] takes what it finds for the
    marker of the stop. The dictionaries of the embedding hold the recorded
    stops only: what is stated about the marker that a call makes or finds
    for a stop id is stated for the ids that are none of these names. *)
Definition object_prototype_members : list string :=
  ["constructor"; "toString"; "toLocaleString"; "valueOf"; "hasOwnProperty";
   "isPrototypeOf"; "propertyIsEnumerable"; "__proto__"; "__defineGetter__";
   "__defineSetter__"; "__lookupGetter__"; "__lookupSetter__"; "toSource";
   "watch"; "unwatch"; "__noSuchMethod__"; "__count__"; "__parent__"; "eval"].

Definition own_key (id : string) : Prop := id ∉ object_prototype_members.

(** The stop [id] is on record in neither marker map; the store holds at
    least [n] markers and the map is loaded or not as [loaded] says. *)
Definition stop_absent (id : string) (n : nat) (loaded : bool) (s : State) : Prop :=
  stopMarkersSelected (vars s) !! id = None /\
  stopMarkersBackground (vars s) !! id = None /\
  n <= length (markers (mapst s)) /\ map_loaded (mapst s) = loaded.

(** The stop [id] is on record in the background, with the marker [m] at
    [r]. *)
Definition stop_recorded (id : string) (r : nat) (m : Marker) (s : State) : Prop :=
  stopMarkersBackground (vars s) !! id = Some r /\ markers (mapst s) !! r = Some m.

Section Refreshes.

Context `{Platform}.

(** The background answers [answers] handled in turn, each with code 200. *)
Definition refresh_background (answers : list string) (s : State) : State :=
  fold_left (fun s data => exec (callbackDisplayStopsBackground data 200) s) answers s.

End Refreshes.

(** The bounds once [points] are added to them by [expandBoundingBox], one
    after the other. *)
Definition extended_bounds (bounds : option (list LatLng)) (points : list LatLng)
    : option (list LatLng) :=
  match points with
  | [] => bounds
  | _ => Some (default [] bounds ++ points)
  end.

(** ** The route list *)

(** The container [callbackDisplayRoutes] builds for a row of the answer. *)
Definition route_container (row : RouteRow) : RouteContainer :=
  {| rc_routeId := rr_routeId row;
     rc_shortName := rr_shortName row +:+ " ";
     rc_routeName := rr_routeName row;
     rc_elemClass := "routeChoice";
     rc_containerClass := "routeContainer";
     rc_elemTripInfos := [];
     rc_tripInfos := [] |}.

(** The number of divs of the route list (containers and elems) that carry
    the class of the selected route. *)
Definition highlighted (l : list RouteContainer) : nat :=
  sum_list_with (fun c =>
    Nat.b2n (String.eqb (rc_containerClass c) "routeChoiceSelected")
    + Nat.b2n (String.eqb (rc_elemClass c) "routeChoiceSelected")) l.

(** The text of one entry of [formatDictionary]. *)
Definition dictionary_entry (kv : string * string) : string :=
  "<b>" +:+ kv.1 +:+ "</b>=" +:+ kv.2.

(** ** Requests *)

(** What [parseTimeInput] and [parseDateInput] return for the inputs of a
    state, when they return. *)
Definition time_input (s : State) : JsVal :=
  match Regex.search Regex.time_re (default "" (props (dom s) !! ("timeInput", "value"))) with
  | Some m => time_value m
  | None => JStr ""
  end.

Definition date_input (s : State) : string :=
  let text := default "" (props (dom s) !! ("startDateInput", "value")) in
  if date_matches text then text else "".

(** The first trip of the first pattern of an answer, as
    [callbackDisplayPatterns] hands it to [selectTrip]: [null], rendered
    "null", when there is no first pattern or it has no trip. *)
Definition first_trip (patterns : list Pattern) : string :=
  match patterns with
  | pat :: _ => match pat_trips pat with trip :: _ => trip.2 | [] => "null" end
  | [] => "null"
  end.

(** Whether some pattern of the answer has a trip. *)
Definition some_trip (patterns : list Pattern) : bool :=
  existsb (fun pat => negb (length (pat_trips pat) =? 0)%nat) patterns.

Section Urls.

Context `{Platform}.

(** The request of [fetchStopInfoWindow] for a marker of the stop
    [stopId], with the inputs of the state [s]. *)
Definition stop_info_request (s : State) (stopId : string) (marker : nat) : Xhr :=
  {| xhr_method := "GET";
     xhr_url := "/json/stoptrips?stop=" +:+ encodeURIComponent stopId
                +:+ "&time=" +:+ to_string (time_input s) +:+ "&date=" +:+ date_input s;
     xhr_async := true; xhr_timeout := 0;
     xhr_onload := CbStopInfoWindow marker; xhr_status := Sent |}.

(** The URLs of the three requests of [selectTrip]. *)
Definition trip_urls (tripId : string) : list string :=
  ["/json/tripstoptimes?trip=" +:+ encodeURIComponent tripId;
   "/json/tripshape?trip=" +:+ encodeURIComponent tripId;
   "/json/triprows?trip=" +:+ encodeURIComponent tripId].

End Urls.

(** ** Labels and editing *)

(** A request that moves a stop: the one of [changeStopLocation]. *)
Definition moves_a_stop (x : Xhr) : Prop :=
  xhr_onload x = CbChangeStopLocation \/ url_path (xhr_url x) = "/json/setstoplocation".

(** A second invariant of the event loop: the marker of a selected stop
    exists and is a labelled marker; before [load] no marker is on the map;
    a marker on the map is draggable exactly when editing is allowed; no
    request has moved a stop while editing is forbidden or before [load];
    and the marker a request of [fetchStopInfoWindow] was made for
    exists. *)
Record MarkerInv (s : State) : Prop := {
  mi_selected : forall id r, stopMarkersSelected (vars s) !! id = Some r ->
                exists m, markers (mapst s) !! r = Some m /\ is_Some (m_label m);
  mi_unloaded : map_loaded (mapst s) = false ->
                forall r m, markers (mapst s) !! r = Some m -> m_map m = false;
  mi_draggable : forall r m, markers (mapst s) !! r = Some m -> m_map m = true ->
                 m_draggable m = negb (forbid_editing (vars s));
  mi_requests : forbid_editing (vars s) = true \/ map_loaded (mapst s) = false ->
                Forall (fun x => ~ moves_a_stop x) (requests (net s));
  mi_info : forall x r, x ∈ requests (net s) -> xhr_onload x = CbStopInfoWindow r ->
            r < length (markers (mapst s))
}.

(** The label of a marker once [text] is added to it: after the old label
    and a line break, or alone when the old label is empty. *)
Definition label_with (old text : string) : string :=
  (if truthy (Some old) then old +:+ "<br>" else old) +:+ text.

(** ** Concrete states, on the platform [Demo.platform] *)

(** The configuration of a page that forbids editing. *)
Definition read_only_config : Config :=
  {| cfg_forbid_editing := true; cfg_bounds := cfg_bounds Demo.config |}.

(** The page loaded and the routes "a" and "b" listed. *)
Definition routes_listed : State :=
  @run Demo.platform [EvLoad Demo.config; EvXhrLoad 1 "ab" 200] init_state.

(** The route "a" clicked: it is the selected route, and the request for
    its patterns is in flight. *)
Definition route_selected : State :=
  @run Demo.platform [EvLoad Demo.config; EvXhrLoad 1 "ab" 200; EvRouteClick "a"] init_state.

(** A stop search answered with the stops "a" and "b": both are selected. *)
Definition two_selected_stops : State :=
  @run Demo.platform
      [EvLoad Demo.config; EvInput "stopTextSearchInput" "ab"; EvStopTextSearchSubmit;
       EvXhrLoad 2 "ab" 200] init_state.

(** The stop "a" found by a search: its marker is selected and the
    request for its trips (request 3) is in flight; then a trip is
    selected, which takes the marker off the map. *)
Definition stop_info_pending : State :=
  @run Demo.platform
      [EvLoad Demo.config; EvInput "stopTextSearchInput" "a"; EvStopTextSearchSubmit;
       EvXhrLoad 2 "a" 200; EvTripClick "t"] init_state.

End BehaviourNotions.

(** * Properties of the labeled marker *)

Module LabeledMarkerFacts.

Import LabeledMarker.

Lemma or_bool_true (a : option bool) : or_bool a true = true.
Proof. destruct a as [[]|]; reflexivity. Qed.

Lemma initialize_listeners (m : t) :
  listeners <$> div_ (initialize m) = Some (if clickable_ m then eventPassthrus else []).
Proof. unfold initialize. destruct (clickable_ m); reflexivity. Qed.

(** With [clickable: false] passed, the marker is clickable all the same. *)
Example clickable_false_ignored :
  clickable_ <$> LabeledMarker {| lat := "0"; lng := "0" |}
    (Some {| labelText := Some "A"; labelClass := None; labelOffset := None;
             clickable := Some false; draggable := Some true |}) = Some true.
Proof. reflexivity. Qed.

(** C10. Every [LabeledMarker] is constructed with [clickable_] equal to
    [true], whatever the options ([clickable: false] included), so
    [initialize] installs a pass-through listener on the label for each of
    the six events click, dblclick, mousedown, mouseup, mouseover and
    mouseout, in this order; the constructor writes [false] over a
    [draggable] that is [true] and leaves any other as it is, so neither the
    options object it keeps nor the options [GMarker] receives (the same
    object) has [draggable: true]: no marker is draggable. The options are
    those of the types [GMarkerOptions] documents. Without an options object
    nothing is constructed. *)
Theorem LabeledMarker_clickable_never_draggable (latlng : GLatLng) :
  LabeledMarker latlng None = None /\
  forall opt_opts, exists m,
    LabeledMarker latlng (Some opt_opts) = Some m /\
    clickable_ m = true /\
    clickable_ (initialize m) = true /\
    listeners <$> div_ (initialize m) =
      Some ["click"; "dblclick"; "mousedown"; "mouseup"; "mouseover"; "mouseout"] /\
    draggable (gmarker_opts m) =
      match draggable opt_opts with
      | Some true => Some false
      | Some false => Some false
      | None => None
      end /\
    draggable (gmarker_opts m) <> Some true /\
    draggable (opts_ m) <> Some true /\
    draggable (gmarker_opts (initialize m)) <> Some true /\
    opts_ m = gmarker_opts m.
Proof.
  split; [reflexivity|]. intros o. eexists. split; [reflexivity|]. simpl.
  split; [apply or_bool_true|]. split; [apply or_bool_true|]. split.
  - unfold initialize; simpl. rewrite or_bool_true. reflexivity.
  - destruct o as [? ? ? ? [[]|]]; simpl; repeat split; congruence.
Qed.

End LabeledMarkerFacts.


(** * Properties of the client *)

Module ClientFacts.

Import Js Client ClientNotions.

(** ** Rules of the program logic *)

Lemma hoare_ret {A} (P : State -> Prop) (a : A) Q E :
  (forall s, P s -> Q a s) -> hoare P (mret a) Q E.
Proof. intros HQ s Hs. exact (HQ s Hs). Qed.

Lemma hoare_bind {A B} (P : State -> Prop) (m : M A) (f : A -> M B) R Q E :
  hoare P m R E -> (forall a, hoare (R a) (f a) Q E) -> hoare P (m ≫= f) Q E.
Proof.
  intros Hm Hf s Hs. specialize (Hm s Hs).
  unfold mbind, M_bind, bind. destruct (m s) as [[a|e] s']; [|exact Hm].
  exact (Hf a s' Hm).
Qed.

Lemma hoare_get_bind {B} (P : State -> Prop) (k : State -> M B) Q E :
  (forall s0, P s0 -> hoare (fun s => s = s0) (k s0) Q E) -> hoare P (get ≫= k) Q E.
Proof. intros Hk s Hs. exact (Hk s Hs s eq_refl). Qed.

Lemma hoare_modify (P : State -> Prop) (f : State -> State) Q E :
  (forall s, P s -> Q tt (f s)) -> hoare P (modify f) Q E.
Proof. intros HQ s Hs. exact (HQ s Hs). Qed.

Lemma hoare_throw {A} (P : State -> Prop) e (Q : A -> State -> Prop) (E : State -> Prop) :
  (forall s, P s -> E s) -> hoare P (throw e) Q E.
Proof. intros HE s Hs. exact (HE s Hs). Qed.

Lemma hoare_conseq {A} (P P' : State -> Prop) (m : M A) (Q Q' : A -> State -> Prop)
    (E E' : State -> Prop) :
  hoare P' m Q' E' ->
  (forall s, P s -> P' s) -> (forall a s, Q' a s -> Q a s) -> (forall s, E' s -> E s) ->
  hoare P m Q E.
Proof.
  intros Hm HP HQ HE s Hs. specialize (Hm s (HP s Hs)).
  destruct (m s) as [[a|e] s']; auto.
Qed.

Lemma hoare_pre {A} (P P' : State -> Prop) (m : M A) Q E :
  hoare P' m Q E -> (forall s, P s -> P' s) -> hoare P m Q E.
Proof. intros Hm HP. eapply hoare_conseq; eauto. Qed.

Lemma hoare_exec {A} (P : State -> Prop) (m : M A) Q (E : State -> Prop) s :
  hoare P m Q E -> P s -> (forall a s', Q a s' -> E s') -> E (exec m s).
Proof.
  intros Hm Hs HQE. specialize (Hm s Hs). unfold exec.
  destruct (m s) as [[a|e] s']; simpl; eauto.
Qed.

(** *** Rules for [keeps] *)

Section Keeps.

Variables I E : State -> Prop.

Lemma keeps_ret {A} (a : A) : keeps I E (mret a).
Proof. apply hoare_ret. auto. Qed.

Lemma keeps_bind {A B} (m : M A) (f : A -> M B) :
  keeps I E m -> (forall a, keeps I E (f a)) -> keeps I E (m ≫= f).
Proof. intros Hm Hf. eapply hoare_bind; [exact Hm|exact Hf]. Qed.

Lemma keeps_get_bind {B} (k : State -> M B) :
  (forall s0, I s0 -> keeps I E (k s0)) -> keeps I E (get ≫= k).
Proof. intros Hk s Hs. exact (Hk s Hs s Hs). Qed.

Lemma keeps_modify (f : State -> State) :
  (forall s, I s -> I (f s)) -> keeps I E (modify f).
Proof. intros Hf. apply hoare_modify. exact Hf. Qed.

Lemma keeps_throw {A} e : (forall s, I s -> E s) -> keeps I E (throw (A:=A) e).
Proof. intros HE. apply hoare_throw. exact HE. Qed.

Lemma keeps_for_each {A} (f : A -> M unit) (l : list A) :
  (forall x, x ∈ l -> keeps I E (f x)) -> keeps I E (for_each f l).
Proof.
  induction l as [|x l IH]; intros Hf; simpl.
  - apply keeps_ret.
  - apply keeps_bind.
    + apply Hf. left.
    + intros _. apply IH. intros y Hy. apply Hf. right. exact Hy.
Qed.

Lemma keeps_exec {A} (m : M A) s :
  keeps I E m -> (forall s, I s -> E s) -> I s -> E (exec m s).
Proof. intros Hm HIE Hs. eapply hoare_exec; eauto. Qed.

End Keeps.

(** An invariant of a computation, whether it returns or throws. *)
Abbreviation preserves I m := (keeps I I m).

Lemma preserves_exec {A} (I : State -> Prop) (m : M A) s :
  preserves I m -> I s -> I (exec m s).
Proof. intros Hm Hs. apply (keeps_exec I I m s Hm); auto. Qed.

(** [keeps] with a stronger exceptional condition. *)
Lemma keeps_weaken {A} (I E E' : State -> Prop) (m : M A) :
  keeps I E m -> (forall s, E s -> E' s) -> keeps I E' m.
Proof. intros Hm HE. eapply hoare_conseq; eauto. Qed.

Lemma keeps_never {A} (I E : State -> Prop) (m : M A) : keeps I never m -> keeps I E m.
Proof. intros Hm. eapply keeps_weaken; [exact Hm|]. intros s []. Qed.

(** Structural steps of a proof that a computation keeps an invariant; what
    is left are the primitive operations and the case analyses on data. *)
Ltac keeps_step :=
  lazymatch goal with
  | |- keeps _ _ (mret _) => apply keeps_ret
  | |- keeps _ _ (get ≫= _) => apply keeps_get_bind; intros ? ?
  | |- keeps _ _ (_ ≫= _) => apply keeps_bind; [|intros ?]
  | |- keeps _ _ (for_each _ _) => apply keeps_for_each; intros ? ?
  | |- keeps _ _ (if ?b then _ else _) => destruct b eqn:?
  | |- keeps _ _ (match ?x with _ => _ end) => destruct x eqn:?
  | |- keeps _ _ (let _ := _ in _) => cbv zeta
  end.


(** ** Facts *)

Section Facts.

Context `{Platform}.

Lemma Inv_init : Inv init_state.
Proof.
  split; simpl.
  - split; intros *; try rewrite lookup_empty; try rewrite lookup_nil; discriminate.
  - constructor.
  - set_solver.
  - set_solver.
Qed.

(** *** The primitive operations keep the invariant *)

(** A state change that touches none of the fields the invariant reads. *)
Ltac frame := apply keeps_modify; let s := fresh in let Hs := fresh in
  intros s Hs; destruct Hs; constructor; assumption.

Lemma Inv_set_prop id prop value : preserves Inv (set_prop id prop value).
Proof. frame. Qed.

Lemma Inv_get_prop id prop : preserves Inv (get_prop id prop).
Proof. unfold get_prop. keeps_step. keeps_step. Qed.

Lemma Inv_set_route_list l : preserves Inv (set_route_list l).
Proof. frame. Qed.

Lemma Inv_console_log line : preserves Inv (console_log line).
Proof. frame. Qed.

Lemma Inv_assign_global name :
  name <> "second" -> name <> "div" -> preserves Inv (assign_global name).
Proof.
  intros H1 H2. apply keeps_modify. intros s [? ? ? ?].
  constructor; simpl; try assumption.
  - apply not_elem_of_union. split; [|assumption]. rewrite elem_of_singleton. congruence.
  - apply not_elem_of_union. split; [|assumption]. rewrite elem_of_singleton. congruence.
Qed.

Lemma Inv_read_global name : preserves Inv (read_global name).
Proof.
  unfold read_global. keeps_step. keeps_step; [keeps_step|]. apply keeps_throw. auto.
Qed.

Lemma good_request_new url callback :
  url_path url ∈ endpoints ->
  good_request {| xhr_method := "GET"; xhr_url := url; xhr_async := true;
                  xhr_timeout := 0; xhr_onload := callback; xhr_status := Sent |}.
Proof. intros Hp. split; simpl; auto. Qed.

Lemma Inv_downloadUrl url callback :
  url_path url ∈ endpoints -> preserves Inv (downloadUrl url callback).
Proof.
  intros Hp. unfold downloadUrl. apply keeps_bind; [simpl; apply keeps_ret|].
  intros _. apply keeps_modify. intros s [? ? ? ?].
  constructor; simpl; try assumption.
  apply Forall_app. split; [assumption|].
  constructor; [|constructor]. apply good_request_new. exact Hp.
Qed.

Lemma Inv_set_request_status i x : x <> Aborted -> preserves Inv (set_request_status i x).
Proof.
  intros Hx. apply keeps_modify. intros s [? Hr ? ?].
  constructor; simpl; try assumption.
  apply Forall_alter; [assumption|].
  intros r _ [? ? ? ? ?]. split; simpl; auto.
Qed.

(** *** Tracked overlays: list and map lemmas *)

Lemma elem_of_refs (d : gmap string nat) r : r ∈ refs d <-> exists id, d !! id = Some r.
Proof.
  unfold refs. rewrite list_elem_of_fmap. split.
  - intros [[id r'] [-> Hin]]. exists id. apply elem_of_map_to_list. exact Hin.
  - intros [id Hid]. exists (id, r). split; [reflexivity|].
    apply elem_of_map_to_list. exact Hid.
Qed.

Lemma lookup_hide_markers rs ms r :
  hide_markers rs ms !! r =
  (fun m => if bool_decide (r ∈ rs) then set_m_map false m else m) <$> ms !! r.
Proof.
  revert ms. induction rs as [|r0 rs IH]; intros ms; simpl.
  - destruct (ms !! r); reflexivity.
  - unfold hide_markers in *. simpl. rewrite IH.
    destruct (decide (r0 = r)) as [->|Hne].
    + rewrite list_lookup_alter_eq. destruct (ms !! r) as [m|]; simpl; [|reflexivity].
      rewrite (bool_decide_eq_true_2 (r ∈ r :: rs)) by left.
      destruct (bool_decide (r ∈ rs)); destruct m; reflexivity.
    + rewrite list_lookup_alter_ne by exact Hne.
      destruct (ms !! r) as [m|]; simpl; [|reflexivity].
      destruct (decide (r ∈ rs)) as [Hin|Hnin].
      * rewrite !bool_decide_eq_true_2; [reflexivity|right; exact Hin|exact Hin].
      * rewrite !bool_decide_eq_false_2; [reflexivity| |exact Hnin].
        intros Hin. apply elem_of_cons in Hin as [->|Hin]; [congruence|contradiction].
Qed.

Lemma lookup_hide_polylines rs ps r :
  hide_polylines rs ps !! r =
  (fun p => if bool_decide (r ∈ rs) then set_pl_map false p else p) <$> ps !! r.
Proof.
  revert ps. induction rs as [|r0 rs IH]; intros ps; simpl.
  - destruct (ps !! r); reflexivity.
  - unfold hide_polylines in *. simpl. rewrite IH.
    destruct (decide (r0 = r)) as [->|Hne].
    + rewrite list_lookup_alter_eq. destruct (ps !! r) as [p|]; simpl; [|reflexivity].
      rewrite (bool_decide_eq_true_2 (r ∈ r :: rs)) by left.
      destruct (bool_decide (r ∈ rs)); destruct p; reflexivity.
    + rewrite list_lookup_alter_ne by exact Hne.
      destruct (ps !! r) as [p|]; simpl; [|reflexivity].
      destruct (decide (r ∈ rs)) as [Hin|Hnin].
      * rewrite !bool_decide_eq_true_2; [reflexivity|right; exact Hin|exact Hin].
      * rewrite !bool_decide_eq_false_2; [reflexivity| |exact Hnin].
        intros Hin. apply elem_of_cons in Hin as [->|Hin]; [congruence|contradiction].
Qed.

Section TrackedLemmas.

Variables (ms : list Marker) (ps : list Polyline) (sel bg : gmap string nat)
          (lines : list nat).
Hypothesis HT : Tracked ms ps sel bg lines.

(** Changing a marker without changing its stop or putting it on the map. *)
Lemma Tracked_alter_marker (f : Marker -> Marker) r :
  (forall m, m_stopId (f m) = m_stopId m) ->
  (forall m, m_map (f m) = true -> m_map m = true) ->
  Tracked (alter f r ms) ps sel bg lines.
Proof.
  intros Hid Hmap. destruct HT as [Hd Hs Hb Hsh Hl]. split; auto.
  - intros id r' Hr'. destruct (Hs id r' Hr') as (m & Hm & Hmid).
    destruct (decide (r = r')) as [->|Hne].
    + exists (f m). rewrite list_lookup_alter_eq, Hm. split; [reflexivity|].
      rewrite Hid. exact Hmid.
    + exists m. rewrite list_lookup_alter_ne by exact Hne. auto.
  - intros id r' Hr'. destruct (Hb id r' Hr') as (m & Hm & Hmid).
    destruct (decide (r = r')) as [->|Hne].
    + exists (f m). rewrite list_lookup_alter_eq, Hm. split; [reflexivity|].
      rewrite Hid. exact Hmid.
    + exists m. rewrite list_lookup_alter_ne by exact Hne. auto.
  - intros r' m' Hm' Hshown. destruct (decide (r = r')) as [->|Hne].
    + rewrite list_lookup_alter_eq in Hm'. destruct (ms !! r') as [m|] eqn:Hm; [|discriminate].
      simpl in Hm'. injection Hm' as <-. rewrite Hid. apply Hsh; auto.
    + rewrite list_lookup_alter_ne in Hm' by exact Hne. apply Hsh; auto.
Qed.

Lemma Tracked_alter_polyline (f : Polyline -> Polyline) r :
  (forall p, pl_map (f p) = true -> pl_map p = true) ->
  Tracked ms (alter f r ps) sel bg lines.
Proof.
  intros Hmap. destruct HT as [Hd Hs Hb Hsh Hl]. split; auto.
  intros r' p' Hp' Hshown. destruct (decide (r = r')) as [->|Hne].
  - rewrite list_lookup_alter_eq in Hp'. destruct (ps !! r') as [p|] eqn:Hp; [|discriminate].
    simpl in Hp'. injection Hp' as <-. eapply Hl; eauto.
  - rewrite list_lookup_alter_ne in Hp' by exact Hne. eapply Hl; eauto.
Qed.

(** A new marker, recorded as selected, for a stop in neither map. *)
Lemma Tracked_new_selected m :
  sel !! m_stopId m = None -> bg !! m_stopId m = None ->
  Tracked (ms ++ [m]) ps (<[m_stopId m := length ms]> sel) bg lines.
Proof.
  intros Hsel Hbg. destruct HT as [Hd Hs Hb Hsh Hl]. split; auto.
  - intros id r. rewrite lookup_insert. case_decide as Hid.
    + intros _. subst id. exact Hbg.
    + apply Hd.
  - intros id r. rewrite lookup_insert. case_decide as Hid.
    + intros [= <-]. subst id. exists m. split; [|reflexivity].
      rewrite lookup_app_r by lia. rewrite Nat.sub_diag. reflexivity.
    + intros Hr. destruct (Hs id r Hr) as (m' & Hm' & Hmid). exists m'.
      split; [|exact Hmid]. rewrite lookup_app_l; [exact Hm'|].
      eapply lookup_lt_Some. exact Hm'.
  - intros id r Hr. destruct (Hb id r Hr) as (m' & Hm' & Hmid). exists m'.
    split; [|exact Hmid]. rewrite lookup_app_l; [exact Hm'|].
    eapply lookup_lt_Some. exact Hm'.
  - intros r m' Hm' Hshown.
    destruct (decide (r < length ms)) as [Hlt|Hge].
    + rewrite lookup_app_l in Hm' by exact Hlt.
      destruct (Hsh r m' Hm' Hshown) as [Hr|Hr]; [|right; exact Hr].
      left. rewrite lookup_insert_ne; [exact Hr|]. congruence.
    + rewrite lookup_app_r in Hm' by lia.
      destruct (r - length ms) as [|k] eqn:Hk; [|destruct k; discriminate].
      injection Hm' as <-. left. rewrite lookup_insert_eq. f_equal. lia.
Qed.

(** A new marker, recorded in the background. *)
Lemma Tracked_new_background m :
  sel !! m_stopId m = None -> bg !! m_stopId m = None ->
  Tracked (ms ++ [m]) ps sel (<[m_stopId m := length ms]> bg) lines.
Proof.
  intros Hsel Hbg. destruct HT as [Hd Hs Hb Hsh Hl]. split; auto.
  - intros id r Hr. rewrite lookup_insert. case_decide as Hid.
    + subst id. congruence.
    + eapply Hd. exact Hr.
  - intros id r Hr. destruct (Hs id r Hr) as (m' & Hm' & Hmid). exists m'.
    split; [|exact Hmid]. rewrite lookup_app_l; [exact Hm'|].
    eapply lookup_lt_Some. exact Hm'.
  - intros id r. rewrite lookup_insert. case_decide as Hid.
    + intros [= <-]. subst id. exists m. split; [|reflexivity].
      rewrite lookup_app_r by lia. rewrite Nat.sub_diag. reflexivity.
    + intros Hr. destruct (Hb id r Hr) as (m' & Hm' & Hmid). exists m'.
      split; [|exact Hmid]. rewrite lookup_app_l; [exact Hm'|].
      eapply lookup_lt_Some. exact Hm'.
  - intros r m' Hm' Hshown.
    destruct (decide (r < length ms)) as [Hlt|Hge].
    + rewrite lookup_app_l in Hm' by exact Hlt.
      destruct (Hsh r m' Hm' Hshown) as [Hr|Hr]; [left; exact Hr|].
      right. rewrite lookup_insert_ne; [exact Hr|]. congruence.
    + rewrite lookup_app_r in Hm' by lia.
      destruct (r - length ms) as [|k] eqn:Hk; [|destruct k; discriminate].
      injection Hm' as <-. right. rewrite lookup_insert_eq. f_equal. lia.
Qed.

(** A background marker taken off the map and out of the background map. *)
Lemma Tracked_drop_background id r :
  bg !! id = Some r ->
  Tracked (alter (set_m_map false) r ms) ps sel (delete id bg) lines.
Proof.
  intros Hr. destruct HT as [Hd Hs Hb Hsh Hl]. split; auto.
  - intros id' r' Hr'. rewrite lookup_delete. case_decide; [reflexivity|]. eapply Hd; eauto.
  - intros id' r' Hr'. destruct (Hs id' r' Hr') as (m & Hm & Hmid).
    destruct (decide (r = r')) as [->|Hne].
    + exists (set_m_map false m). rewrite list_lookup_alter_eq, Hm. split; [reflexivity|].
      exact Hmid.
    + exists m. rewrite list_lookup_alter_ne by exact Hne. auto.
  - intros id' r'. rewrite lookup_delete. case_decide; [discriminate|]. intros Hr'.
    destruct (Hb id' r' Hr') as (m & Hm & Hmid).
    destruct (decide (r = r')) as [->|Hne].
    + exists (set_m_map false m). rewrite list_lookup_alter_eq, Hm. split; [reflexivity|].
      exact Hmid.
    + exists m. rewrite list_lookup_alter_ne by exact Hne. auto.
  - intros r' m' Hm' Hshown. destruct (decide (r = r')) as [->|Hne].
    + rewrite list_lookup_alter_eq in Hm'. destruct (ms !! r'); [|discriminate].
      simpl in Hm'. injection Hm' as <-. discriminate.
    + rewrite list_lookup_alter_ne in Hm' by exact Hne.
      destruct (Hsh r' m' Hm' Hshown) as [Hr'|Hr']; [left; exact Hr'|].
      right. rewrite lookup_delete_ne; [exact Hr'|].
      intros Heq. rewrite <- Heq in Hr'. congruence.
Qed.

(** A new polyline: off the map, or on it and pushed on the list. *)
Lemma Tracked_new_polyline p :
  Tracked ms (ps ++ [p]) sel bg (lines ++ [length ps]).
Proof.
  destruct HT as [Hd Hs Hb Hsh Hl]. split; auto.
  intros r p' Hp' Hshown. apply elem_of_app.
  destruct (decide (r < length ps)) as [Hlt|Hge].
  - rewrite lookup_app_l in Hp' by exact Hlt. left. eapply Hl; eauto.
  - rewrite lookup_app_r in Hp' by lia.
    destruct (r - length ps) as [|k] eqn:Hk; [|destruct k; discriminate].
    right. apply list_elem_of_singleton. lia.
Qed.

Lemma Tracked_new_polyline_off p :
  pl_map p = false -> Tracked ms (ps ++ [p]) sel bg lines.
Proof.
  intros Hoff. destruct HT as [Hd Hs Hb Hsh Hl]. split; auto.
  intros r p' Hp' Hshown.
  destruct (decide (r < length ps)) as [Hlt|Hge].
  - rewrite lookup_app_l in Hp' by exact Hlt. eapply Hl; eauto.
  - rewrite lookup_app_r in Hp' by lia.
    destruct (r - length ps) as [|k] eqn:Hk; [|destruct k; discriminate].
    injection Hp' as <-. congruence.
Qed.

(** Every recorded overlay taken off the map: nothing is left on it. *)
Lemma hidden_markers r m :
  hide_markers (refs sel ++ refs bg) ms !! r = Some m -> m_map m = false.
Proof.
  rewrite lookup_hide_markers. destruct (ms !! r) as [m0|] eqn:Hm0; [|discriminate].
  simpl. intros [= <-]. case_bool_decide as Hin; [reflexivity|].
  destruct (m_map m0) eqn:Hshown; [|reflexivity]. exfalso. apply Hin.
  apply elem_of_app.
  destruct (tr_shown _ _ _ _ _ HT r m0 Hm0 Hshown) as [Hr|Hr];
    [left|right]; apply elem_of_refs; eauto.
Qed.

Lemma hidden_polylines r p :
  hide_polylines lines ps !! r = Some p -> pl_map p = false.
Proof.
  rewrite lookup_hide_polylines. destruct (ps !! r) as [p0|] eqn:Hp0; [|discriminate].
  simpl. intros [= <-]. case_bool_decide as Hin; [reflexivity|].
  destruct (pl_map p0) eqn:Hshown; [|reflexivity]. exfalso. apply Hin.
  eapply tr_lines; eauto.
Qed.

Lemma Tracked_cleared :
  Tracked (hide_markers (refs sel ++ refs bg) ms) (hide_polylines lines ps) ∅ ∅ [].
Proof.
  split.
  - intros id r. rewrite lookup_empty. discriminate.
  - intros id r. rewrite lookup_empty. discriminate.
  - intros id r. rewrite lookup_empty. discriminate.
  - intros r m Hm Hshown. apply hidden_markers in Hm. congruence.
  - intros r p Hp Hshown. apply hidden_polylines in Hp. congruence.
Qed.

End TrackedLemmas.

(** *** Marker and polyline operations *)

Lemma Inv_update_marker r (f : Marker -> Marker) :
  (forall m, m_stopId (f m) = m_stopId m) ->
  (forall m, m_map (f m) = true -> m_map m = true) ->
  preserves Inv (modify (update_marker r f)).
Proof.
  intros Hid Hmap. apply keeps_modify. intros s [HT ? ? ?].
  constructor; simpl; try assumption. apply Tracked_alter_marker; auto.
Qed.

Lemma Inv_marker_setMap_null r : preserves Inv (marker_setMap_null r).
Proof. apply Inv_update_marker; intros m; simpl; [reflexivity|discriminate]. Qed.

Lemma Inv_polyline_setMap_null r : preserves Inv (polyline_setMap_null r).
Proof.
  apply keeps_modify. intros s [HT ? ? ?].
  constructor; simpl; try assumption. apply Tracked_alter_polyline; auto.
  intros p; simpl; discriminate.
Qed.

Lemma Inv_get_marker r : preserves Inv (get_marker r).
Proof.
  unfold get_marker. keeps_step. keeps_step; [keeps_step|]. apply keeps_throw; auto.
Qed.

Lemma Inv_marker_getText r : preserves Inv (marker_getText r).
Proof.
  unfold marker_getText. keeps_step; [apply Inv_get_marker|].
  keeps_step; [keeps_step|]. apply keeps_throw; auto.
Qed.

Lemma Inv_marker_setText r t : preserves Inv (marker_setText r t).
Proof.
  unfold marker_setText. keeps_step; [apply Inv_get_marker|].
  keeps_step; [|apply keeps_throw; auto].
  apply Inv_update_marker; intros m; simpl; auto.
Qed.

Lemma Inv_map_fitBounds b : preserves Inv (map_fitBounds b).
Proof.
  unfold map_fitBounds. keeps_step. keeps_step; [|apply keeps_throw; auto].
  apply keeps_modify. intros s [? ? ? ?]. constructor; assumption.
Qed.

Lemma Inv_expandBoundingBox latLng : preserves Inv (expandBoundingBox latLng).
Proof.
  apply keeps_modify. intros s [? ? ? ?].
  destruct (boundsOfPolyLine (vars s)) eqn:Hb; constructor; simpl; try rewrite Hb; assumption.
Qed.

(** *** [clearMap] *)

Lemma for_each_marker_setMap_null rs s :
  for_each marker_setMap_null rs s =
  (Ret tt, with_mapst (fun m => set_markers (hide_markers rs (markers m)) m) s).
Proof.
  revert s. induction rs as [|r rs IH]; intros s; simpl.
  - unfold mret, M_ret, ret. f_equal. destruct s as [[] ? ? ?]. reflexivity.
  - unfold mbind, M_bind, bind. simpl. rewrite IH. reflexivity.
Qed.

Lemma for_each_polyline_setMap_null rs s :
  for_each polyline_setMap_null rs s =
  (Ret tt, with_mapst (fun m => set_polylines (hide_polylines rs (polylines m)) m) s).
Proof.
  revert s. induction rs as [|r rs IH]; intros s; simpl.
  - unfold mret, M_ret, ret. f_equal. destruct s as [[] ? ? ?]. reflexivity.
  - unfold mbind, M_bind, bind. simpl. rewrite IH. reflexivity.
Qed.

Lemma clearMap_spec s : clearMap s = (Ret tt, cleared s).
Proof.
  unfold clearMap, mbind, M_bind, bind, modify, get. simpl.
  rewrite !for_each_marker_setMap_null. simpl.
  rewrite for_each_polyline_setMap_null. simpl.
  unfold cleared, hide_markers. rewrite foldl_app. reflexivity.
Qed.

Lemma Inv_cleared s : Inv s -> Inv (cleared s).
Proof.
  intros [HT ? ? ?]. constructor; simpl; try assumption.
  apply Tracked_cleared. exact HT.
Qed.

Lemma Inv_clearMap : preserves Inv clearMap.
Proof. intros s Hs. rewrite clearMap_spec. apply Inv_cleared. exact Hs. Qed.

(** Nothing that was recorded is left on the map. *)
Lemma cleared_marker_hidden s r m :
  Inv s -> markers (mapst (cleared s)) !! r = Some m -> m_map m = false.
Proof. intros [HT _ _ _]. simpl. intros Hm. eapply hidden_markers; [exact HT|exact Hm]. Qed.

Lemma cleared_polyline_hidden s r p :
  Inv s -> polylines (mapst (cleared s)) !! r = Some p -> pl_map p = false.
Proof. intros [HT _ _ _]. simpl. intros Hp. eapply hidden_polylines; [exact HT|exact Hp]. Qed.

(** *** [addStopMarker] *)

Ltac as_keeps :=
  lazymatch goal with
  | |- hoare ?I ?m (fun _ => ?I) ?E => change (keeps I E m)
  end.

Ltac run_monad :=
  unfold mbind, M_bind, bind, marker_setMap_null, modify, get, mret, M_ret, ret; simpl.

Lemma Inv_addStopMarker stopId stopName stopLat stopLon locationType selected text :
  preserves Inv (addStopMarker stopId stopName stopLat stopLon locationType selected text).
Proof.
  unfold addStopMarker. apply hoare_get_bind. intros s0 Hs0.
  destruct (stopMarkersSelected (vars s0) !! stopId) as [marker|] eqn:Hsel.
  - eapply hoare_pre with (P' := Inv); [|intros s ->; exact Hs0]. as_keeps.
    keeps_step; [|keeps_step]. keeps_step; [|keeps_step].
    keeps_step; [apply Inv_marker_getText|].
    keeps_step; [apply Inv_assign_global; discriminate|].
    apply Inv_marker_setText.
  - cbv zeta. destruct Hs0 as [HT ? ? ?].
    destruct (stopMarkersBackground (vars s0) !! stopId) as [marker|] eqn:Hbg.
    + destruct selected.
      * intros s ->. run_monad. constructor; simpl; try assumption.
        pose proof (Tracked_drop_background _ _ _ _ _ HT stopId marker Hbg) as HT'.
        refine (Tracked_new_selected _ _ _ _ _ HT' (Build_Marker stopId _ _ _ _ _ _) _ _);
          simpl; [exact Hsel|apply lookup_delete_eq].
      * intros s ->. run_monad. constructor; assumption.
    + destruct selected; intros s ->; run_monad; constructor; simpl; try assumption.
      * refine (Tracked_new_selected _ _ _ _ _ HT (Build_Marker stopId _ _ _ _ _ _) _ _);
          simpl; assumption.
      * refine (Tracked_new_background _ _ _ _ _ HT (Build_Marker stopId _ _ _ _ _ _) _ _);
          simpl; assumption.
Qed.

(** *** [displayPolyLine] *)

Lemma Inv_displayPolyLine polyData : preserves Inv (displayPolyLine polyData).
Proof.
  unfold displayPolyLine. cbv zeta.
  keeps_step; [apply Inv_assign_global; discriminate|].
  keeps_step; [keeps_step; apply Inv_expandBoundingBox|].
  apply hoare_get_bind. intros s0 [HT ? ? ?]. intros s ->. run_monad.
  unfold map_fitBounds. run_monad.
  destruct (map_loaded (mapst s0)) eqn:Hloaded; simpl.
  - constructor; simpl; try assumption. apply Tracked_new_polyline. exact HT.
  - constructor; simpl; try assumption. apply Tracked_new_polyline_off; auto.
Qed.

(** *** Every function of the script keeps the invariant *)

Lemma endpoint_decided (p : string) : bool_decide (p ∈ endpoints) = true -> p ∈ endpoints.
Proof. apply bool_decide_eq_true_1. Qed.

Create HintDb inv discriminated.

#[local] Hint Resolve Inv_set_prop Inv_get_prop Inv_set_route_list Inv_console_log
  Inv_read_global Inv_marker_setMap_null Inv_polyline_setMap_null Inv_get_marker
  Inv_marker_getText Inv_marker_setText Inv_map_fitBounds Inv_expandBoundingBox
  Inv_clearMap Inv_addStopMarker Inv_displayPolyLine : inv.

Ltac inv_auto :=
  repeat first
    [ keeps_step
    | solve [eauto with inv]
    | (apply keeps_throw; solve [auto])
    | (apply Inv_assign_global; discriminate)
    | (apply Inv_downloadUrl; apply endpoint_decided; vm_compute; reflexivity)
    | (apply Inv_set_request_status; discriminate)
    | (apply keeps_modify;
       let s := fresh in let Hs := fresh in
       intros s Hs; destruct Hs; constructor; assumption) ].

(** Under the invariant, reading [second] throws. *)
Lemma read_second_throws :
  hoare Inv (read_global "second") (fun _ _ => False) Inv.
Proof.
  intros s Hs. unfold read_global. run_monad.
  destruct (decide ("second" ∈ globals (vars s))) as [Hin|Hnin]; simpl.
  - destruct Hs as [_ _ Hsecond _]. contradiction.
  - exact Hs.
Qed.

Lemma Inv_parseTimeInput : preserves Inv parseTimeInput.
Proof.
  unfold parseTimeInput. keeps_step; [inv_auto|]. keeps_step; [|inv_auto].
  keeps_step; [|inv_auto]. keeps_step; [|inv_auto].
  eapply hoare_bind; [apply read_second_throws|]. intros _ s [].
Qed.

Lemma Inv_parseDateInput : preserves Inv parseDateInput.
Proof. unfold parseDateInput. inv_auto. Qed.

Lemma Inv_setStartDate y m d : preserves Inv (setStartDate y m d).
Proof. unfold setStartDate. inv_auto. Qed.

Lemma Inv_sizeRouteList : preserves Inv sizeRouteList.
Proof. unfold sizeRouteList. inv_auto. Qed.

Lemma Inv_addStopMarkerFromList list selected text :
  preserves Inv (addStopMarkerFromList list selected text).
Proof. unfold addStopMarkerFromList. inv_auto. Qed.

#[local] Hint Resolve Inv_parseTimeInput Inv_parseDateInput Inv_setStartDate
  Inv_sizeRouteList Inv_addStopMarkerFromList : inv.

Lemma Inv_fetchStopsInBounds bounds : preserves Inv (fetchStopsInBounds bounds).
Proof. unfold fetchStopsInBounds. inv_auto. Qed.

Lemma Inv_fetchStopInfoWindow marker : preserves Inv (fetchStopInfoWindow marker).
Proof. unfold fetchStopInfoWindow. inv_auto. Qed.

Lemma Inv_stopTextSearchSubmit : preserves Inv stopTextSearchSubmit.
Proof. unfold stopTextSearchSubmit. inv_auto. Qed.

Lemma Inv_changeStopLocation marker : preserves Inv (changeStopLocation marker).
Proof. unfold changeStopLocation. inv_auto. Qed.

Lemma Inv_saveData : preserves Inv saveData.
Proof. unfold saveData. inv_auto. Qed.

Lemma Inv_fetchRoutes : preserves Inv fetchRoutes.
Proof. unfold fetchRoutes. inv_auto. Qed.

Lemma Inv_fetchPatterns routeId : preserves Inv (fetchPatterns routeId).
Proof. unfold fetchPatterns. inv_auto. Qed.

Lemma Inv_fetchTripPolyLine tripId : preserves Inv (fetchTripPolyLine tripId).
Proof. unfold fetchTripPolyLine. inv_auto. Qed.

Lemma Inv_fetchTripRows tripId : preserves Inv (fetchTripRows tripId).
Proof. unfold fetchTripRows. inv_auto. Qed.

#[local] Hint Resolve Inv_fetchStopsInBounds Inv_fetchStopInfoWindow
  Inv_stopTextSearchSubmit Inv_changeStopLocation Inv_saveData Inv_fetchRoutes
  Inv_fetchPatterns Inv_fetchTripPolyLine Inv_fetchTripRows : inv.

Lemma Inv_selectTrip tripId : preserves Inv (selectTrip tripId).
Proof. unfold selectTrip. inv_auto. Qed.

#[local] Hint Resolve Inv_selectTrip : inv.

Lemma Inv_tripTextSearchSubmit : preserves Inv tripTextSearchSubmit.
Proof. unfold tripTextSearchSubmit. inv_auto. Qed.

Lemma Inv_selectRoute routeId : preserves Inv (selectRoute routeId).
Proof. unfold selectRoute. inv_auto. Qed.

Lemma Inv_callbackDisplayStops data responseCode :
  preserves Inv (callbackDisplayStops data responseCode).
Proof. unfold callbackDisplayStops. inv_auto. Qed.

Lemma Inv_addBackgroundStops stops oldStopMarkers :
  preserves Inv (addBackgroundStops stops oldStopMarkers).
Proof.
  revert oldStopMarkers. induction stops as [|stop stops IH]; intros old; simpl.
  - inv_auto.
  - keeps_step; [inv_auto|]. keeps_step; [inv_auto|]. apply IH.
Qed.

#[local] Hint Resolve Inv_addBackgroundStops : inv.

Lemma Inv_callbackDisplayStopsBackground data responseCode :
  preserves Inv (callbackDisplayStopsBackground data responseCode).
Proof. unfold callbackDisplayStopsBackground. inv_auto. Qed.

Lemma Inv_callbackChangeStopLocation data responseCode :
  preserves Inv (callbackChangeStopLocation data responseCode).
Proof. unfold callbackChangeStopLocation. inv_auto. Qed.

Lemma Inv_callbackSaveData data responseCode :
  preserves Inv (callbackSaveData data responseCode).
Proof. unfold callbackSaveData. inv_auto. Qed.

Lemma Inv_callbackDisplayStopInfoWindow marker data responseCode :
  preserves Inv (callbackDisplayStopInfoWindow marker data responseCode).
Proof. unfold callbackDisplayStopInfoWindow. inv_auto. Qed.

Lemma Inv_callbackDisplayRoutes data responseCode :
  preserves Inv (callbackDisplayRoutes data responseCode).
Proof. unfold callbackDisplayRoutes. inv_auto. Qed.

Lemma Inv_callbackDisplayPatterns data responseCode :
  preserves Inv (callbackDisplayPatterns data responseCode).
Proof. unfold callbackDisplayPatterns. inv_auto. Qed.

Lemma Inv_displayTripStopTimes stops arrivalTimes departureTimes :
  preserves Inv (displayTripStopTimes stops arrivalTimes departureTimes).
Proof. unfold displayTripStopTimes. inv_auto. Qed.

#[local] Hint Resolve Inv_displayTripStopTimes : inv.

Lemma Inv_callbackDisplayTripStopTimes data responseCode :
  preserves Inv (callbackDisplayTripStopTimes data responseCode).
Proof. unfold callbackDisplayTripStopTimes. inv_auto. Qed.

Lemma Inv_callbackDisplayTripPolyLine data responseCode :
  preserves Inv (callbackDisplayTripPolyLine data responseCode).
Proof. unfold callbackDisplayTripPolyLine. inv_auto. Qed.

Lemma Inv_callbackDisplayTripRows data responseCode tripId :
  preserves Inv (callbackDisplayTripRows data responseCode tripId).
Proof. unfold callbackDisplayTripRows. inv_auto. Qed.

#[local] Hint Resolve Inv_tripTextSearchSubmit Inv_selectRoute Inv_callbackDisplayStops
  Inv_callbackDisplayStopsBackground Inv_callbackChangeStopLocation Inv_callbackSaveData
  Inv_callbackDisplayStopInfoWindow Inv_callbackDisplayRoutes Inv_callbackDisplayPatterns
  Inv_callbackDisplayTripStopTimes Inv_callbackDisplayTripPolyLine
  Inv_callbackDisplayTripRows : inv.

Lemma Inv_run_callback cb data responseCode :
  preserves Inv (run_callback cb data responseCode).
Proof. destruct cb; simpl; eauto with inv. Qed.

Lemma Inv_load config : preserves Inv (load config).
Proof. unfold load. inv_auto. Qed.

#[local] Hint Resolve Inv_run_callback Inv_load : inv.

Lemma Inv_handle e : preserves Inv (handle e).
Proof.
  destruct e; simpl; try solve [eauto with inv]; inv_auto.
  - apply Inv_update_marker; intros m0; simpl; auto.
Qed.

Lemma Inv_step s e : Inv s -> Inv (step s e).
Proof.
  intros Hs. unfold step. destruct (enabled e s); [|exact Hs].
  apply preserves_exec; [apply Inv_handle|exact Hs].
Qed.

Lemma Inv_run events s : Inv s -> Inv (run events s).
Proof.
  revert s. induction events as [|e events IH]; intros s Hs; simpl; [exact Hs|].
  apply IH. apply Inv_step. exact Hs.
Qed.

(** The invariant holds in every state the client can be in. *)
Lemma Inv_reachable s : reachable s -> Inv s.
Proof. intros [events ->]. apply Inv_run. apply Inv_init. Qed.

(** ** What the browser fetches for embedded objects

    [callbackDisplayTripRows] is the one place where the script writes
    markup that embeds an object, and its source is the timetable graph. *)

Ltac unfold_all_script :=
  unfold load, callbackMoveEnd, callbackZoomEnd, stopTextSearchSubmit,
    tripTextSearchSubmit, selectRoute, selectTrip, saveData,
    setStartDate, run_callback, callbackDisplayStopsBackground, callbackDisplayStops,
    callbackChangeStopLocation, callbackSaveData, callbackDisplayStopInfoWindow,
    callbackDisplayRoutes, callbackDisplayPatterns, callbackDisplayTripStopTimes,
    callbackDisplayTripPolyLine, displayTripStopTimes,
    displayPolyLine, fetchStopsInBounds, fetchRoutes, fetchPatterns, fetchTripPolyLine,
    fetchTripRows, fetchStopInfoWindow, changeStopLocation, parseTimeInput, parseDateInput,
    sizeRouteList, addStopMarkerFromList, addStopMarker, clearMap, expandBoundingBox,
    map_fitBounds, set_route_list, set_request_status, console_log, downloadUrl,
    marker_setMap_null, polyline_setMap_null, marker_getText, marker_setText, get_marker,
    set_prop, get_prop, read_global, assign_global.

Create HintDb fetches discriminated.

Ltac fetches_auto :=
  repeat first
    [ keeps_step
    | solve [eauto with fetches]
    | (apply keeps_throw; solve [auto])
    | (apply keeps_modify; let s := fresh in let Hs := fresh in intros s Hs; exact Hs) ].


Lemma good_fetches_browser_fetch url :
  url_path url = "/ttablegraph" -> preserves good_fetches (browser_fetch url).
Proof.
  intros Hurl. apply keeps_modify. intros s Hs. unfold good_fetches. simpl.
  apply Forall_app. split; [exact Hs|]. constructor; [exact Hurl|constructor].
Qed.

Lemma good_fetches_callbackDisplayTripRows data responseCode tripId :
  preserves good_fetches (callbackDisplayTripRows data responseCode tripId).
Proof.
  unfold callbackDisplayTripRows, svgTag_embeds. unfold_all_script. fetches_auto.
  apply good_fetches_browser_fetch.
  destruct agent_is_msie, isSVGControlInstalled;
    first [ apply list_elem_of_singleton in H0; subst; reflexivity
          | apply elem_of_nil in H0; contradiction ].
Qed.

Lemma good_fetches_addBackgroundStops stops oldStopMarkers :
  preserves good_fetches (addBackgroundStops stops oldStopMarkers).
Proof.
  revert oldStopMarkers. induction stops as [|stop stops IH]; intros old; simpl.
  - fetches_auto.
  - keeps_step; [do 2 unfold_all_script; fetches_auto|].
    keeps_step; [unfold_all_script; fetches_auto|]. apply IH.
Qed.

#[local] Hint Resolve good_fetches_callbackDisplayTripRows good_fetches_addBackgroundStops
  : fetches.

Lemma good_fetches_run_callback cb data responseCode :
  preserves good_fetches (run_callback cb data responseCode).
Proof. destruct cb; do 4 unfold_all_script; fetches_auto. Qed.

#[local] Hint Resolve good_fetches_run_callback : fetches.




(** ** Requests (claims C3 and C6) *)


Lemma downloadUrl_spec url callback s :
  downloadUrl url callback s =
  (Ret tt,
   with_net (fun n => set_requests (requests n ++
     [{| xhr_method := "GET"; xhr_url := url; xhr_async := true; xhr_timeout := 0;
         xhr_onload := callback; xhr_status := Sent |}]) n) s).
Proof. reflexivity. Qed.

(** C6. No cancellation, no retry, no timeout handling: a call of
    [downloadUrl] sends exactly one request, with no timeout set; in every
    state the client can reach no request has a timeout or was aborted; and
    the error handler issues no request: it marks its own request failed,
    logs one line on the console and leaves the map, the variables and the
    document as they are. *)
Theorem no_cancellation_no_retry_no_timeout :
  (forall url callback s,
     exists x, requests (net (exec (downloadUrl url callback) s)) = requests (net s) ++ [x]
               /\ xhr_url x = url /\ xhr_timeout x = 0%Z /\ xhr_status x = Sent) /\
  (forall events,
     Forall (fun x => xhr_timeout x = 0%Z /\ xhr_status x <> Aborted)
       (requests (net (run events init_state)))) /\
  (forall s i status,
     let s' := step s (EvXhrError i status) in
     xhr_url <$> requests (net s') = xhr_url <$> requests (net s) /\
     length (console (net s')) <= S (length (console (net s))) /\
     mapst s' = mapst s /\ vars s' = vars s /\ dom s' = dom s).
Proof.
  split; [|split].
  - intros url callback s. eexists. unfold exec. rewrite downloadUrl_spec. simpl.
    split; [reflexivity|]. simpl. auto.
  - intros events. destruct (Inv_run events init_state Inv_init) as [_ Hreq _ _].
    eapply Forall_impl; [exact Hreq|]. intros x [_ _ _ Ht Hs]. split; assumption.
  - intros s i status. unfold step. destruct (enabled (EvXhrError i status) s).
    + unfold exec, handle, set_request_status, console_log. run_monad.
      repeat split; auto.
      * generalize (requests (net s)) as l. clear. intros l. revert i.
        induction l as [|x l IH]; intros i; [reflexivity|].
        destruct i; simpl; [reflexivity|]. f_equal. apply IH.
      * rewrite length_app. simpl. lia.
    + simpl. repeat split; auto.
Qed.

(** ** Failed responses (claim C1) *)

(** C1 (amended). The callbacks that update the map, the marker maps, the
    polyline list, the info window, the trip section and the bottom bar
    ([callbackDisplayStops], [callbackDisplayStopsBackground],
    [callbackDisplayStopInfoWindow], [callbackDisplayPatterns],
    [callbackDisplayTripStopTimes], [callbackDisplayTripPolyLine],
    [callbackDisplayTripRows]) return at once on a response code other than
    200: the whole state is as before, so nothing is modified, nothing is
    shown and no request is issued. The anonymous callbacks of
    [changeStopLocation] and [saveData] do not look at the code: they write
    the response text into [edit_status] for every code. *)
Theorem guarded_callbacks_abort_on_failed_response data responseCode s :
  (responseCode <> 200%Z ->
   forall cb, guarded cb = true -> run_callback cb data responseCode s = (Ret tt, s)) /\
  run_callback CbChangeStopLocation data responseCode s =
    (Ret tt, exec (set_prop "edit_status" "innerHTML" (unescape data)) s) /\
  run_callback CbSaveData data responseCode s =
    (Ret tt, exec (set_prop "edit_status" "innerHTML" data) s).
Proof.
  split; [|split; reflexivity].
  intros Hcode cb Hcb. apply Z.eqb_neq in Hcode.
  destruct cb; try discriminate; simpl;
    unfold callbackDisplayStopsBackground, callbackDisplayStops,
      callbackDisplayStopInfoWindow, callbackDisplayPatterns,
      callbackDisplayTripStopTimes, callbackDisplayTripPolyLine,
      callbackDisplayTripRows;
    rewrite Hcode; reflexivity.
Qed.

(** What [callbackDisplayRoutes] does on a failed response in a state the
    client can reach: it throws on [patternDiv] or on [div], and the state
    is as before. *)
Lemma callbackDisplayRoutes_failed_response data responseCode s :
  Inv s -> responseCode <> 200%Z ->
  exists name, callbackDisplayRoutes data responseCode s = (Throw (ReferenceError name), s).
Proof.
  intros [_ _ _ Hdiv] Hcode. apply Z.eqb_neq in Hcode.
  unfold callbackDisplayRoutes. rewrite Hcode. simpl.
  unfold read_global. run_monad.
  destruct (decide ("patternDiv" ∈ globals (vars s))); simpl; [|eauto].
  destruct (decide ("div" ∈ globals (vars s))); simpl; [contradiction|eauto].
Qed.

(** ** The time input (claim C8) *)

#[local] Arguments Regex.search : simpl never.

(** With a seconds field in the input, [parseTimeInput] throws on [second]
    and returns nothing. *)
Lemma parseTimeInput_seconds_throw s :
  time_has_seconds s = true -> "second" ∉ globals (vars s) ->
  parseTimeInput s = (Throw (ReferenceError "second"), s).
Proof.
  unfold time_has_seconds, parseTimeInput, get_prop. run_monad.
  destruct (Regex.search _ _) as [m|]; [|discriminate].
  intros -> Hsecond. simpl. unfold read_global. run_monad.
  destruct (decide ("second" ∈ globals (vars s))); [contradiction|reflexivity].
Qed.

(** Without one it returns, and leaves the state as it is. *)
Lemma parseTimeInput_no_seconds s :
  time_has_seconds s = false -> exists v, parseTimeInput s = (Ret v, s).
Proof.
  unfold time_has_seconds, parseTimeInput, get_prop. run_monad.
  destruct (Regex.search _ _) as [m|].
  - intros ->. simpl. eauto.
  - intros _. simpl. eauto.
Qed.

Lemma parseDateInput_returns s : exists v, parseDateInput s = (Ret v, s).
Proof.
  unfold parseDateInput, get_prop. run_monad.
  destruct (Regex.search _ _) as [m|]; simpl; eauto.
Qed.

(** In every state the client can reach, a seconds field makes
    [parseTimeInput] throw. *)
Lemma parseTimeInput_seconds_throw_reachable s :
  reachable s -> time_has_seconds s = true ->
  parseTimeInput s = (Throw (ReferenceError "second"), s).
Proof.
  intros Hs Hsec. apply parseTimeInput_seconds_throw; [exact Hsec|].
  apply Inv_reachable in Hs. destruct Hs as [_ _ Hsecond _]. exact Hsecond.
Qed.

(** ** One marker per stop (claim C2) *)

Section AddStopMarker.

Variables (stopId stopName : string) (stopLat stopLon : Coord) (locationType : Z).

(** The stop is selected already: its marker is returned. *)
Lemma addStopMarker_selected_hit s r selected :
  stopMarkersSelected (vars s) !! stopId = Some r ->
  addStopMarker stopId stopName stopLat stopLon locationType selected None s = (Ret r, s).
Proof. intros Hsel. unfold addStopMarker. run_monad. rewrite Hsel. reflexivity. Qed.

(** The stop is in the background and is not being selected. *)
Lemma addStopMarker_background_hit s r text :
  stopMarkersSelected (vars s) !! stopId = None ->
  stopMarkersBackground (vars s) !! stopId = Some r ->
  addStopMarker stopId stopName stopLat stopLon locationType false text s = (Ret r, s).
Proof.
  intros Hsel Hbg. unfold addStopMarker. run_monad. rewrite Hsel, Hbg. reflexivity.
Qed.

(** The stop is in neither map: a new marker is made and recorded. *)
Lemma addStopMarker_fresh s selected text :
  stopMarkersSelected (vars s) !! stopId = None ->
  stopMarkersBackground (vars s) !! stopId = None ->
  addStopMarker stopId stopName stopLat stopLon locationType selected text s =
  (Ret (length (markers (mapst s))),
   record_marker selected
     (new_marker s stopId stopName stopLat stopLon locationType selected text) s).
Proof.
  intros Hsel Hbg. unfold addStopMarker. run_monad. rewrite Hsel, Hbg.
  destruct selected; reflexivity.
Qed.

(** The stop is in the background and becomes selected: first its
    background marker is dropped, then the selected marker is made and
    recorded. *)
Lemma addStopMarker_promote s r text :
  stopMarkersSelected (vars s) !! stopId = None ->
  stopMarkersBackground (vars s) !! stopId = Some r ->
  addStopMarker stopId stopName stopLat stopLon locationType true text s =
  (Ret (length (markers (mapst (drop_background stopId r s)))),
   record_marker true
     (new_marker s stopId stopName stopLat stopLon locationType true text)
     (drop_background stopId r s)).
Proof.
  intros Hsel Hbg. unfold addStopMarker. run_monad. rewrite Hsel, Hbg. reflexivity.
Qed.

End AddStopMarker.

Lemma Inv_run_op s op : Inv s -> Inv (run_op s op).
Proof.
  intros Hs. destruct op; simpl; apply preserves_exec; auto with inv.
Qed.

Lemma Inv_run_ops ops s : Inv s -> Inv (fold_left run_op ops s).
Proof.
  revert s. induction ops as [|op ops IH]; intros s Hs; simpl; [exact Hs|].
  apply IH. apply Inv_run_op. exact Hs.
Qed.

(** Under the invariant, two markers on the map are markers of different
    stops. *)
Lemma one_shown_marker_per_stop s r1 r2 m1 m2 :
  Inv s ->
  markers (mapst s) !! r1 = Some m1 -> m_map m1 = true ->
  markers (mapst s) !! r2 = Some m2 -> m_map m2 = true ->
  m_stopId m1 = m_stopId m2 -> r1 = r2.
Proof.
  intros [[Hd _ _ Hsh _] _ _ _] Hm1 Hs1 Hm2 Hs2 Hid.
  destruct (Hsh r1 m1 Hm1 Hs1) as [H1|H1], (Hsh r2 m2 Hm2 Hs2) as [H2|H2];
    rewrite Hid in H1.
  - congruence.
  - apply Hd in H1. congruence.
  - apply Hd in H2. congruence.
  - congruence.
Qed.

(** C2. From any state the client can reach, after any sequence of
    [addStopMarker], [addStopMarkerFromList],
    [callbackDisplayStopsBackground] and [clearMap]: no stop id is a key of
    both [stopMarkersSelected] and [stopMarkersBackground]; each of the two
    maps records, under a stop id, one marker, and it is a marker of that
    stop; at most one marker per stop id is on the map; and when a
    background stop becomes selected, its background marker is off the map
    and out of [stopMarkersBackground] in the state in which the new
    selected marker is recorded. *)
Theorem at_most_one_marker_per_stop (s0 : State) (ops : list Op) :
  reachable s0 ->
  let s := fold_left run_op ops s0 in
  (forall id, ~ (is_Some (stopMarkersSelected (vars s) !! id) /\
                 is_Some (stopMarkersBackground (vars s) !! id))) /\
  (forall id r, stopMarkersSelected (vars s) !! id = Some r
                \/ stopMarkersBackground (vars s) !! id = Some r ->
     exists m, markers (mapst s) !! r = Some m /\ m_stopId m = id) /\
  (forall r1 r2 m1 m2,
     markers (mapst s) !! r1 = Some m1 -> m_map m1 = true ->
     markers (mapst s) !! r2 = Some m2 -> m_map m2 = true ->
     m_stopId m1 = m_stopId m2 -> r1 = r2) /\
  (forall id name lat lon locationType text r,
     stopMarkersBackground (vars s) !! id = Some r ->
     let dropped := drop_background id r s in
     let s' := exec (addStopMarker id name lat lon locationType true text) s in
     s' = record_marker true (new_marker s id name lat lon locationType true text) dropped /\
     ~ marker_shown dropped r /\
     stopMarkersBackground (vars dropped) !! id = None /\
     ~ marker_shown s' r /\
     stopMarkersBackground (vars s') !! id = None /\
     stopMarkersSelected (vars s') !! id = Some (length (markers (mapst s))) /\
     r <> length (markers (mapst s))).
Proof.
  intros Hs0 s. assert (Inv s) as Hs by (apply Inv_run_ops, Inv_reachable, Hs0).
  split; [|split; [|split]].
  - intros id [[r Hsel] [r' Hbg]]. destruct Hs as [[Hd _ _ _ _] _ _ _].
    apply Hd in Hsel. congruence.
  - intros id r [Hr|Hr]; destruct Hs as [[_ Hsel Hbg _ _] _ _ _]; eauto.
  - intros r1 r2 m1 m2. apply one_shown_marker_per_stop. exact Hs.
  - intros id name lat lon locationType text r Hbg dropped s'.
    assert (stopMarkersSelected (vars s) !! id = None) as Hsel.
    { destruct (stopMarkersSelected (vars s) !! id) as [r'|] eqn:Hsel; [|reflexivity].
      destruct Hs as [[Hd _ _ _ _] _ _ _]. apply Hd in Hsel. congruence. }
    assert (r < length (markers (mapst s))) as Hlt.
    { destruct Hs as [[_ _ Hb _ _] _ _ _]. destruct (Hb id r Hbg) as (m & Hm & _).
      eapply lookup_lt_Some. exact Hm. }
    assert (~ marker_shown dropped r) as Hdropped.
    { intros (m & Hm & Hshown). simpl in Hm. rewrite list_lookup_alter_eq in Hm.
      destruct (markers (mapst s) !! r); [|discriminate].
      simpl in Hm. injection Hm as <-. discriminate. }
    subst s'. unfold exec. rewrite (addStopMarker_promote _ _ _ _ _ _ r) by assumption.
    simpl. rewrite length_alter.
    repeat split.
    + exact Hdropped.
    + apply lookup_delete_eq.
    + intros (m & Hm & Hshown). apply Hdropped. exists m. split; [|exact Hshown].
      simpl in Hm |- *.
      rewrite lookup_app_l in Hm; [exact Hm|]. rewrite length_alter. exact Hlt.
    + apply lookup_delete_eq.
    + apply lookup_insert_eq.
    + lia.
Qed.

(** ** Requests per user action (claim C5) *)

Ltac sends_now :=
  eexists _, _; split; [reflexivity|]; simpl;
  split; [reflexivity|]; split; [reflexivity|]; repeat constructor.

Lemma stopTextSearchSubmit_sends s : sends stopTextSearchSubmit s ["/json/stopsearch"].
Proof. unfold stopTextSearchSubmit, get_prop. sends_now. Qed.

Lemma callbackMoveEnd_sends bounds s : sends (callbackMoveEnd bounds) s ["/json/boundboxstops"].
Proof. unfold callbackMoveEnd, fetchStopsInBounds. sends_now. Qed.

Lemma changeStopLocation_sends marker m s :
  markers (mapst s) !! marker = Some m -> sends (changeStopLocation marker) s ["/json/setstoplocation"].
Proof.
  intros Hm. unfold sends, changeStopLocation, get_marker. run_monad. rewrite Hm. simpl.
  eexists _, _. split; [reflexivity|]. simpl.
  split; [reflexivity|]. split; [reflexivity|]. repeat constructor.
Qed.

Lemma dragend_sends marker position m s :
  markers (mapst s) !! marker = Some m ->
  sends (handle (EvMarkerDragEnd marker position)) s ["/json/setstoplocation"].
Proof.
  intros Hm. unfold sends, handle, set_prop. run_monad.
  edestruct (changeStopLocation_sends marker) as (s' & new & Hrun & Hreq & Hlen & Hget);
    [|rewrite Hrun; eexists _, _; split; [reflexivity|]; split; [exact Hreq|]; auto].
  simpl. rewrite list_lookup_alter_eq, Hm. reflexivity.
Qed.

Lemma fetchStopInfoWindow_sends marker m s :
  markers (mapst s) !! marker = Some m -> time_has_seconds s = false ->
  sends (fetchStopInfoWindow marker) s ["/json/stoptrips"].
Proof.
  intros Hm Hsec. unfold sends, fetchStopInfoWindow, get_marker.
  unfold mbind, M_bind, bind, get. rewrite Hm. simpl.
  destruct (parseTimeInput_no_seconds s Hsec) as [v ->].
  destruct (parseDateInput_returns s) as [d ->].
  eexists _, _. split; [reflexivity|]. simpl.
  split; [reflexivity|]. split; [reflexivity|]. repeat constructor.
Qed.

Lemma fetchPatterns_sends routeId s :
  time_has_seconds s = false -> sends (fetchPatterns routeId) s ["/json/routepatterns"].
Proof.
  intros Hsec. unfold sends, fetchPatterns. unfold mbind, M_bind, bind.
  destruct (parseTimeInput_no_seconds s Hsec) as [v ->].
  destruct (parseDateInput_returns s) as [d ->].
  eexists _, _. split; [reflexivity|]. simpl.
  split; [reflexivity|]. split; [reflexivity|]. repeat constructor.
Qed.

Lemma selectTrip_sends tripId s :
  sends (selectTrip tripId) s ["/json/tripstoptimes"; "/json/tripshape"; "/json/triprows"].
Proof.
  unfold sends, selectTrip. unfold mbind, M_bind, bind, get.
  destruct (update_tripInfo _ _) as [l1|]; simpl;
    (destruct (update_span_by_id _ _ _) as [l2|]; simpl;
     rewrite clearMap_spec; eexists _, _; (split; [reflexivity|]); simpl;
     (split; [rewrite <- !app_assoc; reflexivity|]); (split; [reflexivity|]);
     repeat constructor).
Qed.

Lemma tripTextSearchSubmit_sends s :
  sends tripTextSearchSubmit s ["/json/tripstoptimes"; "/json/tripshape"; "/json/triprows"].
Proof.
  destruct (selectTrip_sends (default "" (props (dom s) !! ("tripTextSearchInput", "value"))) s)
    as (s' & new & Hrun & Hrest).
  exists s', new. split; [|exact Hrest]. exact Hrun.
Qed.

Lemma has_route_map routeId (g : RouteContainer -> RouteContainer) l :
  (forall c, rc_routeId (g c) = rc_routeId c) ->
  has_route routeId (map g l) = has_route routeId l.
Proof.
  intros Hg. induction l as [|c l IH]; simpl; [reflexivity|]. rewrite Hg, IH. reflexivity.
Qed.

Lemma has_route_update_first routeId (f : RouteContainer -> option RouteContainer) l l' :
  (forall c c', f c = Some c' -> rc_routeId c' = rc_routeId c) ->
  update_first f l = Some l' -> has_route routeId l' = has_route routeId l.
Proof.
  intros Hf. revert l'. induction l as [|c l IH]; intros l'; simpl; [discriminate|].
  destruct (f c) as [c'|] eqn:Hc.
  - intros [= <-]. simpl. rewrite (Hf c c' Hc). reflexivity.
  - destruct (update_first f l) as [l0|]; [|discriminate].
    intros [= <-]. simpl. rewrite (IH l0 eq_refl). reflexivity.
Qed.

(** An element with the id of a listed route is found. *)
Lemma update_route_by_id_finds routeId fc fe l :
  has_route routeId l = true ->
  is_Some (update_route_by_id ("route_" +:+ routeId) fc fe l).
Proof.
  unfold update_route_by_id, has_route.
  induction l as [|c l IH]; [discriminate|]. cbn [existsb update_first]. intros Hr.
  destruct (String.eqb (container_id c) ("route_" +:+ routeId)) eqn:Hc; [eauto|].
  destruct (String.eqb (elem_id c) ("route_" +:+ routeId)) eqn:He; [eauto|].
  apply orb_true_iff in Hr as [Hr|Hr].
  - apply String.eqb_eq in Hr. unfold elem_id in He. rewrite Hr, String.eqb_refl in He.
    discriminate.
  - destruct (IH Hr) as [l' Hl']. rewrite Hl'. simpl. eauto.
Qed.

Lemma selectRoute_sends routeId s :
  has_route routeId (routeList (dom s)) = true -> time_has_seconds s = false ->
  sends (selectRoute routeId) s ["/json/routepatterns"].
Proof.
  intros Hroute Hsec. unfold sends, selectRoute, set_route_list.
  unfold mbind, M_bind, bind, get, assign_global, modify. simpl.
  match goal with |- context [update_tripInfo ?f (map ?g ?l)] =>
    assert (has_route routeId (map g l) = true) as Hroute1
      by (rewrite has_route_map; [exact Hroute|];
          intros c; destruct (String.eqb (rc_containerClass c) _);
          simpl; destruct (String.eqb _ _); reflexivity);
    destruct (update_tripInfo f (map g l)) as [l1|] eqn:Hl1
  end; simpl.
  - assert (has_route routeId l1 = true) as Hroute2.
    { unfold update_tripInfo in Hl1. erewrite has_route_update_first; [exact Hroute1| |exact Hl1].
      intros c c'. simpl. destruct (rc_elemTripInfos c); [|intros [= <-]; reflexivity].
      destruct (rc_tripInfos c); [discriminate|intros [= <-]; reflexivity]. }
    destruct (update_route_by_id_finds routeId
                (set_rc_containerClass "routeChoiceSelected")
                (set_rc_elemClass "routeChoiceSelected") l1 Hroute2) as [l2 Hl2].
    simpl in Hl2. rewrite Hl2. simpl.
    edestruct (fetchPatterns_sends routeId) as (s' & new & Hrun & Hreq & Hlen & Hget);
      [|rewrite Hrun; eexists _, _; split; [reflexivity|]; split; [exact Hreq|]; auto].
    exact Hsec.
  - destruct (update_route_by_id_finds routeId
                (set_rc_containerClass "routeChoiceSelected")
                (set_rc_elemClass "routeChoiceSelected") _ Hroute1) as [l2 Hl2].
    simpl in Hl2. rewrite Hl2. simpl.
    edestruct (fetchPatterns_sends routeId) as (s' & new & Hrun & Hreq & Hlen & Hget);
      [|rewrite Hrun; eexists _, _; split; [reflexivity|]; split; [exact Hreq|]; auto].
    exact Hsec.
Qed.

(** The three requests of [selectTrip], in the order in which it sends
    them. *)
Lemma selectTrip_requests tripId s :
  exists s' new,
    selectTrip tripId s = (Ret tt, s') /\
    requests (net s') = requests (net s) ++ new /\
    xhr_url <$> new =
      ["/json/tripstoptimes?trip=" +:+ encodeURIComponent tripId;
       "/json/tripshape?trip=" +:+ encodeURIComponent tripId;
       "/json/triprows?trip=" +:+ encodeURIComponent tripId].
Proof.
  unfold selectTrip. unfold mbind, M_bind, bind, get.
  destruct (update_tripInfo _ _) as [l1|]; simpl;
    (destruct (update_span_by_id _ _ _) as [l2|]; simpl;
     rewrite clearMap_spec; eexists _, _; (split; [reflexivity|]); simpl;
     (split; [rewrite <- !app_assoc; reflexivity|]); reflexivity).
Qed.

(** C5 (amended). Each of the listed user actions, when the browser can
    deliver it, runs its handler to the end and sends GET requests through
    [downloadUrl]: exactly three for a trip selection, to
    [/json/tripstoptimes], [/json/tripshape] and [/json/triprows] in this
    order, each with the trip (the one clicked, or the text of the trip
    search) as its query; and exactly one for each of the
    others: to [/json/stopsearch] for a stop search submit, to
    [/json/routepatterns] for a route selection, to [/json/stoptrips] for a
    marker click, to [/json/setstoplocation] for a marker drag end and to
    [/json/boundboxstops] for a map move. For route selection and marker
    click, whose URL includes [parseTimeInput()], this is stated for a time
    input without a seconds field. *)
Theorem requests_per_user_action (s : State) (e : Event) :
  user_action e = true -> enabled e s = true ->
  (reads_time e = true -> time_has_seconds s = false) ->
  exists new,
    requests (net (step s e)) = requests (net s) ++ new /\
    length new = (if selects_trip e then 3 else 1) /\
    Forall (fun x => xhr_method x = "GET") new /\
    url_path <$> (xhr_url <$> new) =
      match e with
      | EvStopTextSearchSubmit => ["/json/stopsearch"]
      | EvRouteClick _ => ["/json/routepatterns"]
      | EvMarkerClick _ => ["/json/stoptrips"]
      | EvMarkerDragEnd _ _ => ["/json/setstoplocation"]
      | EvMoveEnd _ => ["/json/boundboxstops"]
      | EvTripClick _ | EvTripTextSearchSubmit =>
          ["/json/tripstoptimes"; "/json/tripshape"; "/json/triprows"]
      | _ => []
      end /\
    (forall tripId,
       e = EvTripClick tripId \/
       (e = EvTripTextSearchSubmit /\
        tripId = default "" (props (dom s) !! ("tripTextSearchInput", "value"))) ->
       xhr_url <$> new =
         ["/json/tripstoptimes?trip=" +:+ encodeURIComponent tripId;
          "/json/tripshape?trip=" +:+ encodeURIComponent tripId;
          "/json/triprows?trip=" +:+ encodeURIComponent tripId]).
Proof.
  intros Hu He Ht. unfold step. rewrite He. unfold exec.
  assert (sends (handle e) s (action_paths e)) as Hsends.
  { destruct e; try discriminate; simpl in *.
    - apply callbackMoveEnd_sends.
    - apply stopTextSearchSubmit_sends.
    - apply tripTextSearchSubmit_sends.
    - apply selectRoute_sends; auto.
    - apply selectTrip_sends.
    - destruct (markers (mapst s) !! marker) as [m|] eqn:Hm; [|discriminate].
      eapply fetchStopInfoWindow_sends; eauto.
    - destruct (markers (mapst s) !! marker) as [m|] eqn:Hm; [|discriminate].
      eapply dragend_sends; eauto. }
  destruct Hsends as (s' & new & Hrun & Hreq & Hpaths & Hget).
  exists new. rewrite Hrun. cbn [snd]. split; [exact Hreq|].
  split; [|split; [exact Hget|split]].
  - apply (f_equal length) in Hpaths. rewrite !length_fmap in Hpaths. rewrite Hpaths.
    destruct e; try discriminate; reflexivity.
  - rewrite Hpaths. destruct e; reflexivity.
  - intros tripId Htrip.
    destruct (selectTrip_requests tripId s) as (s1 & new1 & Hrun1 & Hreq1 & Hurls).
    assert (handle e s = selectTrip tripId s) as Hsame
      by (destruct Htrip as [->|[-> ->]]; reflexivity).
    rewrite Hsame, Hrun1 in Hrun. injection Hrun as <-. rewrite Hreq1 in Hreq.
    apply app_inv_head in Hreq. subst new1. exact Hurls.
Qed.

(** ** Frames: what a computation leaves alone *)

Lemma Framed_refl s : Framed (overlays s) (requests (net s)) s.
Proof. split; reflexivity. Qed.

Lemma Framed_downloadUrl k R url callback :
  preserves (Framed k R) (downloadUrl url callback).
Proof.
  unfold downloadUrl. apply keeps_bind; [simpl; apply keeps_ret|]. intros _.
  apply keeps_modify. intros s [Hk HR]. split; [exact Hk|].
  simpl. apply prefix_app_r. exact HR.
Qed.

Ltac frame_auto :=
  repeat first
    [ keeps_step
    | apply Framed_downloadUrl
    | (apply keeps_throw; solve [auto])
    | (apply keeps_modify;
       let s := fresh in let Hs := fresh in intros s Hs; exact Hs) ].

Lemma Framed_parseTimeInput k R : preserves (Framed k R) parseTimeInput.
Proof.
  unfold parseTimeInput, get_prop, read_global, assign_global, console_log. frame_auto.
Qed.

Lemma Framed_parseDateInput k R : preserves (Framed k R) parseDateInput.
Proof. unfold parseDateInput, get_prop, console_log. frame_auto. Qed.


Lemma Framed_fetchPatterns k R routeId : preserves (Framed k R) (fetchPatterns routeId).
Proof.
  unfold fetchPatterns.
  keeps_step; [apply Framed_parseTimeInput|]. keeps_step; [apply Framed_parseDateInput|].
  unfold assign_global. frame_auto.
Qed.

Lemma Framed_selectRoute k R routeId : preserves (Framed k R) (selectRoute routeId).
Proof.
  unfold selectRoute, assign_global, set_route_list.
  repeat first [ apply Framed_fetchPatterns | frame_auto ].
Qed.

Lemma Framed_fetchStopsInBounds k R bounds :
  preserves (Framed k R) (fetchStopsInBounds bounds).
Proof. unfold fetchStopsInBounds, assign_global. frame_auto. Qed.

(** ** The answer to a stop search *)

(** The loop of [callbackDisplayStops], run with an empty background: the
    stops of the answer become keys of [stopMarkersSelected]; the markers
    made before are not touched. *)
Lemma select_stops_loop stops s :
  stopMarkersBackground (vars s) = ∅ ->
  exists s',
    for_each (fun stop => addStopMarkerFromList stop true None;; mret tt) stops s
      = (Ret tt, s') /\
    stopMarkersBackground (vars s') = ∅ /\
    (forall id, is_Some (stopMarkersSelected (vars s') !! id) <->
                is_Some (stopMarkersSelected (vars s) !! id) \/ id ∈ stop_ids stops) /\
    (forall r, r < length (markers (mapst s)) ->
               markers (mapst s') !! r = markers (mapst s) !! r) /\
    requests (net s') = requests (net s).
Proof.
  revert s. induction stops as [|stop stops IH]; intros s Hbg.
  - exists s. simpl. split; [reflexivity|]. split; [exact Hbg|].
    split; [|auto]. intros id. rewrite elem_of_nil. tauto.
  - simpl. unfold mbind, M_bind, bind, addStopMarkerFromList.
    destruct (stopMarkersSelected (vars s) !! sr_stopId stop) as [r|] eqn:Hsel.
    + rewrite (addStopMarker_selected_hit _ _ _ _ _ s r true Hsel). simpl.
      destruct (IH s Hbg) as (s' & Hrun & Hbg' & Hkeys & Hms & Hreq).
      exists s'. split; [exact Hrun|]. split; [exact Hbg'|]. split; [|auto].
      intros id. rewrite Hkeys, elem_of_cons. split; [tauto|].
      intros [Hs|[->|Hin]]; [left; exact Hs|left; rewrite Hsel; eauto|right; exact Hin].
    + assert (stopMarkersBackground (vars s) !! sr_stopId stop = None) as Hnone
        by (rewrite Hbg; apply lookup_empty).
      rewrite (addStopMarker_fresh _ _ _ _ _ s true None Hsel Hnone). simpl.
      match goal with |- context [for_each _ stops ?s1] =>
        destruct (IH s1 Hbg) as (s' & Hrun & Hbg' & Hkeys & Hms & Hreq) end.
      exists s'. split; [exact Hrun|]. split; [exact Hbg'|]. simpl in *.
      split; [|split; [|exact Hreq]].
      * intros id. rewrite Hkeys, elem_of_cons, lookup_insert.
        case_decide as Hid.
        -- subst id. split; [intros _; right; left; reflexivity|intros _; left; eauto].
        -- split.
           ++ intros [Hs|Hin]; [left; exact Hs|right; right; exact Hin].
           ++ intros [Hs|[Heq|Hin]]; [left; exact Hs|congruence|right; exact Hin].
      * intros r Hr. rewrite Hms by (rewrite length_app; lia).
        apply lookup_app_l. exact Hr.
Qed.



(** ** The life of the overlays (claim C4) *)

Ltac frame_steps :=
  repeat first
    [ keeps_step
    | (apply keeps_throw; solve [auto])
    | (apply keeps_modify;
       let s := fresh in let Hs := fresh in intros s Hs; exact Hs) ].

Lemma nothing_shown_cleared s : Inv s \/ nothing_shown s -> nothing_shown (cleared s).
Proof.
  intros [[HT _ _ _]|[Hm Hp]]; split; simpl.
  - intros r m. eapply hidden_markers. exact HT.
  - intros r p. eapply hidden_polylines. exact HT.
  - intros r m. rewrite lookup_hide_markers.
    destruct (markers (mapst s) !! r) as [m0|] eqn:Hm0; [|discriminate].
    simpl. intros [= <-]. case_bool_decide; [reflexivity|]. eapply Hm. exact Hm0.
  - intros r p. rewrite lookup_hide_polylines.
    destruct (polylines (mapst s) !! r) as [p0|] eqn:Hp0; [|discriminate].
    simpl. intros [= <-]. case_bool_decide; [reflexivity|]. eapply Hp. exact Hp0.
Qed.

Lemma nothing_shown_clearMap : preserves nothing_shown clearMap.
Proof. intros s Hs. rewrite clearMap_spec. apply nothing_shown_cleared. right. exact Hs. Qed.

Lemma nothing_shown_selectTrip tripId : preserves nothing_shown (selectTrip tripId).
Proof.
  unfold selectTrip, fetchTripPolyLine, fetchTripRows, downloadUrl, assign_global,
    set_route_list, console_log.
  repeat first [ apply nothing_shown_clearMap | frame_steps ].
Qed.

(** [selectTrip] takes every overlay off the map. *)
Lemma selectTrip_hides_everything s tripId :
  Inv s -> nothing_shown (exec (selectTrip tripId) s).
Proof.
  intros [HT _ _ _]. unfold exec, selectTrip. unfold mbind, M_bind, bind, get.
  destruct (update_tripInfo _ _); simpl;
    (destruct (update_span_by_id _ _ _); simpl; rewrite clearMap_spec; simpl;
     (split; [intros r x; eapply hidden_markers|intros r x; eapply hidden_polylines]);
     exact HT).
Qed.

(** So does [callbackDisplayPatterns] on a 200 response. *)
Lemma callbackDisplayPatterns_hides_everything s data :
  Inv s -> nothing_shown (exec (callbackDisplayPatterns data 200) s).
Proof.
  intros Hs. unfold exec, callbackDisplayPatterns.
  change (negb (200 =? 200)%Z) with false. cbv iota zeta.
  unfold mbind at 1. unfold M_bind, bind. rewrite clearMap_spec.
  match goal with |- nothing_shown (?rest (cleared s)).2 =>
    change (nothing_shown (exec rest (cleared s)));
    apply (keeps_exec nothing_shown nothing_shown rest (cleared s)) end.
  - unfold assign_global, set_route_list.
    repeat first [ apply nothing_shown_selectTrip | frame_steps ].
  - auto.
  - apply nothing_shown_cleared. left. exact Hs.
Qed.

(** The local [oldStopMarkers] after a stop: its key is gone. *)
Lemma lookup_forget (old : gmap string nat) id id' r :
  match old !! id with Some _ => delete id old | None => old end !! id' = Some r <->
  old !! id' = Some r /\ id' <> id.
Proof.
  destruct (old !! id) eqn:Hid.
  - rewrite lookup_delete. case_decide as Hne.
    + split; [discriminate|]. intros [_ Hne']. congruence.
    + split; [|tauto]. intros Hr. split; [exact Hr|]. congruence.
  - split; [|tauto]. intros Hr. split; [exact Hr|]. congruence.
Qed.

(** The first loop of [callbackDisplayStopsBackground]: it returns, keeps
    the invariant, the selected markers, the polylines and the markers made
    before, and leaves in [oldStopMarkers] the background markers whose
    stop is not in the answer. *)
Lemma addBackgroundStops_spec stops s old :
  Inv s ->
  (forall id r, old !! id = Some r -> stopMarkersBackground (vars s) !! id = Some r) ->
  exists s' old',
    addBackgroundStops stops old s = (Ret old', s') /\
    Inv s' /\
    stopMarkersSelected (vars s') = stopMarkersSelected (vars s) /\
    polylines (mapst s') = polylines (mapst s) /\
    (forall r, r < length (markers (mapst s)) ->
               markers (mapst s') !! r = markers (mapst s) !! r) /\
    (forall id r, old' !! id = Some r <-> old !! id = Some r /\ id ∉ stop_ids stops).
Proof.
  revert s old. induction stops as [|stop stops IH]; intros s old Hs Hold.
  - exists s, old. split; [reflexivity|]. split; [exact Hs|].
    split; [reflexivity|]. split; [reflexivity|]. split; [auto|].
    intros id r. split; [|tauto]. intros Hr. split; [exact Hr|apply not_elem_of_nil].
  - cbn [addBackgroundStops]. unfold mbind, M_bind, bind, addStopMarkerFromList.
    set (id := sr_stopId stop).
    assert (forall s1 r m,
      Inv s1 -> markers (mapst s1) !! r = Some m -> m_stopId m = id ->
      (forall id r, old !! id = Some r -> stopMarkersBackground (vars s1) !! id = Some r) ->
      stopMarkersSelected (vars s1) = stopMarkersSelected (vars s) ->
      polylines (mapst s1) = polylines (mapst s) ->
      (forall r, r < length (markers (mapst s)) ->
                 markers (mapst s1) !! r = markers (mapst s) !! r) ->
      exists s' old',
        match get_marker r s1 with
        | (Ret a, s'0) =>
            addBackgroundStops stops
              match old !! m_stopId a with
              | Some _ => delete (m_stopId a) old
              | None => old
              end s'0
        | (Throw e, s'0) => (Throw e, s'0)
        end = (Ret old', s') /\
        Inv s' /\
        stopMarkersSelected (vars s') = stopMarkersSelected (vars s) /\
        polylines (mapst s') = polylines (mapst s) /\
        (forall r, r < length (markers (mapst s)) ->
                   markers (mapst s') !! r = markers (mapst s) !! r) /\
        (forall id0 r, old' !! id0 = Some r <->
                       old !! id0 = Some r /\ id0 ∉ stop_ids (stop :: stops))) as Hnext.
    { intros s1 r m Hs1 Hm Hmid Hold1 Hsel1 Hpl1 Hms1.
      unfold get_marker. unfold mbind, M_bind, bind, get. rewrite Hm. simpl. rewrite Hmid.
      destruct (IH s1 (match old !! id with Some _ => delete id old | None => old end) Hs1)
        as (s' & old' & Hrun & Hs' & Hsel' & Hpl' & Hms' & Hold').
      { intros id0 r0 Hr0. apply lookup_forget in Hr0 as [Hr0 _]. auto. }
      exists s', old'. split; [exact Hrun|]. split; [exact Hs'|].
      split; [congruence|]. split; [congruence|]. split.
      - intros r0 Hr0. rewrite <- Hms1 by exact Hr0. apply Hms'.
        apply lookup_lt_is_Some. rewrite Hms1 by exact Hr0.
        apply lookup_lt_is_Some. exact Hr0.
      - intros id0 r0. rewrite Hold', lookup_forget. simpl. fold id.
        rewrite not_elem_of_cons. tauto. }
    destruct (stopMarkersSelected (vars s) !! id) as [r|] eqn:Hsel.
    + rewrite (addStopMarker_selected_hit _ _ _ _ _ s r false Hsel).
      destruct Hs as [HT Hreq Hsec Hdiv].
      destruct (tr_sel _ _ _ _ _ HT id r Hsel) as (m & Hm & Hmid).
      eapply Hnext; eauto. constructor; assumption.
    + destruct (stopMarkersBackground (vars s) !! id) as [r|] eqn:Hbg.
      * rewrite (addStopMarker_background_hit _ _ _ _ _ s r None Hsel Hbg).
        destruct Hs as [HT Hreq Hsec Hdiv].
        destruct (tr_bg _ _ _ _ _ HT id r Hbg) as (m & Hm & Hmid).
        eapply Hnext; eauto. constructor; assumption.
      * pose proof (preserves_exec Inv _ s
          (Inv_addStopMarker id (sr_stopName stop) (sr_lat stop) (sr_lon stop)
             (sr_locationType stop) false None) Hs) as Hs1.
        unfold exec in Hs1.
        rewrite (addStopMarker_fresh _ _ _ _ _ s false None Hsel Hbg) in Hs1 |- *.
        simpl in Hs1.
        eapply Hnext; [exact Hs1| | | | | |].
        -- simpl. rewrite lookup_app_r by lia. rewrite Nat.sub_diag. reflexivity.
        -- reflexivity.
        -- intros id0 r0 Hr0. simpl. rewrite lookup_insert_ne; [auto|].
           intros <-. apply Hold in Hr0. congruence.
        -- reflexivity.
        -- reflexivity.
        -- intros r0 Hr0. simpl. apply lookup_app_l. exact Hr0.
Qed.

(** [callbackDisplayStopsBackground] on a 200 response: the selected
    markers and the polylines stay as they are; a marker that is on the map
    stays on it exactly when it is a selected marker or its stop is in the
    answer. *)
Lemma callbackDisplayStopsBackground_keeps s data :
  Inv s ->
  let s' := exec (callbackDisplayStopsBackground data 200) s in
  stopMarkersSelected (vars s') = stopMarkersSelected (vars s) /\
  polylines (mapst s') = polylines (mapst s) /\
  (forall r m, markers (mapst s) !! r = Some m -> m_map m = true ->
     (marker_shown s' r <->
      stopMarkersSelected (vars s) !! m_stopId m = Some r
      \/ m_stopId m ∈ stop_ids (eval_stops data))).
Proof.
  intros Hs s'.
  destruct (addBackgroundStops_spec (eval_stops data) s (stopMarkersBackground (vars s)) Hs)
    as (s1 & old' & Hrun & Hs1 & Hsel1 & Hpl1 & Hms1 & Hold'); [auto|].
  assert (s' = with_mapst (fun m => set_markers (hide_markers (refs old') (markers m)) m) s1)
    as ->.
  { subst s'. unfold exec, callbackDisplayStopsBackground.
    change (negb (200 =? 200)%Z) with false. cbv iota zeta.
    unfold mbind, M_bind, bind, get. rewrite Hrun.
    rewrite for_each_marker_setMap_null. reflexivity. }
  simpl. split; [exact Hsel1|]. split; [exact Hpl1|].
  intros r m Hm Hshown. destruct Hs as [[Hd Hts Htb Hsh _] _ _ _].
  assert (r ∈ refs old' <->
          stopMarkersBackground (vars s) !! m_stopId m = Some r
          /\ m_stopId m ∉ stop_ids (eval_stops data)) as Hin.
  { rewrite elem_of_refs. split.
    - intros [id Hid]. apply Hold' in Hid as [Hid Hnin].
      destruct (Htb id r Hid) as (m' & Hm' & Hmid). assert (m' = m) by congruence.
      subst m' id. auto.
    - intros [Hr Hnin]. exists (m_stopId m). apply Hold'. auto. }
  unfold marker_shown. simpl. rewrite lookup_hide_markers.
  rewrite Hms1 by (eapply lookup_lt_Some; exact Hm). rewrite Hm. simpl.
  split.
  - intros (m' & Hm' & Hshown'). injection Hm' as <-.
    case_bool_decide as Hr; [discriminate|].
    destruct (Hsh r m Hm Hshown) as [Hsel|Hbg]; [left; exact Hsel|].
    right. destruct (decide (m_stopId m ∈ stop_ids (eval_stops data))) as [|Hnin];
      [assumption|]. exfalso. apply Hr, Hin. auto.
  - intros Hor. exists m. split; [|exact Hshown].
    rewrite bool_decide_eq_false_2; [reflexivity|].
    intros Hr. apply Hin in Hr as [Hbg Hnin]. destruct Hor as [Hsel|Hin'].
    + apply Hd in Hsel. congruence.
    + contradiction.
Qed.

Lemma overlays_exec {A} (m : M A) s :
  (forall k R, preserves (Framed k R) m) -> overlays (exec m s) = overlays s.
Proof.
  intros Hm.
  apply (keeps_exec _ _ m s (Hm (overlays s) (requests (net s)))); [auto|].
  apply Framed_refl.
Qed.

(** C4 (amended). In a state the client can reach: a trip selection
    ([selectTrip], from a trip span or from the trip search) takes every
    marker and every polyline off the map at once, and so does the answer
    to a route selection ([callbackDisplayPatterns] on a 200 response);
    [callbackZoomEnd] changes nothing; [callbackMoveEnd] and [selectRoute]
    themselves leave every overlay as it is; and when the fetch of
    [callbackMoveEnd] completes with code 200, the polylines and the
    selected markers stay, and a marker that was on the map stays on it
    exactly when it is a selected marker or its stop is in the new answer:
    only the background markers of stops absent from the answer go. *)
Theorem overlays_go_on_trip_selection (s : State) :
  reachable s ->
  (forall tripId, nothing_shown (step s (EvTripClick tripId))) /\
  nothing_shown (step s EvTripTextSearchSubmit) /\
  (forall data, nothing_shown (exec (callbackDisplayPatterns data 200) s)) /\
  step s EvZoomEnd = s /\
  (forall bounds, overlays (step s (EvMoveEnd bounds)) = overlays s) /\
  (forall routeId, overlays (step s (EvRouteClick routeId)) = overlays s) /\
  (forall data,
     let s' := exec (callbackDisplayStopsBackground data 200) s in
     stopMarkersSelected (vars s') = stopMarkersSelected (vars s) /\
     polylines (mapst s') = polylines (mapst s) /\
     (forall r m, markers (mapst s) !! r = Some m -> m_map m = true ->
        (marker_shown s' r <->
         stopMarkersSelected (vars s) !! m_stopId m = Some r
         \/ m_stopId m ∈ stop_ids (eval_stops data)))).
Proof.
  intros Hreach. pose proof (Inv_reachable s Hreach) as Hs.
  split; [|split; [|split; [|split; [|split; [|split]]]]].
  - intros tripId. apply selectTrip_hides_everything. exact Hs.
  - unfold step. simpl. unfold exec, tripTextSearchSubmit, get_prop.
    apply (selectTrip_hides_everything s _ Hs).
  - intros data. apply callbackDisplayPatterns_hides_everything. exact Hs.
  - unfold step. destruct (enabled EvZoomEnd s); reflexivity.
  - intros bounds. unfold step. destruct (enabled _ s); [|reflexivity].
    apply overlays_exec. intros k R. apply Framed_fetchStopsInBounds.
  - intros routeId. unfold step. destruct (enabled _ s); [|reflexivity].
    apply overlays_exec. intros k R. apply Framed_selectRoute.
  - intros data. apply callbackDisplayStopsBackground_keeps. exact Hs.
Qed.

(** ** Overlapping requests (claim C7) *)

(** *** A callback leaves the requests in flight as they are *)

Ltac sent_auto :=
  repeat first
    [ keeps_step
    | solve [eauto with sent]
    | (apply keeps_throw; solve [auto])
    | (apply keeps_modify;
       let s := fresh in let Hs := fresh in
       intros s Hs;
       first [ exact Hs
             | unfold sent_before in *; simpl; apply prefix_app_r; exact Hs ]) ].

Create HintDb sent discriminated.

Lemma sent_before_addBackgroundStops R stops oldStopMarkers :
  preserves (sent_before R) (addBackgroundStops stops oldStopMarkers).
Proof.
  revert oldStopMarkers. induction stops as [|stop stops IH]; intros old; simpl.
  - sent_auto.
  - keeps_step; [do 2 unfold_all_script; sent_auto|].
    keeps_step; [unfold_all_script; sent_auto|]. apply IH.
Qed.

#[local] Hint Resolve sent_before_addBackgroundStops : sent.



(** *** The callbacks that do not call [clearMap] keep what is on record *)

Lemma on_record_addStopMarker promote sel bg lines
    stopId stopName stopLat stopLon locationType selected text :
  (selected = true -> promote = true) ->
  preserves (on_record promote sel bg lines)
    (addStopMarker stopId stopName stopLat stopLon locationType selected text).
Proof.
  intros Hp s Hs.
  destruct (stopMarkersSelected (vars s) !! stopId) as [r|] eqn:Hsel.
  - unfold addStopMarker, marker_getText, marker_setText, get_marker, assign_global.
    run_monad. rewrite Hsel.
    destruct (truthy text); simpl; [|exact Hs].
    destruct (markers (mapst s) !! r) as [m|] eqn:Hm; simpl; [|exact Hs].
    destruct (m_label m) eqn:Hl; simpl; [|exact Hs].
    rewrite Hm. simpl. rewrite Hl. exact Hs.
  - destruct Hs as (Hs1 & Hs2 & Hs3).
    assert (forall id r, sel !! id = Some r -> id <> stopId) as Hne.
    { intros id r Hid ->. apply Hs1 in Hid. congruence. }
    destruct (stopMarkersBackground (vars s) !! stopId) as [r|] eqn:Hbg.
    + destruct selected.
      * rewrite (addStopMarker_promote _ _ _ _ _ s r text Hsel Hbg).
        unfold on_record. simpl. split; [|split; [|exact Hs3]].
        -- intros id r0 Hid. rewrite lookup_insert_ne by (intros <-; eapply Hne; eauto).
           apply Hs1. exact Hid.
        -- intros id r0 Hid. destruct (decide (id = stopId)) as [->|Hid'].
           ++ right. split; [auto|]. rewrite lookup_insert_eq. eauto.
           ++ destruct (Hs2 id r0 Hid) as [Hb|[Hpr Hsl]].
              ** left. rewrite lookup_delete_ne by auto. exact Hb.
              ** right. split; [exact Hpr|]. rewrite lookup_insert_ne by auto. exact Hsl.
      * rewrite (addStopMarker_background_hit _ _ _ _ _ s r text Hsel Hbg).
        split; [exact Hs1|split; [exact Hs2|exact Hs3]].
    + rewrite (addStopMarker_fresh _ _ _ _ _ s selected text Hsel Hbg).
      unfold on_record. destruct selected; simpl; (split; [|split; [|exact Hs3]]).
      * intros id r0 Hid. rewrite lookup_insert_ne by (intros <-; eapply Hne; eauto).
        apply Hs1. exact Hid.
      * intros id r0 Hid. destruct (Hs2 id r0 Hid) as [Hb|[Hpr Hsl]]; [left; exact Hb|].
        right. split; [exact Hpr|]. rewrite lookup_insert. case_decide; eauto.
      * exact Hs1.
      * intros id r0 Hid. destruct (Hs2 id r0 Hid) as [Hb|Hr]; [left|right; exact Hr].
        rewrite lookup_insert_ne by congruence. exact Hb.
Qed.

Lemma on_record_expandBoundingBox promote sel bg lines latLng :
  preserves (on_record promote sel bg lines) (expandBoundingBox latLng).
Proof.
  apply keeps_modify. intros s Hs. unfold on_record. simpl.
  destruct (boundsOfPolyLine (vars s)); exact Hs.
Qed.

Create HintDb record discriminated.

#[local] Hint Resolve on_record_expandBoundingBox : record.

Ltac record_auto :=
  repeat first
    [ keeps_step
    | solve [eauto with record]
    | (apply on_record_addStopMarker; solve [discriminate | reflexivity | auto])
    | (apply keeps_throw; solve [auto])
    | (apply keeps_modify;
       let s := fresh in let Hs := fresh in
       intros s Hs;
       first [ exact Hs
             | destruct Hs as (? & ? & ?); split; [assumption|split; [assumption|]];
               simpl; apply prefix_app_r; assumption ]) ].

Ltac unfold_but_markers :=
  unfold run_callback, callbackDisplayStopsBackground,
    callbackChangeStopLocation, callbackSaveData, callbackDisplayStopInfoWindow,
    callbackDisplayRoutes, callbackDisplayTripStopTimes,
    callbackDisplayTripPolyLine, callbackDisplayTripRows, displayTripStopTimes,
    displayPolyLine, browser_fetch, sizeRouteList, addStopMarkerFromList,
    map_fitBounds, set_route_list, console_log,
    marker_setMap_null, get_marker, set_prop, get_prop, read_global, assign_global.

Lemma on_record_addBackgroundStops sel bg lines stops oldStopMarkers :
  preserves (on_record false sel bg lines) (addBackgroundStops stops oldStopMarkers).
Proof.
  revert oldStopMarkers. induction stops as [|stop stops IH]; intros old; simpl.
  - record_auto.
  - keeps_step; [unfold_but_markers; record_auto|].
    keeps_step; [unfold_but_markers; record_auto|]. apply IH.
Qed.

#[local] Hint Resolve on_record_addBackgroundStops : record.


(** *** The callbacks that call [clearMap] leave only what they add *)










(** ** Further properties of the script *)

Import BehaviourNotions.

(** *** Reading times and dates back *)

Lemma elem_of_zrange lo n z : (lo <= z < lo + Z.of_nat n)%Z -> z ∈ zrange lo n.
Proof.
  intros Hz. unfold zrange. apply list_elem_of_fmap.
  exists (Z.to_nat (z - lo)). split; [lia|].
  apply elem_of_seq. lia.
Qed.

Lemma forallb_zrange (P : Z -> bool) lo n z :
  forallb P (zrange lo n) = true -> (lo <= z < lo + Z.of_nat n)%Z -> P z = true.
Proof.
  intros Hall Hz. rewrite forallb_forall in Hall. apply Hall.
  apply list_elem_of_In. apply elem_of_zrange. exact Hz.
Qed.

(** A text that [time_reads] accepts is what [parseTimeInput] returns, and
    the state is as before. *)
Lemma parseTimeInput_reads s text n :
  props (dom s) !! ("timeInput", "value") = Some text ->
  time_reads text n = true ->
  parseTimeInput s = (Ret (JNum n), s).
Proof.
  intros Hprop. unfold time_reads, time_value, parseTimeInput, get_prop. run_monad.
  rewrite Hprop. simpl.
  destruct (Regex.search Regex.time_re text) as [m|]; [|discriminate].
  destruct (truthy (m !! 4)); [discriminate|]. simpl.
  destruct (add _ _) as [k| |]; try discriminate.
  intros Hk. apply Z.eqb_eq in Hk. subst k. reflexivity.
Qed.

Lemma parseDateInput_run s text :
  props (dom s) !! ("startDateInput", "value") = Some text ->
  parseDateInput s = (Ret (if date_matches text then text else ""), s).
Proof.
  intros Hprop. unfold date_matches, parseDateInput, get_prop. run_monad.
  rewrite Hprop. simpl.
  destruct (Regex.search Regex.date_re text); reflexivity.
Qed.

Lemma setStartDate_value s y m d :
  props (dom (exec (setStartDate y m d) s)) !! ("startDateInput", "value")
  = Some (to_string (add (add y (maybeAddLeadingZero m)) (maybeAddLeadingZero d))).
Proof. apply lookup_insert_eq. Qed.

(** Whether a stop id names a member of [Object.prototype] is decided by
    comparing it with the names. *)
Lemma own_key_decided (id : string) :
  bool_decide (id ∉ object_prototype_members) = true -> own_key id.
Proof. intros Hid. apply bool_decide_eq_true in Hid. exact Hid. Qed.

Lemma own_keys_decided (ids : list string) :
  forallb (fun id => bool_decide (id ∉ object_prototype_members)) ids = true ->
  Forall own_key ids.
Proof.
  intros Hids. apply Forall_forall. intros id Hid. apply own_key_decided.
  rewrite forallb_forall in Hids. apply Hids. apply list_elem_of_In. exact Hid.
Qed.

(** X1. What [formatTime] prints for a whole number of minutes below thirty
    hours, [parseTimeInput] reads back as the same number of seconds. *)
Theorem parseTimeInput_reads_formatTime_back (s : State) (t : Z) :
  (0 <= t < 108000)%Z -> (t mod 60 = 0)%Z ->
  props (dom s) !! ("timeInput", "value") = Some (formatTime t) ->
  parseTimeInput s = (Ret (JNum t), s).
Proof.
  intros Ht Hmin Hprop. apply (parseTimeInput_reads s _ t Hprop).
  assert (forallb (fun k => time_reads (formatTime (60 * k)) (60 * k)) (zrange 0 1800) = true)
    as Hall by (vm_compute; reflexivity).
  replace t with (60 * (t / 60))%Z by (pose proof (Z.div_mod t 60); lia).
  apply (forallb_zrange _ 0 1800 (t / 60) Hall).
  split; [apply Z.div_pos; lia|]. simpl. apply Z.div_lt_upper_bound; lia.
Qed.

(** X2. From thirty hours on the round trip fails: the expression is not
    anchored and its hour group takes a first digit only among 0, 1 and 2,
    so the match starts at the second digit of the hour. Between 30:00 and
    99:59 the time read back is the time printed less the tens of
    hours. *)
Theorem parseTimeInput_drops_the_tens_of_hours (s : State) (t : Z) :
  (108000 <= t < 360000)%Z -> (t mod 60 = 0)%Z ->
  props (dom s) !! ("timeInput", "value") = Some (formatTime t) ->
  parseTimeInput s = (Ret (JNum (t mod 36000)), s).
Proof.
  intros Ht Hmin Hprop. apply (parseTimeInput_reads s _ _ Hprop).
  assert (forallb (fun k => time_reads (formatTime (60 * k)) ((60 * k) mod 36000))
            (zrange 1800 4200) = true)
    as Hall by (vm_compute; reflexivity).
  replace t with (60 * (t / 60))%Z by (pose proof (Z.div_mod t 60); lia).
  apply (forallb_zrange _ 1800 4200 (t / 60) Hall).
  split; [apply Z.div_le_lower_bound; lia|]. simpl. apply Z.div_lt_upper_bound; lia.
Qed.

(** X3. On an eight-digit date between 1900 and 2099, [parseDateInput]
    returns the date itself for every year from 2000 on; of the years
    [19YY] it takes only those where [YY] reads as a month (1901 to 1912)
    and 1919, and returns the empty string for the others. The day is not
    checked against the month. *)
Theorem parseDateInput_on_eight_digit_dates (s : State) (y m d : Z) :
  (1900 <= y <= 2099)%Z -> (1 <= m <= 12)%Z -> (1 <= d <= 31)%Z ->
  props (dom s) !! ("startDateInput", "value") = Some (date_text y m d) ->
  parseDateInput s = (Ret (if year_accepted y then date_text y m d else ""), s).
Proof.
  intros Hy Hm Hd Hprop. rewrite (parseDateInput_run s _ Hprop).
  assert (forallb (fun y => forallb (fun m => forallb (fun d =>
            Bool.eqb (date_matches (date_text y m d)) (year_accepted y))
            (zrange 1 31)) (zrange 1 12)) (zrange 1900 200) = true)
    as Hall by (vm_compute; reflexivity).
  apply (forallb_zrange _ 1900 200 y) in Hall; [|lia].
  apply (forallb_zrange _ 1 12 m) in Hall; [|lia].
  apply (forallb_zrange _ 1 31 d) in Hall; [|lia].
  apply Bool.eqb_prop in Hall. rewrite Hall. reflexivity.
Qed.

(** X4. [setStartDate], with the year, month and day as numbers, writes
    the eight-digit date into the start date input exactly when the month
    is below ten and the day is not ten: [maybeAddLeadingZero] returns a
    number above ten (which is then added, not appended) and "010" for
    ten. *)
Theorem setStartDate_writes_the_date_iff (s : State) (y m d : Z) :
  (1900 <= y <= 2099)%Z -> (1 <= m <= 12)%Z -> (1 <= d <= 31)%Z ->
  props (dom (exec (setStartDate (JNum y) m d) s)) !! ("startDateInput", "value")
    = Some (date_text y m d)
  <-> (m <= 9)%Z /\ d <> 10%Z.
Proof.
  intros Hy Hm Hd.
  assert (forallb (fun y => forallb (fun m => forallb (fun d =>
            Bool.eqb
              (String.eqb (to_string (add (add (JNum y) (maybeAddLeadingZero m))
                                          (maybeAddLeadingZero d)))
                          (date_text y m d))
              ((m <=? 9) && negb (d =? 10))%Z)
            (zrange 1 31)) (zrange 1 12)) (zrange 1900 200) = true)
    as Hall by (vm_compute; reflexivity).
  apply (forallb_zrange _ 1900 200 y) in Hall; [|lia].
  apply (forallb_zrange _ 1 12 m) in Hall; [|lia].
  apply (forallb_zrange _ 1 31 d) in Hall; [|lia].
  apply Bool.eqb_prop in Hall.
  rewrite setStartDate_value.
  remember (to_string (add (add (JNum y) (maybeAddLeadingZero m)) (maybeAddLeadingZero d)))
    as v eqn:Hv. clear Hv.
  split.
  - intros Heq. injection Heq as Heq. apply String.eqb_eq in Heq.
    rewrite Heq in Hall. symmetry in Hall. apply andb_prop in Hall as [H1 H2].
    apply Z.leb_le in H1. apply negb_true_iff in H2. apply Z.eqb_neq in H2. auto.
  - intros [H1 H2]. apply Z.leb_le in H1. apply Z.eqb_neq in H2.
    rewrite H1, H2 in Hall. simpl in Hall. apply String.eqb_eq in Hall.
    rewrite Hall. reflexivity.
Qed.

(** *** The range of the time read *)

Lemma consumed_one a s : Regex.consumed (String a s) s = String a "".
Proof.
  unfold Regex.consumed. cbn [String.length].
  replace (S (String.length s) - String.length s) with 1 by lia.
  simpl. destruct s; reflexivity.
Qed.

Lemma consumed_two a d s : Regex.consumed (String a (String d s)) s = String a (String d "").
Proof.
  unfold Regex.consumed. cbn [String.length].
  replace (S (S (String.length s)) - String.length s) with 2 by lia.
  simpl. destruct s; reflexivity.
Qed.

(** A match of a group [[cs]?\d] hands its continuation the capture of one
    or two characters. *)
Lemma rmatch_two_digits {R} n cs s caps (k : string -> Regex.captures -> option R) x :
  Regex.rmatch (Regex.RGroup n (Regex.RSeq (Regex.ROpt (Regex.RSet cs)) Regex.RDigit))
    s caps k = Some x ->
  exists s1 t, k s1 (<[n := t]> caps) = Some x /\ two_digits cs t.
Proof.
  cbn [Regex.rmatch]. destruct s as [|a s]; [discriminate|].
  destruct (existsb (Ascii.eqb a) cs) eqn:Ha.
  - destruct s as [|d s].
    + destruct (is_digit a) eqn:Hda; [|discriminate].
      rewrite consumed_one. intros Hk. exists "", (String a ""). split; [exact Hk|].
      left. eauto.
    + destruct (is_digit d) eqn:Hd.
      * rewrite consumed_two.
        destruct (k s (<[n := String a (String d "")]> caps)) as [y|] eqn:Hk.
        -- intros [= <-]. exists s, (String a (String d "")). split; [exact Hk|].
           right. eauto.
        -- destruct (is_digit a) eqn:Hda; [|discriminate].
           rewrite consumed_one. intros Hk1. eexists _, _. split; [exact Hk1|].
           left. eauto.
      * destruct (is_digit a) eqn:Hda; [|discriminate].
        rewrite consumed_one. intros Hk1. eexists _, _. split; [exact Hk1|].
        left. eauto.
  - destruct (is_digit a) eqn:Hda; [|discriminate].
    rewrite consumed_one. intros Hk1. eexists _, _. split; [exact Hk1|]. left. eauto.
Qed.

Lemma rmatch_seq {R} r1 r2 s caps (k : string -> Regex.captures -> option R) :
  Regex.rmatch (Regex.RSeq r1 r2) s caps k
  = Regex.rmatch r1 s caps (fun s1 c1 => Regex.rmatch r2 s1 c1 k).
Proof. reflexivity. Qed.

Lemma rmatch_char {R} c s caps (k : string -> Regex.captures -> option R) :
  Regex.rmatch (Regex.RChar c) s caps k
  = match s with
    | String a s' => if Ascii.eqb a c then k s' caps else None
    | EmptyString => None
    end.
Proof. destruct s; reflexivity. Qed.

Lemma rmatch_opt {R} r s caps (k : string -> Regex.captures -> option R) :
  Regex.rmatch (Regex.ROpt r) s caps k
  = match Regex.rmatch r s caps k with
    | Some x => Some x
    | None => k s caps
    end.
Proof. reflexivity. Qed.

Lemma rmatch_group {R} n r s caps (k : string -> Regex.captures -> option R) :
  Regex.rmatch (Regex.RGroup n r) s caps k
  = Regex.rmatch r s caps (fun s1 c1 => k s1 (<[n := Regex.consumed s s1]> c1)).
Proof. reflexivity. Qed.

(** The captures of a match of the time expression: the groups 1 and 2
    hold the hours and the minutes. *)
Lemma time_re_captures s c :
  Regex.rmatch Regex.time_re s ∅ (fun _ c => Some c) = Some c ->
  exists h m, c !! 1 = Some h /\ c !! 2 = Some m /\
              two_digits (list_ascii_of_string "012") h /\
              two_digits (list_ascii_of_string "012345") m.
Proof.
  unfold Regex.time_re, Regex.set. rewrite rmatch_seq. intros Hmatch.
  apply (rmatch_two_digits 1) in Hmatch as (s1 & h & Hmatch & Hh).
  rewrite rmatch_seq, rmatch_char in Hmatch.
  destruct s1 as [|colon s1]; [discriminate|].
  destruct (Ascii.eqb colon ":"); [|discriminate].
  rewrite rmatch_seq in Hmatch.
  apply (rmatch_two_digits 2) in Hmatch as (s2 & m & Hmatch & Hm).
  exists h, m.
  assert (c = <[2 := m]> (<[1 := h]> ∅) \/
          exists t3 t4, c = <[3 := t3]> (<[4 := t4]> (<[2 := m]> (<[1 := h]> ∅)))) as Hc.
  { rewrite rmatch_opt in Hmatch.
    match type of Hmatch with
    | match ?e with Some _ => _ | None => _ end = _ => destruct e as [y|] eqn:Hsec
    end; [|injection Hmatch as <-; auto].
    injection Hmatch as ->.
    rewrite rmatch_group, rmatch_seq, rmatch_char in Hsec.
    destruct s2 as [|colon2 s2]; [discriminate|].
    destruct (Ascii.eqb colon2 ":"); [|discriminate].
    apply (rmatch_two_digits 4) in Hsec as (s3 & t4 & Hsec & _).
    injection Hsec as <-. right. eauto. }
  destruct Hc as [->|(t3 & t4 & ->)].
  - rewrite lookup_insert_ne by discriminate. rewrite !lookup_insert_eq. auto.
  - rewrite !(lookup_insert_ne _ 3), !(lookup_insert_ne _ 4) by discriminate.
    rewrite lookup_insert_ne by discriminate. rewrite !lookup_insert_eq. auto.
Qed.

Lemma search_time_re_captures text c :
  Regex.search Regex.time_re text = Some c ->
  exists h m, c !! 1 = Some h /\ c !! 2 = Some m /\
              two_digits (list_ascii_of_string "012") h /\
              two_digits (list_ascii_of_string "012345") m.
Proof.
  induction text as [|a text IH].
  - change (Regex.search Regex.time_re "")
      with (match Regex.rmatch Regex.time_re "" ∅ (fun _ c => Some c) with
            | Some c => Some c
            | None => None
            end).
    destruct (Regex.rmatch Regex.time_re "" ∅ _) as [c0|] eqn:Hm; [|discriminate].
    intros [= <-]. apply (time_re_captures _ _ Hm).
  - change (Regex.search Regex.time_re (String a text))
      with (match Regex.rmatch Regex.time_re (String a text) ∅ (fun _ c => Some c) with
            | Some c => Some c
            | None => Regex.search Regex.time_re text
            end).
    destruct (Regex.rmatch Regex.time_re (String a text) ∅ _) as [c0|] eqn:Hm; [|exact IH].
    intros [= <-]. apply (time_re_captures _ _ Hm).
Qed.

Lemma digit_value_range d : is_digit d = true -> (0 <= digit_value d <= 9)%Z.
Proof.
  unfold is_digit, digit_value. intros Hd. apply andb_prop in Hd as [H1 H2].
  apply Nat.leb_le in H1, H2. lia.
Qed.

(** The number [parseInt] reads from such a capture. *)
Lemma parseInt10_two_digits cs t (bound : Z) :
  two_digits cs t ->
  (forall a, existsb (Ascii.eqb a) cs = true ->
             is_digit a = true /\ (digit_value a <= bound)%Z) ->
  exists n, parseInt10 t = JNum n /\ (0 <= n <= 10 * Z.max 0 bound + 9)%Z.
Proof.
  intros [(d & -> & Hd)|(a & d & -> & Ha & Hd)] Hcs.
  - exists (digit_value d). unfold parseInt10. simpl. rewrite Hd.
    apply digit_value_range in Hd. split; [reflexivity|lia].
  - destruct (Hcs a Ha) as [Hda Hle]. exists (10 * digit_value a + digit_value d)%Z.
    unfold parseInt10. simpl. rewrite Hda, Hd.
    apply digit_value_range in Hd, Hda. split; [reflexivity|lia].
Qed.

(** X5. Whatever the text of the time input, when it holds no seconds
    field [parseTimeInput] returns, and what it returns is the empty string
    (no match) or a number of seconds [h * 3600 + m * 60] with [h] at most
    29 and [m] at most 59: never [NaN], never a negative number. The state
    is as before. *)
Theorem parseTimeInput_returns_a_time_of_day (s : State) :
  time_has_seconds s = false ->
  exists v,
    parseTimeInput s = (Ret v, s) /\
    (v = JStr "" \/
     exists h m, v = JNum (h * 3600 + m * 60) /\ (0 <= h <= 29)%Z /\ (0 <= m <= 59)%Z).
Proof.
  unfold time_has_seconds, parseTimeInput, get_prop. run_monad.
  destruct (Regex.search _ _) as [c|] eqn:Hsearch.
  - intros ->. simpl. eexists. split; [reflexivity|]. right.
    apply search_time_re_captures in Hsearch as (h & m & -> & -> & Hh & Hm). simpl.
    destruct (parseInt10_two_digits _ h 2 Hh) as (nh & -> & Hnh).
    { intros a Ha. simpl in Ha. rewrite !orb_true_iff in Ha.
      destruct Ha as [Ha|[Ha|[Ha|Ha]]]; try discriminate;
        apply Ascii.eqb_eq in Ha; subst a; split; vm_compute; congruence. }
    destruct (parseInt10_two_digits _ m 5 Hm) as (nm & -> & Hnm).
    { intros a Ha. simpl in Ha. rewrite !orb_true_iff in Ha.
      destruct Ha as [Ha|[Ha|[Ha|[Ha|[Ha|[Ha|Ha]]]]]]; try discriminate;
        apply Ascii.eqb_eq in Ha; subst a; split; vm_compute; congruence. }
    exists nh, nm. simpl. split; [reflexivity|]. lia.
  - intros _. simpl. eexists. split; [reflexivity|]. left. reflexivity.
Qed.

(** *** Text around a date *)

Lemma string_app_cons a s t : String a s +:+ t = String a (s +:+ t).
Proof. reflexivity. Qed.

Lemma string_length_app s t : String.length (s +:+ t) = String.length s + String.length t.
Proof.
  induction s as [|a s IH]; [reflexivity|].
  rewrite string_app_cons. cbn [String.length]. rewrite IH. reflexivity.
Qed.

Lemma substring_app n s t :
  n <= String.length s -> substring 0 n (s +:+ t) = substring 0 n s.
Proof.
  revert n. induction s as [|a s IH]; intros n Hn.
  - cbn [String.length] in Hn. replace n with 0 by lia. destruct t; reflexivity.
  - rewrite string_app_cons. destruct n as [|n]; [reflexivity|].
    cbn [substring]. rewrite IH; [reflexivity|]. cbn [String.length] in Hn. lia.
Qed.

(** What a group captures does not depend on the text after the match. *)
Lemma consumed_app s s1 post :
  String.length s1 <= String.length s ->
  Regex.consumed (s +:+ post) (s1 +:+ post) = Regex.consumed s s1.
Proof.
  intros Hle. unfold Regex.consumed. rewrite !string_length_app.
  replace (String.length s + String.length post - (String.length s1 + String.length post))
    with (String.length s - String.length s1) by lia.
  apply substring_app. lia.
Qed.

(** A match is still found when text follows. *)
Lemma rmatch_app {R} post r s caps (k k' : string -> Regex.captures -> option R) :
  (forall s1 c, String.length s1 <= String.length s ->
                is_Some (k s1 c) -> is_Some (k' (s1 +:+ post) c)) ->
  is_Some (Regex.rmatch r s caps k) ->
  is_Some (Regex.rmatch r (s +:+ post) caps k').
Proof.
  revert s caps k k'.
  induction r as [c|cs| |r1 IH1 r2 IH2|r1 IH1 r2 IH2|r1 IH1|n r1 IH1];
    intros s caps k k' Hk; cbn [Regex.rmatch].
  - destruct s as [|a s]; [intros [? [=]]|]. rewrite string_app_cons.
    destruct (Ascii.eqb a c); [|intros [? [=]]]. apply Hk. cbn [String.length]. lia.
  - destruct s as [|a s]; [intros [? [=]]|]. rewrite string_app_cons.
    destruct (existsb (Ascii.eqb a) cs); [|intros [? [=]]]. apply Hk.
    cbn [String.length]. lia.
  - destruct s as [|a s]; [intros [? [=]]|]. rewrite string_app_cons.
    destruct (is_digit a); [|intros [? [=]]]. apply Hk. cbn [String.length]. lia.
  - apply IH1. intros s1 c Hle. apply IH2. intros s2 c2 Hle2. apply Hk. lia.
  - destruct (Regex.rmatch r1 s caps k) as [y|] eqn:H1.
    + intros _.
      destruct (IH1 s caps k k' Hk) as [y' Hy']; [rewrite H1; eauto|].
      rewrite Hy'. eauto.
    + intros H2. destruct (Regex.rmatch r1 (s +:+ post) caps k'); [eauto|].
      apply (IH2 s caps k k' Hk H2).
  - destruct (Regex.rmatch r1 s caps k) as [y|] eqn:H1.
    + intros _.
      destruct (IH1 s caps k k' Hk) as [y' Hy']; [rewrite H1; eauto|].
      rewrite Hy'. eauto.
    + intros H2. destruct (Regex.rmatch r1 (s +:+ post) caps k'); [eauto|].
      apply Hk; [lia|exact H2].
  - apply IH1. intros s1 c Hle. rewrite consumed_app by exact Hle. apply Hk. exact Hle.
Qed.

Lemma search_unfold r s :
  Regex.search r s
  = match Regex.rmatch r s ∅ (fun _ c => Some c) with
    | Some c => Some c
    | None => match s with String _ s' => Regex.search r s' | EmptyString => None end
    end.
Proof. destruct s; reflexivity. Qed.

Lemma search_app_r r s post :
  is_Some (Regex.search r s) -> is_Some (Regex.search r (s +:+ post)).
Proof.
  induction s as [|a s IH]; rewrite (search_unfold r (_ +:+ post)), search_unfold.
  - destruct (Regex.rmatch r "" ∅ _) as [c|] eqn:Hm; [|intros [? [=]]]. intros _.
    destruct (rmatch_app post r "" ∅ (fun _ c => Some c) (fun _ c => Some c)) as [c' Hc'];
      [eauto|rewrite Hm; eauto|].
    rewrite Hc'. eauto.
  - destruct (Regex.rmatch r (String a s) ∅ _) as [c|] eqn:Hm.
    + intros _.
      destruct (rmatch_app post r (String a s) ∅ (fun _ c => Some c) (fun _ c => Some c))
        as [c' Hc']; [eauto|rewrite Hm; eauto|].
      rewrite Hc'. eauto.
    + intros Hs. destruct (Regex.rmatch r (String a s +:+ post) ∅ _); [eauto|].
      rewrite string_app_cons. apply IH. exact Hs.
Qed.

Lemma search_app_l r pre s :
  is_Some (Regex.search r s) -> is_Some (Regex.search r (pre +:+ s)).
Proof.
  intros Hs. induction pre as [|a pre IH]; [exact Hs|].
  rewrite string_app_cons, search_unfold.
  destruct (Regex.rmatch r (String a (pre +:+ s)) ∅ _); [eauto|exact IH].
Qed.

(** X6. [parseDateInput] does not check the text around a date: the
    expression is not anchored, so any text that contains a text it
    accepts is accepted too, and is returned whole, as it goes into the
    URLs of [fetchStopInfoWindow] and [fetchPatterns]. *)
Theorem parseDateInput_accepts_any_text_with_a_date (s : State) (before date after : string) :
  date_matches date = true ->
  props (dom s) !! ("startDateInput", "value") = Some (before +:+ date +:+ after) ->
  parseDateInput s = (Ret (before +:+ date +:+ after), s).
Proof.
  intros Hdate Hprop. rewrite (parseDateInput_run s _ Hprop).
  assert (is_Some (Regex.search Regex.date_re (before +:+ date +:+ after))) as [c Hc].
  { apply search_app_l, search_app_r. unfold date_matches in Hdate.
    destruct (Regex.search Regex.date_re date); [eauto|discriminate]. }
  unfold date_matches. rewrite Hc. reflexivity.
Qed.

(** *** Markers of stops already on record *)

Lemma record_marker_selected_lookup s m :
  stopMarkersSelected (vars (record_marker true m s)) !! m_stopId m
  = Some (length (markers (mapst s))).
Proof. apply lookup_insert_eq. Qed.

(** X7. A stop on record keeps its marker. After [addStopMarker] for a stop
    without a text, a further call for the same stop id returns the marker
    of the first call and leaves the state as it is, whatever name,
    position and location type it passes, provided it does not select a
    stop that the first call put in the background. *)
Theorem addStopMarker_again_returns_the_same_marker
    (s : State) (stopId name1 name2 : string) (lat1 lon1 lat2 lon2 : Coord)
    (type1 type2 : Z) (selected1 selected2 : bool) :
  implb selected2 selected1 = true ->
  exists r s1,
    addStopMarker stopId name1 lat1 lon1 type1 selected1 None s = (Ret r, s1) /\
    addStopMarker stopId name2 lat2 lon2 type2 selected2 None s1 = (Ret r, s1).
Proof.
  intros Himp.
  destruct (stopMarkersSelected (vars s) !! stopId) as [r|] eqn:Hsel.
  { exists r, s. split; apply addStopMarker_selected_hit; exact Hsel. }
  destruct (stopMarkersBackground (vars s) !! stopId) as [r|] eqn:Hbg.
  - destruct selected1.
    + eexists _, _. split; [apply addStopMarker_promote; eassumption|].
      apply addStopMarker_selected_hit. apply lookup_insert_eq.
    + destruct selected2; [discriminate|].
      exists r, s. split; apply addStopMarker_background_hit; assumption.
  - destruct selected1.
    + eexists _, _. split; [apply addStopMarker_fresh; assumption|].
      apply addStopMarker_selected_hit. apply lookup_insert_eq.
    + destruct selected2; [discriminate|].
      eexists _, _. split; [apply addStopMarker_fresh; assumption|].
      apply addStopMarker_background_hit; [exact Hsel|apply lookup_insert_eq].
Qed.

(** *** Background stops that drop out of an answer *)

Section BackgroundRecord.

Variables (off : bool) (id : string) (r : nat).

Lemma background_record_addStopMarkerFromList stop :
  preserves (background_record off id r) (addStopMarkerFromList stop false None).
Proof.
  intros s [Hbg (m & Hm & Hoff)]. unfold addStopMarkerFromList.
  destruct (stopMarkersSelected (vars s) !! sr_stopId stop) as [r1|] eqn:Hsel1.
  { rewrite (addStopMarker_selected_hit _ _ _ _ _ s r1 false Hsel1).
    split; [exact Hbg|eauto]. }
  destruct (stopMarkersBackground (vars s) !! sr_stopId stop) as [r1|] eqn:Hbg1.
  { rewrite (addStopMarker_background_hit _ _ _ _ _ s r1 None Hsel1 Hbg1).
    split; [exact Hbg|eauto]. }
  rewrite (addStopMarker_fresh _ _ _ _ _ s false None Hsel1 Hbg1).
  split; simpl.
  - rewrite lookup_insert_ne; [exact Hbg|]. intros Heq. congruence.
  - exists m. split; [|exact Hoff].
    rewrite lookup_app_l; [exact Hm|]. eapply lookup_lt_Some. exact Hm.
Qed.

Lemma background_record_marker_setMap_null r0 :
  preserves (background_record off id r) (marker_setMap_null r0).
Proof.
  apply keeps_modify. intros s [Hbg (m & Hm & Hoff)]. split; [exact Hbg|]. simpl.
  destruct (decide (r0 = r)) as [->|Hne].
  - exists (set_m_map false m). rewrite list_lookup_alter_eq, Hm. split; reflexivity.
  - exists m. rewrite list_lookup_alter_ne by exact Hne. split; assumption.
Qed.

Lemma background_record_get_marker r0 :
  preserves (background_record off id r) (get_marker r0).
Proof.
  unfold get_marker. keeps_step. keeps_step; [keeps_step|apply keeps_throw; auto].
Qed.

Lemma background_record_addBackgroundStops stops oldStopMarkers :
  preserves (background_record off id r) (addBackgroundStops stops oldStopMarkers).
Proof.
  revert oldStopMarkers. induction stops as [|stop stops IH]; intros old; simpl.
  - keeps_step.
  - keeps_step; [apply background_record_addStopMarkerFromList|].
    keeps_step; [apply background_record_get_marker|]. apply IH.
Qed.

(** A background refresh never takes a stop off the record, and never puts
    a marker back on the map. *)
Lemma background_record_callbackDisplayStopsBackground data responseCode :
  preserves (background_record off id r) (callbackDisplayStopsBackground data responseCode).
Proof.
  unfold callbackDisplayStopsBackground. keeps_step; [keeps_step|].
  cbv zeta. keeps_step.
  keeps_step; [apply background_record_addBackgroundStops|].
  keeps_step. apply background_record_marker_setMap_null.
Qed.

End BackgroundRecord.

Lemma refresh_background_keeps answers id r s :
  Inv s -> background_record true id r s ->
  Inv (refresh_background answers s) /\
  background_record true id r (refresh_background answers s).
Proof.
  revert s. induction answers as [|data answers IH]; intros s Hs Hrec; [auto|].
  apply IH.
  - apply preserves_exec; [apply Inv_callbackDisplayStopsBackground|exact Hs].
  - apply preserves_exec;
      [apply background_record_callbackDisplayStopsBackground|exact Hrec].
Qed.

(** X8. A background stop that drops out of an answer is not shown again by
    later answers, even by one that lists it: the callback takes its marker
    off the map but leaves it in [stopMarkersBackground], so that
    [addStopMarker] finds the stop on record and returns the hidden marker.
    After the answer [data], which lacks the stop, and any further
    answers, the stop is still on record and no marker of it is on the
    map. *)
Theorem dropped_background_stop_is_not_shown_again
    (s : State) (id : string) (r : nat) (data : string) (answers : list string) :
  reachable s ->
  stopMarkersBackground (vars s) !! id = Some r ->
  id ∉ stop_ids (eval_stops data) ->
  let s' := refresh_background (data :: answers) s in
  stopMarkersBackground (vars s') !! id = Some r /\
  forall r' m, markers (mapst s') !! r' = Some m -> m_stopId m = id -> m_map m = false.
Proof.
  intros Hreach Hbg Hnew s'. apply Inv_reachable in Hreach as Hs.
  set (s1 := exec (callbackDisplayStopsBackground data 200) s).
  assert (Inv s1) as Hs1
    by (apply preserves_exec; [apply Inv_callbackDisplayStopsBackground|exact Hs]).
  destruct Hs as [HT Hreq Hsec Hdiv].
  destruct (tr_bg _ _ _ _ _ HT id r Hbg) as (m & Hm & Hmid).
  assert (background_record true id r s1) as Hrec1.
  { assert (background_record false id r s1) as [Hbg1 (m1 & Hm1 & _)].
    { apply preserves_exec; [apply background_record_callbackDisplayStopsBackground|].
      split; [exact Hbg|]. exists m. split; [exact Hm|discriminate]. }
    destruct (m_map m) eqn:Hshown.
    - split; [exact Hbg1|]. exists m1. split; [exact Hm1|]. intros _.
      destruct (m_map m1) eqn:Hshown1; [|reflexivity]. exfalso.
      destruct (callbackDisplayStopsBackground_keeps s data) as (_ & _ & Hiff).
      { constructor; assumption. }
      assert (marker_shown s1 r) as Hcases by (exists m1; split; assumption).
      apply (Hiff r m Hm Hshown) in Hcases.
      rewrite Hmid in Hcases. destruct Hcases as [Hsel|Hin]; [|contradiction].
      apply (tr_disjoint _ _ _ _ _ HT) in Hsel. congruence.
    - apply preserves_exec; [apply background_record_callbackDisplayStopsBackground|].
      split; [exact Hbg|]. exists m. split; [exact Hm|]. intros _. exact Hshown. }
  destruct (refresh_background_keeps answers id r s1 Hs1 Hrec1)
    as [[HT' _ _ _] [Hbg' (m' & Hm' & Hoff')]].
  change (refresh_background answers s1) with s' in *.
  split; [exact Hbg'|].
  intros r' m0 Hm0 Hid0. destruct (m_map m0) eqn:Hshown0; [|reflexivity]. exfalso.
  destruct (tr_shown _ _ _ _ _ HT' r' m0 Hm0 Hshown0) as [Hsel|Hbg0]; rewrite Hid0 in *.
  - apply (tr_disjoint _ _ _ _ _ HT') in Hsel. congruence.
  - assert (r' = r) as -> by congruence.
    rewrite Hm' in Hm0. injection Hm0 as <-. rewrite Hoff' in Hshown0; [discriminate|reflexivity].
Qed.

(** *** The route list *)

Lemma for_each_appends_containers {A} (f : A -> M unit) (g : A -> RouteContainer) rows s :
  (forall row s, f row s
     = (Ret tt, with_dom (set_routeList (routeList (dom s) ++ [g row])) s)) ->
  for_each f rows s
  = (Ret tt, with_dom (set_routeList (routeList (dom s) ++ (g <$> rows))) s).
Proof.
  intros Hf. revert s. induction rows as [|row rows IH]; intros s; simpl.
  - destruct s as [? ? [] ?]. unfold with_dom, set_routeList. simpl.
    rewrite app_nil_r. reflexivity.
  - unfold mbind, M_bind, bind. rewrite Hf, IH. simpl.
    rewrite <- app_assoc. reflexivity.
Qed.

(** X9. On a 200 answer [callbackDisplayRoutes] returns and replaces the
    route list, whatever it held, by one container per row of the answer,
    in the order of the answer, none of them highlighted and none with a
    trip section; [selectedRoute], the static elements, the map and the
    requests are as before. *)
Theorem callbackDisplayRoutes_rebuilds_the_route_list (data : string) (s : State) :
  exists s',
    callbackDisplayRoutes data 200 s = (Ret tt, s') /\
    routeList (dom s') = route_container <$> eval_routes data /\
    highlighted (routeList (dom s')) = 0 /\
    selectedRoute (vars s') = selectedRoute (vars s) /\
    props (dom s') = props (dom s) /\ mapst s' = mapst s /\ net s' = net s.
Proof.
  unfold callbackDisplayRoutes. simpl.
  unfold mbind, M_bind, bind, mret, M_ret, ret, set_route_list, assign_global, modify.
  simpl.
  erewrite (for_each_appends_containers _ route_container); [|intros row s0; reflexivity].
  eexists. split; [reflexivity|]. simpl. repeat split.
  induction (eval_routes data) as [|row rows IH]; [reflexivity|exact IH].
Qed.

Lemma update_first_split {A} (f : A -> option A) l l' :
  update_first f l = Some l' ->
  exists pre c c' post, l = pre ++ c :: post /\ l' = pre ++ c' :: post /\ f c = Some c'.
Proof.
  revert l'. induction l as [|x l IH]; intros l'; simpl; [discriminate|].
  destruct (f x) as [y|] eqn:Hx.
  - intros [= <-]. exists [], x, y, l. auto.
  - destruct (update_first f l) as [l0|]; [|discriminate]. intros [= <-].
    destruct (IH l0 eq_refl) as (pre & c & c' & post & -> & -> & Hc).
    exists (x :: pre), c, c', post. auto.
Qed.

Lemma highlighted_app l1 l2 : highlighted (l1 ++ l2) = highlighted l1 + highlighted l2.
Proof. apply sum_list_with_app. Qed.

Lemma highlighted_zero_elem l c :
  highlighted l = 0 -> c ∈ l ->
  String.eqb (rc_containerClass c) "routeChoiceSelected" = false /\
  String.eqb (rc_elemClass c) "routeChoiceSelected" = false.
Proof.
  induction l as [|x l IH]; intros Hz Hc; [inversion Hc|].
  unfold highlighted in Hz. simpl in Hz. apply elem_of_cons in Hc as [->|Hc].
  - destruct (String.eqb (rc_containerClass x) _); [simpl in Hz; lia|].
    destruct (String.eqb (rc_elemClass x) _); [simpl in Hz; lia|]. auto.
  - apply IH; [|exact Hc]. unfold highlighted. lia.
Qed.

(** [selectRoute] first takes the class off every div that carries it. *)
Lemma highlighted_reset l :
  highlighted
    (map (fun c =>
       let c := if String.eqb (rc_containerClass c) "routeChoiceSelected"
                then set_rc_containerClass "routeChoice" c else c in
       if String.eqb (rc_elemClass c) "routeChoiceSelected"
       then set_rc_elemClass "routeChoice" c else c) l) = 0.
Proof.
  induction l as [|c l IH]; [reflexivity|].
  unfold highlighted in *. cbn [map sum_list_with]. rewrite IH. cbv zeta.
  destruct (String.eqb (rc_containerClass c) "routeChoiceSelected") eqn:Hc;
    destruct (String.eqb (rc_elemClass c) "routeChoiceSelected") eqn:He;
    simpl; rewrite ?Hc, ?He; simpl; try rewrite He; reflexivity.
Qed.

Lemma highlighted_update_first (f : RouteContainer -> option RouteContainer) l l' :
  (forall c c', f c = Some c' ->
     rc_containerClass c' = rc_containerClass c /\ rc_elemClass c' = rc_elemClass c) ->
  update_first f l = Some l' -> highlighted l' = highlighted l.
Proof.
  intros Hf Hl. apply update_first_split in Hl as (pre & c & c' & post & -> & -> & Hc).
  apply Hf in Hc as [H1 H2]. rewrite !highlighted_app. unfold highlighted. simpl.
  rewrite H1, H2. reflexivity.
Qed.

Lemma highlighted_update_tripInfo f l l' :
  update_tripInfo f l = Some l' -> highlighted l' = highlighted l.
Proof.
  apply highlighted_update_first. intros c c'.
  destruct (rc_elemTripInfos c); [|intros [= <-]; split; reflexivity].
  destruct (rc_tripInfos c); [discriminate|intros [= <-]; split; reflexivity].
Qed.

(** Then it gives the class to the one element found under the id of the
    route. *)
Lemma highlight_one routeId l l' :
  highlighted l = 0 ->
  update_route_by_id ("route_" +:+ routeId)
    (set_rc_containerClass "routeChoiceSelected")
    (set_rc_elemClass "routeChoiceSelected") l = Some l' ->
  highlighted l' = 1 /\
  (forall c, c ∈ l' -> rc_elemClass c = "routeChoiceSelected" -> rc_routeId c = routeId) /\
  (forall c, c ∈ l' -> rc_containerClass c = "routeChoiceSelected" ->
             routeId = "container_" +:+ rc_routeId c).
Proof.
  intros Hz Hl. apply update_first_split in Hl as (pre & c & c' & post & -> & -> & Hc).
  assert (forall x, x ∈ pre ++ post ->
            String.eqb (rc_containerClass x) "routeChoiceSelected" = false /\
            String.eqb (rc_elemClass x) "routeChoiceSelected" = false) as Hrest.
  { intros x Hx. apply (highlighted_zero_elem _ x Hz).
    rewrite elem_of_app, elem_of_cons. rewrite elem_of_app in Hx. tauto. }
  destruct (highlighted_zero_elem _ c Hz) as [Hcc Hce].
  { rewrite elem_of_app, elem_of_cons. tauto. }
  rewrite !highlighted_app in *. unfold highlighted in *.
  cbn [sum_list_with] in *. rewrite Hcc, Hce in Hz. simpl in Hz.
  cbv beta in Hc.
  assert (forall x, x ∈ pre ++ c' :: post -> x = c' \/ x ∈ pre ++ post) as Hin.
  { intros x. rewrite !elem_of_app, elem_of_cons. tauto. }
  destruct (String.eqb (container_id c) ("route_" +:+ routeId)) eqn:Hcid.
  - injection Hc as <-. simpl. rewrite Hce. simpl. split; [lia|]. split.
    + intros x Hx Hsel. apply Hin in Hx as [->|Hx].
      * simpl in Hsel. rewrite Hsel in Hce. discriminate.
      * apply Hrest in Hx as [_ Hx]. rewrite Hsel in Hx. discriminate.
    + intros x Hx Hsel. apply Hin in Hx as [->|Hx].
      * simpl. apply String.eqb_eq in Hcid. unfold container_id in Hcid.
        simpl in Hcid. injection Hcid as Hcid. symmetry. exact Hcid.
      * apply Hrest in Hx as [Hx _]. rewrite Hsel in Hx. discriminate.
  - destruct (String.eqb (elem_id c) ("route_" +:+ routeId)) eqn:Heid; [|discriminate].
    injection Hc as <-. simpl. rewrite Hcc. simpl. split; [lia|]. split.
    + intros x Hx Hsel. apply Hin in Hx as [->|Hx].
      * simpl. apply String.eqb_eq in Heid. unfold elem_id in Heid.
        simpl in Heid. injection Heid as Heid. exact Heid.
      * apply Hrest in Hx as [_ Hx]. rewrite Hsel in Hx. discriminate.
    + intros x Hx Hsel. apply Hin in Hx as [->|Hx].
      * simpl in Hsel. rewrite Hsel in Hcc. discriminate.
      * apply Hrest in Hx as [Hx _]. rewrite Hsel in Hx. discriminate.
Qed.

Lemma fetchPatterns_routeList routeId s :
  routeList (dom (snd (fetchPatterns routeId s))) = routeList (dom s).
Proof.
  assert (preserves (fun s0 => routeList (dom s0) = routeList (dom s))
            (fetchPatterns routeId)) as Hkeep.
  { unfold fetchPatterns, parseTimeInput, parseDateInput, get_prop, read_global,
      assign_global, downloadUrl, console_log. frame_steps. }
  apply (preserves_exec _ _ s Hkeep). reflexivity.
Qed.

(** X10. After [selectRoute] for a route of the list, exactly one div of the
    list carries the class [routeChoiceSelected], whether the request for
    the patterns went out or not. An elem that carries it is the elem of
    the route. A container carries it only when the id of the route is
    ["container_"] followed by the id of that container's route: the ids
    ["route_" + routeId] of the elems and ["route_container_" + routeId] of
    the containers then coincide, and [getElementById] finds the
    container. *)
Theorem selectRoute_highlights_one_div (s : State) (routeId : string) :
  has_route routeId (routeList (dom s)) = true ->
  let l := routeList (dom (exec (selectRoute routeId) s)) in
  highlighted l = 1 /\
  (forall c, c ∈ l -> rc_elemClass c = "routeChoiceSelected" -> rc_routeId c = routeId) /\
  (forall c, c ∈ l -> rc_containerClass c = "routeChoiceSelected" ->
             routeId = "container_" +:+ rc_routeId c).
Proof.
  intros Hroute. unfold exec, selectRoute, set_route_list.
  unfold mbind, M_bind, bind, get, assign_global, modify. simpl.
  match goal with |- context [update_tripInfo ?f (map ?g ?l)] =>
    assert (has_route routeId (map g l) = true) as Hroute1
      by (rewrite has_route_map; [exact Hroute|];
          intros c; destruct (String.eqb (rc_containerClass c) _);
          simpl; destruct (String.eqb _ _); reflexivity);
    assert (highlighted (map g l) = 0) as Hz1 by exact (highlighted_reset l);
    destruct (update_tripInfo f (map g l)) as [l1|] eqn:Hl1
  end; simpl.
  - assert (has_route routeId l1 = true) as Hroute2.
    { unfold update_tripInfo in Hl1. erewrite has_route_update_first; [exact Hroute1| |exact Hl1].
      intros c c'. simpl. destruct (rc_elemTripInfos c); [|intros [= <-]; reflexivity].
      destruct (rc_tripInfos c); [discriminate|intros [= <-]; reflexivity]. }
    apply highlighted_update_tripInfo in Hl1. rewrite Hz1 in Hl1.
    destruct (update_route_by_id_finds routeId
                (set_rc_containerClass "routeChoiceSelected")
                (set_rc_elemClass "routeChoiceSelected") l1 Hroute2) as [l2 Hl2].
    pose proof (highlight_one routeId l1 l2 Hl1 Hl2) as Hone.
    simpl in Hl2. rewrite Hl2. simpl. rewrite fetchPatterns_routeList. exact Hone.
  - destruct (update_route_by_id_finds routeId
                (set_rc_containerClass "routeChoiceSelected")
                (set_rc_elemClass "routeChoiceSelected") _ Hroute1) as [l2 Hl2].
    pose proof (highlight_one routeId _ l2 Hz1 Hl2) as Hone.
    simpl in Hl2. rewrite Hl2. simpl. rewrite fetchPatterns_routeList. exact Hone.
Qed.

(** *** The text of a dictionary *)

Lemma string_app_assoc (a b c : string) : (a +:+ b) +:+ c = a +:+ (b +:+ c).
Proof.
  induction a as [|x a IH]; [reflexivity|].
  change (String x ((a +:+ b) +:+ c) = String x (a +:+ (b +:+ c))). f_equal. exact IH.
Qed.

Lemma string_app_empty_r (a : string) : a +:+ "" = a.
Proof.
  induction a as [|x a IH]; [reflexivity|].
  change (String x (a +:+ "") = String x a). f_equal. exact IH.
Qed.

Lemma formatDictionary_loop d acc :
  fst (fold_left (fun (acc : string * bool) (kv : string * string) =>
         let output := if acc.2 then acc.1 else acc.1 +:+ "&nbsp;&nbsp; " in
         (output +:+ "<b>" +:+ kv.1 +:+ "</b>=" +:+ kv.2, false)) d (acc, false))
  = match d with
    | [] => acc
    | _ => acc +:+ "&nbsp;&nbsp; " +:+ String.concat "&nbsp;&nbsp; " (dictionary_entry <$> d)
    end.
Proof.
  revert acc. induction d as [|kv d IH]; intros acc; [reflexivity|].
  cbn [fold_left]. cbv zeta. cbn [fst snd]. rewrite IH.
  change ("<b>" +:+ kv.1 +:+ "</b>=" +:+ kv.2) with (dictionary_entry kv).
  destruct d as [|kv' d]; [apply string_app_assoc|].
  cbn [fmap list_fmap String.concat]. rewrite !string_app_assoc. reflexivity.
Qed.

(** X11. [formatDictionary] joins the entries [<b>key</b>=value] of the
    dictionary, in its order, with the separator [&nbsp;&nbsp; ]: nothing
    before the first entry, nothing after the last. *)
Theorem formatDictionary_joins_the_entries (d : list (string * string)) :
  formatDictionary d = String.concat "&nbsp;&nbsp; " (dictionary_entry <$> d).
Proof.
  unfold formatDictionary. destruct d as [|kv d]; [reflexivity|].
  cbn [fold_left]. cbv zeta. cbn [fst snd]. rewrite formatDictionary_loop.
  change ("" +:+ "<b>" +:+ kv.1 +:+ "</b>=" +:+ kv.2) with (dictionary_entry kv).
  destruct d as [|kv' d]; reflexivity.
Qed.

(** *** Clearing the map twice *)

Lemma length_hide_markers rs ms : length (hide_markers rs ms) = length ms.
Proof.
  revert ms. induction rs as [|r rs IH]; intros ms; [reflexivity|].
  unfold hide_markers in *. simpl. rewrite IH. apply length_alter.
Qed.

(** X12. [clearMap] empties the three variables it reads, so a second
    [clearMap] finds nothing to remove: two in a row leave the state one
    leaves. *)
Theorem clearMap_twice (s : State) : (clearMap;; clearMap) s = clearMap s.
Proof.
  unfold mbind, M_bind, bind. rewrite !clearMap_spec. reflexivity.
Qed.

(** *** Requests sent by the response callbacks *)

Lemma parseTimeInput_time_input s :
  time_has_seconds s = false -> parseTimeInput s = (Ret (time_input s), s).
Proof.
  unfold time_has_seconds, time_input, time_value, parseTimeInput, get_prop. run_monad.
  destruct (Regex.search _ _) as [m|].
  - intros ->. reflexivity.
  - intros _. reflexivity.
Qed.

Lemma parseDateInput_date_input s : parseDateInput s = (Ret (date_input s), s).
Proof.
  unfold date_input, date_matches, parseDateInput, get_prop. run_monad.
  destruct (Regex.search _ _) as [m|]; reflexivity.
Qed.

Lemma fetchStopInfoWindow_request marker m s :
  markers (mapst s) !! marker = Some m -> time_has_seconds s = false ->
  fetchStopInfoWindow marker s
  = (Ret tt, with_net (fun n => set_requests
                         (requests n ++ [stop_info_request s (m_stopId m) marker]) n) s).
Proof.
  intros Hm Hsec. unfold fetchStopInfoWindow, get_marker.
  unfold mbind, M_bind, bind, get. rewrite Hm. simpl.
  rewrite (parseTimeInput_time_input s Hsec), parseDateInput_date_input. reflexivity.
Qed.

(** X13. On a 200 answer to a stop search whose stop ids name no member of
    [Object.prototype], [callbackDisplayStops] returns; when the answer
    holds exactly one stop it sends one request, for the trips of that
    stop, on behalf of the new marker of the stop; when it holds none or
    several it sends nothing. (The time input holds no seconds field.) *)
Theorem callbackDisplayStops_asks_for_the_trips_of_a_single_stop
    (data : string) (s : State) :
  time_has_seconds s = false ->
  Forall own_key (stop_ids (eval_stops data)) ->
  exists s',
    callbackDisplayStops data 200 s = (Ret tt, s') /\
    requests (net s') = requests (net s) ++
      match eval_stops data with
      | [stop] => [stop_info_request s (sr_stopId stop) (length (markers (mapst s)))]
      | _ => []
      end /\
    (forall stop, eval_stops data = [stop] ->
       stopMarkersSelected (vars s') !! sr_stopId stop
       = Some (length (markers (mapst s)))).
Proof.
  intros Hsec _. unfold callbackDisplayStops. simpl.
  unfold mbind, M_bind, bind. rewrite clearMap_spec.
  assert (forall stops, length stops <> 1 ->
    exists s',
      for_each (fun stop => addStopMarkerFromList stop true None;; mret tt) stops (cleared s)
        = (Ret tt, s') /\
      requests (net s') = requests (net s) ++ [] /\
      (forall stop, stops = [stop] ->
         stopMarkersSelected (vars s') !! sr_stopId stop
         = Some (length (markers (mapst s))))) as Hloop.
  { intros stops Hlen.
    destruct (select_stops_loop stops (cleared s) eq_refl) as (s' & Hrun & _ & _ & _ & Hreq).
    exists s'. split; [exact Hrun|]. rewrite app_nil_r. split; [exact Hreq|].
    intros stop ->. contradiction Hlen. reflexivity. }
  destruct (eval_stops data) as [|stop [|stop' stops]] eqn:Hstops.
  - apply Hloop. discriminate.
  - unfold addStopMarkerFromList.
    rewrite addStopMarker_fresh by apply lookup_empty.
    erewrite fetchStopInfoWindow_request; cycle 1.
    + simpl. apply list_lookup_middle. reflexivity.
    + exact Hsec.
    + eexists. split; [reflexivity|]. simpl. rewrite length_hide_markers.
      split; [reflexivity|]. intros stop0 [= <-]. apply lookup_insert_eq.
  - apply Hloop. discriminate.
Qed.

Lemma update_route_by_id_finds_container routeId fc fe l :
  has_route routeId l = true ->
  is_Some (update_route_by_id ("route_container_" +:+ routeId) fc fe l).
Proof.
  unfold update_route_by_id, has_route.
  induction l as [|c l IH]; [discriminate|]. cbn [existsb update_first]. intros Hr.
  destruct (String.eqb (container_id c) ("route_container_" +:+ routeId)) eqn:Hc; [eauto|].
  destruct (String.eqb (elem_id c) ("route_container_" +:+ routeId)) eqn:He; [eauto|].
  apply orb_true_iff in Hr as [Hr|Hr].
  - apply String.eqb_eq in Hr. unfold container_id in Hc. rewrite Hr, String.eqb_refl in Hc.
    discriminate.
  - destruct (IH Hr) as [l' Hl']. rewrite Hl'. simpl. eauto.
Qed.

Lemma selectTrip_urls tripId s :
  exists s',
    selectTrip tripId s = (Ret tt, s') /\
    xhr_url <$> requests (net s') = (xhr_url <$> requests (net s)) ++ trip_urls tripId.
Proof.
  unfold selectTrip. unfold mbind, M_bind, bind, get.
  destruct (update_tripInfo _ _) as [l1|]; simpl;
    (destruct (update_span_by_id _ _ _) as [l2|]; simpl;
     rewrite clearMap_spec; eexists; (split; [reflexivity|]); simpl;
     rewrite !fmap_app, <- !app_assoc; reflexivity).
Qed.

Lemma pattern_loop (patterns : list Pattern) s0 :
  exists s1,
    for_each (fun _ : Pattern => assign_global "patternDiv";; assign_global "j") patterns s0
      = (Ret tt, s1) /\
    dom s1 = dom s0 /\ net s1 = net s0 /\
    selectedRoute (vars s1) = selectedRoute (vars s0).
Proof.
  revert s0. induction patterns as [|pat patterns IH]; intros s0.
  - exists s0. repeat split.
  - cbn [for_each]. unfold mbind, M_bind, bind, assign_global, modify. simpl.
    match goal with |- context [for_each _ patterns ?st] =>
      destruct (IH st) as (s1 & Hrun & Hdom & Hnet & Hsr) end.
    exists s1. split; [exact Hrun|]. split; [exact Hdom|]. split; [exact Hnet|exact Hsr].
Qed.

(** X14. On a 200 answer for the selected route, when the route is in the
    list, [callbackDisplayPatterns] returns. If some pattern of the answer
    has a trip, it selects a trip and so sends the three requests of
    [selectTrip]: for the first trip of the first pattern, but for the trip
    "null" when it is a later pattern that has the trips. If no pattern has
    a trip it sends nothing. *)
Theorem callbackDisplayPatterns_selects_the_first_trip
    (data : string) (s : State) (routeId : string) :
  selectedRoute (vars s) = Some routeId ->
  has_route routeId (routeList (dom s)) = true ->
  exists s',
    callbackDisplayPatterns data 200 s = (Ret tt, s') /\
    xhr_url <$> requests (net s') =
      (xhr_url <$> requests (net s)) ++
      (if some_trip (eval_patterns data)
       then trip_urls (first_trip (eval_patterns data)) else []).
Proof.
  intros Hsel Hroute. unfold callbackDisplayPatterns. simpl.
  unfold mbind, M_bind, bind. rewrite clearMap_spec.
  simpl.
  match goal with |- context [for_each ?f (eval_patterns data) ?s0] =>
    destruct (pattern_loop (eval_patterns data) s0) as (s1 & Hrun & Hdom & Hnet & Hsr);
    change (for_each f (eval_patterns data) s0 = (Ret tt, s1)) in Hrun;
    rewrite Hrun
  end.
  simpl in Hdom, Hnet, Hsr. unfold get. simpl. rewrite Hsr, Hsel, Hdom. simpl.
  match goal with |- context [update_route_by_id ?t ?fc ?fe ?l] =>
    destruct (update_route_by_id_finds_container routeId fc fe l Hroute) as [l' Hl']
  end.
  simpl in Hl'. rewrite Hl'. simpl.
  fold (some_trip (eval_patterns data)).
  destruct (some_trip (eval_patterns data)).
  - match goal with |- context [selectTrip ?t ?s2] =>
      assert (t = first_trip (eval_patterns data)) as ->
        by (unfold first_trip; destruct (eval_patterns data) as [|pat ?]; [reflexivity|];
            destruct (pat_trips pat); reflexivity);
      destruct (selectTrip_urls (first_trip (eval_patterns data)) s2)
        as (s' & Hrun' & Hurls)
    end.
    exists s'. split; [exact Hrun'|]. rewrite Hurls. simpl. rewrite Hnet. reflexivity.
  - eexists. split; [reflexivity|]. simpl. rewrite Hnet, app_nil_r. reflexivity.
Qed.

(** *** A second invariant: labels and editing *)

Lemma MarkerInv_init : MarkerInv init_state.
Proof.
  split; simpl.
  - intros id r. rewrite lookup_empty. discriminate.
  - intros _ r m. rewrite lookup_nil. discriminate.
  - intros r m. rewrite lookup_nil. discriminate.
  - intros _. constructor.
  - intros x r Hx. inversion Hx.
Qed.

(** A state change that touches none of the fields the invariant reads. *)
Ltac frame2 := apply keeps_modify; let s := fresh in let Hs := fresh in
  intros s Hs; destruct Hs; constructor; assumption.

Lemma MarkerInv_update_marker r (f : Marker -> Marker) :
  (forall m, is_Some (m_label m) -> is_Some (m_label (f m))) ->
  (forall m, m_map (f m) = true -> m_map m = true) ->
  (forall m, m_draggable (f m) = m_draggable m) ->
  preserves MarkerInv (modify (update_marker r f)).
Proof.
  intros Hlabel Hmap Hdrag. apply keeps_modify. intros s [Hsel Hun Hdr Hreq Hinfo].
  assert (forall r0 m0, alter f r (markers (mapst s)) !! r0 = Some m0 ->
            exists m, markers (mapst s) !! r0 = Some m /\ (m0 = m \/ m0 = f m)) as Hback.
  { intros r0 m0. destruct (decide (r = r0)) as [->|Hne].
    - rewrite list_lookup_alter_eq. destruct (markers (mapst s) !! r0) as [m|]; [|discriminate].
      intros [= <-]. eauto.
    - rewrite list_lookup_alter_ne by exact Hne. eauto. }
  constructor; simpl; try assumption.
  - intros id r0 Hr0. destruct (Hsel id r0 Hr0) as (m & Hm & Hl).
    destruct (decide (r = r0)) as [->|Hne].
    + exists (f m). rewrite list_lookup_alter_eq, Hm. split; [reflexivity|auto].
    + exists m. rewrite list_lookup_alter_ne by exact Hne. auto.
  - intros Hoff r0 m0 Hm0. apply Hback in Hm0 as (m & Hm & [->| ->]); [eauto|].
    destruct (m_map (f m)) eqn:Hfm; [|reflexivity].
    apply Hmap in Hfm. rewrite (Hun Hoff r0 m Hm) in Hfm. discriminate.
  - intros r0 m0 Hm0 Hshown. apply Hback in Hm0 as (m & Hm & [->| ->]); [eauto|].
    rewrite Hdrag. eauto.
  - intros x r0 Hx Hcb. rewrite length_alter. eauto.
Qed.

Lemma MarkerInv_marker_setMap_null r : preserves MarkerInv (marker_setMap_null r).
Proof. apply MarkerInv_update_marker; intros m; simpl; auto; discriminate. Qed.

Lemma MarkerInv_get_marker r : preserves MarkerInv (get_marker r).
Proof.
  unfold get_marker. keeps_step. keeps_step; [keeps_step|]. apply keeps_throw; auto.
Qed.

Lemma MarkerInv_marker_getText r : preserves MarkerInv (marker_getText r).
Proof.
  unfold marker_getText. keeps_step; [apply MarkerInv_get_marker|].
  keeps_step; [keeps_step|]. apply keeps_throw; auto.
Qed.

Lemma MarkerInv_marker_setText r t : preserves MarkerInv (marker_setText r t).
Proof.
  unfold marker_setText. keeps_step; [apply MarkerInv_get_marker|].
  keeps_step; [|apply keeps_throw; auto].
  apply MarkerInv_update_marker; intros m; simpl; eauto.
Qed.

Lemma MarkerInv_cleared s : MarkerInv s -> MarkerInv (cleared s).
Proof.
  intros [Hsel Hun Hdr Hreq Hinfo].
  assert (forall r m, markers (mapst (cleared s)) !! r = Some m ->
            exists m0, markers (mapst s) !! r = Some m0 /\
                       m_draggable m = m_draggable m0 /\
                       (m_map m = true -> m_map m0 = true)) as Hback.
  { intros r m. simpl. rewrite lookup_hide_markers.
    destruct (markers (mapst s) !! r) as [m0|]; [|discriminate]. simpl.
    intros [= <-]. exists m0. split; [reflexivity|].
    destruct (bool_decide _); simpl; auto. split; [reflexivity|discriminate]. }
  constructor; simpl.
  - intros id r. rewrite lookup_empty. discriminate.
  - intros Hoff r m Hm. apply Hback in Hm as (m0 & Hm0 & _ & Hmap).
    destruct (m_map m); [|reflexivity]. rewrite <- (Hun Hoff r m0 Hm0).
    symmetry. apply Hmap. reflexivity.
  - intros r m Hm Hshown. apply Hback in Hm as (m0 & Hm0 & -> & Hmap). eauto.
  - exact Hreq.
  - intros x r Hx Hcb. rewrite length_hide_markers. eauto.
Qed.

Lemma MarkerInv_clearMap : preserves MarkerInv clearMap.
Proof. intros s Hs. rewrite clearMap_spec. apply MarkerInv_cleared. exact Hs. Qed.

(** A new marker, made as [addStopMarker] makes it, and recorded as a
    selected stop or not. *)
Lemma MarkerInv_extend s s' m :
  MarkerInv s ->
  markers (mapst s') = markers (mapst s) ++ [m] ->
  (stopMarkersSelected (vars s') = stopMarkersSelected (vars s) \/
   is_Some (m_label m) /\
   exists id, stopMarkersSelected (vars s')
              = <[id := length (markers (mapst s))]> (stopMarkersSelected (vars s))) ->
  map_loaded (mapst s') = map_loaded (mapst s) ->
  forbid_editing (vars s') = forbid_editing (vars s) ->
  requests (net s') = requests (net s) ->
  m_map m = map_loaded (mapst s) ->
  m_draggable m = negb (forbid_editing (vars s)) ->
  MarkerInv s'.
Proof.
  intros [Hsel Hun Hdr Hreq Hinfo] Hms Hsel' Hloaded Hforbid Hreqs Hmap Hdrag.
  assert (forall r m0, markers (mapst s') !! r = Some m0 ->
            markers (mapst s) !! r = Some m0 \/ m0 = m) as Hback.
  { intros r m0. rewrite Hms. intros Hm0. apply lookup_app_Some in Hm0 as [Hm0|[_ Hm0]]; [auto|].
    right. destruct (r - length (markers (mapst s))); simpl in Hm0; [congruence|].
    rewrite lookup_nil in Hm0. discriminate. }
  assert (forall id r, stopMarkersSelected (vars s) !! id = Some r ->
            exists m0, markers (mapst s') !! r = Some m0 /\ is_Some (m_label m0)) as Hold.
  { intros id r Hr. destruct (Hsel id r Hr) as (m0 & Hm0 & Hl). exists m0.
    split; [|exact Hl]. rewrite Hms. apply lookup_app_l_Some. exact Hm0. }
  constructor.
  - intros id r. destruct Hsel' as [->|[Hl [id0 ->]]]; [apply Hold|].
    rewrite lookup_insert. case_decide as Hid; [|apply Hold].
    intros [= <-]. exists m. split; [|exact Hl]. rewrite Hms. apply list_lookup_middle.
    reflexivity.
  - rewrite Hloaded. intros Hoff r m0 Hm0. apply Hback in Hm0 as [Hm0| ->]; [eauto|].
    congruence.
  - rewrite Hforbid. intros r m0 Hm0 Hshown. apply Hback in Hm0 as [Hm0| ->]; eauto.
  - rewrite Hloaded, Hforbid, Hreqs. exact Hreq.
  - rewrite Hreqs, Hms, length_app. intros x r Hx Hcb.
    pose proof (Hinfo x r Hx Hcb). lia.
Qed.

Lemma MarkerInv_addStopMarker stopId stopName stopLat stopLon locationType selected text :
  preserves MarkerInv
    (addStopMarker stopId stopName stopLat stopLon locationType selected text).
Proof.
  unfold addStopMarker. apply hoare_get_bind. intros s0 Hs0.
  destruct (stopMarkersSelected (vars s0) !! stopId) as [marker|] eqn:Hsel.
  - eapply hoare_pre with (P' := MarkerInv); [|intros s ->; exact Hs0]. as_keeps.
    keeps_step; [|keeps_step]. keeps_step; [|keeps_step].
    keeps_step; [apply MarkerInv_marker_getText|].
    keeps_step; [unfold assign_global; frame2|].
    apply MarkerInv_marker_setText.
  - cbv zeta.
    destruct (stopMarkersBackground (vars s0) !! stopId) as [marker|] eqn:Hbg.
    + destruct selected.
      * intros s ->. run_monad.
        assert (MarkerInv (drop_background stopId marker s0)) as Hdrop.
        { pose proof (MarkerInv_marker_setMap_null marker s0 Hs0) as Hhide.
          simpl in Hhide. destruct Hhide. constructor; assumption. }
        eapply (MarkerInv_extend (drop_background stopId marker s0)); [exact Hdrop|..];
          simpl; try reflexivity.
        right. split; [eauto|]. eexists. reflexivity.
      * intros s ->. run_monad. exact Hs0.
    + destruct selected; intros s ->; run_monad.
      * eapply (MarkerInv_extend s0); [exact Hs0|..]; simpl; try reflexivity.
        right. split; [eauto|]. eexists. reflexivity.
      * eapply (MarkerInv_extend s0); [exact Hs0|..]; simpl; try reflexivity.
        left. reflexivity.
Qed.

Lemma MarkerInv_downloadUrl url callback :
  callback <> CbChangeStopLocation -> url_path url <> "/json/setstoplocation" ->
  (forall r, callback <> CbStopInfoWindow r) ->
  preserves MarkerInv (downloadUrl url callback).
Proof.
  intros Hcb Hurl Hinfo0. unfold downloadUrl. apply keeps_bind; [simpl; apply keeps_ret|].
  intros _. apply keeps_modify. intros s [? ? ? Hreq Hinfo].
  constructor; simpl; try assumption.
  - intros Hro. apply Forall_app. split; [auto|].
    constructor; [|constructor]. intros [Hx|Hx]; simpl in Hx; contradiction.
  - intros x r Hx Hcbx. apply elem_of_app in Hx as [Hx|Hx]; [eauto|].
    apply list_elem_of_singleton in Hx. subst x. simpl in Hcbx.
    contradiction (Hinfo0 r).
Qed.

(** [fetchStopInfoWindow] dereferences the marker before it sends the
    request. *)
Lemma MarkerInv_fetchStopInfoWindow marker : preserves MarkerInv (fetchStopInfoWindow marker).
Proof.
  unfold fetchStopInfoWindow.
  eapply hoare_bind
    with (R := fun _ s => MarkerInv s /\ marker < length (markers (mapst s))).
  { intros s Hs. unfold get_marker. run_monad.
    destruct (markers (mapst s) !! marker) as [m|] eqn:Hm; simpl; [|exact Hs].
    split; [exact Hs|]. eapply lookup_lt_Some. exact Hm. }
  intros m.
  eapply hoare_conseq
    with (P' := fun s => MarkerInv s /\ marker < length (markers (mapst s)))
         (Q' := fun _ s => MarkerInv s /\ marker < length (markers (mapst s)))
         (E' := fun s => MarkerInv s /\ marker < length (markers (mapst s)));
    [|auto|intros _ s [Hs _]; exact Hs|intros s [Hs _]; exact Hs].
  change (preserves (fun s => MarkerInv s /\ marker < length (markers (mapst s)))
            (time ← parseTimeInput; date ← parseDateInput;
             downloadUrl ("/json/stoptrips?stop=" +:+ encodeURIComponent (m_stopId m)
                          +:+ "&time=" +:+ to_string time +:+ "&date=" +:+ date)
               (CbStopInfoWindow marker))).
  unfold parseTimeInput, parseDateInput, get_prop, read_global, assign_global, downloadUrl,
    console_log.
  repeat first
    [ keeps_step
    | (apply keeps_throw; solve [auto])
    | (apply keeps_modify;
       let s := fresh in let Hs := fresh in let Hlt := fresh in
       intros s [Hs Hlt]; split; [destruct Hs; constructor; assumption|exact Hlt]) ].
  apply keeps_modify. intros s [[? ? ? Hreq Hinfo] Hlt]. split; [|exact Hlt].
  constructor; simpl; try assumption.
  - intros Hro. apply Forall_app. split; [auto|].
    constructor; [|constructor]. intros [Hx|Hx]; simpl in Hx; [discriminate|].
    vm_compute in Hx. discriminate.
  - intros x r Hx Hcbx. apply elem_of_app in Hx as [Hx|Hx]; [eauto|].
    apply list_elem_of_singleton in Hx. subst x. simpl in Hcbx.
    injection Hcbx as <-. exact Hlt.
Qed.

Lemma MarkerInv_expandBoundingBox latLng : preserves MarkerInv (expandBoundingBox latLng).
Proof.
  apply keeps_modify. intros s [? ? ? ?].
  destruct (boundsOfPolyLine (vars s)) eqn:Hb; constructor; simpl; try rewrite Hb; assumption.
Qed.

Create HintDb markerinv discriminated.

#[local] Hint Resolve MarkerInv_marker_setMap_null MarkerInv_get_marker
  MarkerInv_marker_getText MarkerInv_marker_setText MarkerInv_clearMap
  MarkerInv_addStopMarker MarkerInv_expandBoundingBox MarkerInv_fetchStopInfoWindow
  : markerinv.

Ltac markerinv_auto :=
  repeat first
    [ keeps_step
    | solve [eauto with markerinv]
    | (apply keeps_throw; solve [auto])
    | (apply MarkerInv_downloadUrl;
       [discriminate|vm_compute; discriminate|intros ?; discriminate])
    | (apply keeps_modify;
       let s := fresh in let Hs := fresh in
       intros s Hs; destruct Hs; constructor; assumption) ].

Ltac unfold_script :=
  unfold load, callbackMoveEnd, callbackZoomEnd, stopTextSearchSubmit,
    tripTextSearchSubmit, selectRoute, selectTrip, saveData,
    setStartDate, run_callback, callbackDisplayStopsBackground, callbackDisplayStops,
    callbackChangeStopLocation, callbackSaveData, callbackDisplayStopInfoWindow,
    callbackDisplayRoutes, callbackDisplayPatterns, callbackDisplayTripStopTimes,
    callbackDisplayTripPolyLine, callbackDisplayTripRows, displayTripStopTimes,
    displayPolyLine, fetchStopsInBounds, fetchRoutes, fetchPatterns, fetchTripPolyLine,
    fetchTripRows, parseTimeInput, parseDateInput, sizeRouteList, addStopMarkerFromList,
    map_fitBounds, set_route_list, set_request_status, console_log,
    set_prop, get_prop, read_global, assign_global, polyline_setMap_null.

Lemma MarkerInv_addBackgroundStops stops oldStopMarkers :
  preserves MarkerInv (addBackgroundStops stops oldStopMarkers).
Proof.
  revert oldStopMarkers. induction stops as [|stop stops IH]; intros old; simpl.
  - markerinv_auto.
  - keeps_step; [unfold_script; markerinv_auto|]. keeps_step; [markerinv_auto|]. apply IH.
Qed.

#[local] Hint Resolve MarkerInv_addBackgroundStops : markerinv.

Lemma MarkerInv_run_callback cb data responseCode :
  preserves MarkerInv (run_callback cb data responseCode).
Proof. destruct cb; do 3 unfold_script; markerinv_auto. Qed.

Lemma MarkerInv_set_request_status i x : preserves MarkerInv (set_request_status i x).
Proof.
  apply keeps_modify. intros s [? ? ? Hreq Hinfo].
  constructor; simpl; try assumption.
  - intros Hro. apply Forall_alter; [auto|]. intros r _ Hr. exact Hr.
  - intros x0 r Hx Hcb. apply list_elem_of_lookup in Hx as [j Hj].
    destruct (decide (i = j)) as [->|Hne].
    + rewrite list_lookup_alter_eq in Hj.
      destruct (requests (net s) !! j) as [x1|] eqn:Hx1; [|discriminate].
      injection Hj as <-. apply (Hinfo x1 r); [|exact Hcb].
      eapply list_elem_of_lookup_2. exact Hx1.
    + rewrite list_lookup_alter_ne in Hj by exact Hne.
      apply (Hinfo x0 r); [|exact Hcb]. eapply list_elem_of_lookup_2. exact Hj.
Qed.

#[local] Hint Resolve MarkerInv_run_callback MarkerInv_set_request_status : markerinv.

(** Every listener but those of the page load and of a drag keeps the
    invariant from any state. *)
Lemma MarkerInv_handle e :
  match e with EvLoad _ | EvMarkerDragEnd _ _ => False | _ => True end ->
  preserves MarkerInv (handle e).
Proof.
  destruct e; intros []; cbn [handle]; do 3 unfold_script; markerinv_auto.
Qed.

(** A drag happens on a marker that is on the map and draggable: editing is
    allowed and the page is loaded. *)
Lemma MarkerInv_dragend s marker position :
  MarkerInv s -> enabled (EvMarkerDragEnd marker position) s = true ->
  MarkerInv (exec (handle (EvMarkerDragEnd marker position)) s).
Proof.
  intros Hs Hen. simpl in Hen.
  destruct (markers (mapst s) !! marker) as [m|] eqn:Hm; [|discriminate].
  apply andb_prop in Hen as [Hshown Hdrag].
  assert (forbid_editing (vars s) = false) as Hforbid.
  { pose proof (mi_draggable s Hs marker m Hm Hshown) as Heq.
    rewrite Hdrag in Heq. destruct (forbid_editing (vars s)); [discriminate|reflexivity]. }
  assert (map_loaded (mapst s) = true) as Hloaded.
  { destruct (map_loaded (mapst s)) eqn:Hl; [reflexivity|].
    rewrite (mi_unloaded s Hs Hl marker m Hm) in Hshown. discriminate. }
  assert (MarkerInv (update_marker marker (set_m_position position) s)) as Hs1.
  { apply (MarkerInv_update_marker marker (set_m_position position)); simpl; auto. }
  unfold exec, handle, set_prop, changeStopLocation, get_marker, downloadUrl. run_monad.
  rewrite list_lookup_alter_eq, Hm. simpl.
  destruct Hs1 as [Hsel1 Hun1 Hdr1 Hreq1 Hinfo1]. constructor; simpl; try assumption.
  - rewrite Hforbid, Hloaded. intros [?|?]; discriminate.
  - intros x r Hx Hcb. apply elem_of_app in Hx as [Hx|Hx]; [eauto|].
    apply list_elem_of_singleton in Hx. subst x. discriminate.
Qed.

(** The page load happens once, before any marker is on the map and before
    any request could move a stop. *)
Lemma MarkerInv_load s config :
  MarkerInv s -> map_loaded (mapst s) = false -> MarkerInv (exec (load config) s).
Proof.
  intros [Hsel Hun Hdr Hreq Hinfo] Hoff.
  unfold exec, load, sizeRouteList, get_prop, set_prop, map_fitBounds, fetchStopsInBounds,
    fetchRoutes, assign_global, downloadUrl. run_monad.
  constructor; simpl.
  - exact Hsel.
  - discriminate.
  - intros r m Hm Hshown. rewrite (Hun Hoff r m Hm) in Hshown. discriminate.
  - intros _. rewrite <- app_assoc. apply Forall_app. split; [auto|].
    repeat constructor; intros [Hx|Hx]; simpl in Hx; try discriminate;
      vm_compute in Hx; discriminate.
  - intros x r Hx Hcb. rewrite <- app_assoc in Hx. apply elem_of_app in Hx as [Hx|Hx]; [eauto|].
    apply elem_of_cons in Hx as [->|Hx]; [discriminate|].
    apply list_elem_of_singleton in Hx. subst x. discriminate.
Qed.

Lemma MarkerInv_step s e : MarkerInv s -> MarkerInv (step s e).
Proof.
  intros Hs. unfold step. destruct (enabled e s) eqn:Hen; [|exact Hs].
  destruct e;
    try (apply preserves_exec; [apply MarkerInv_handle; exact I|exact Hs]).
  - apply MarkerInv_load; [exact Hs|]. simpl in Hen.
    apply negb_true_iff in Hen. exact Hen.
  - apply MarkerInv_dragend; assumption.
Qed.

Lemma MarkerInv_run events s : MarkerInv s -> MarkerInv (run events s).
Proof.
  revert s. induction events as [|e events IH]; intros s Hs; simpl; [exact Hs|].
  apply IH. apply MarkerInv_step. exact Hs.
Qed.

Lemma MarkerInv_reachable s : reachable s -> MarkerInv s.
Proof. intros [events ->]. apply MarkerInv_run. apply MarkerInv_init. Qed.

(** X15. A page loaded with [forbid_editing] never asks the server to move
    a stop: whatever the events, while [forbid_editing] is set no request
    was made by [changeStopLocation] or to [/json/setstoplocation], and no
    marker on the map is draggable. *)
Theorem read_only_page_never_moves_a_stop (events : list Event) :
  let s := run events init_state in
  forbid_editing (vars s) = true ->
  Forall (fun x => xhr_onload x <> CbChangeStopLocation /\
                   url_path (xhr_url x) <> "/json/setstoplocation") (requests (net s)) /\
  (forall r m, markers (mapst s) !! r = Some m -> m_map m = true -> m_draggable m = false).
Proof.
  intros s Hforbid.
  assert (MarkerInv s) as [_ _ Hdr Hreq _] by (apply MarkerInv_run, MarkerInv_init).
  split.
  - eapply Forall_impl; [apply Hreq; left; exact Hforbid|].
    intros x Hx. unfold moves_a_stop in Hx. tauto.
  - intros r m Hm Hshown. rewrite (Hdr r m Hm Hshown), Hforbid. reflexivity.
Qed.

(** *** [addStopMarker] in the states the client can reach *)

(** With the two invariants, [addStopMarker] returns: the marker it finds
    for a selected stop has [getText] and [setText]. *)
Lemma addStopMarker_returns stopId stopName stopLat stopLon locationType selected text s :
  Inv s -> MarkerInv s ->
  exists r s' m,
    addStopMarker stopId stopName stopLat stopLon locationType selected text s = (Ret r, s') /\
    Inv s' /\ MarkerInv s' /\
    markers (mapst s') !! r = Some m /\ m_stopId m = stopId /\
    (stopMarkersSelected (vars s') !! stopId = Some r \/
     stopMarkersBackground (vars s') !! stopId = Some r) /\
    (selected = true -> stopMarkersSelected (vars s') !! stopId = Some r) /\
    (forall id, is_Some (stopMarkersSelected (vars s) !! id) ->
                is_Some (stopMarkersSelected (vars s') !! id)) /\
    map_loaded (mapst s') = map_loaded (mapst s) /\
    requests (net s') = requests (net s).
Proof.
  intros Hs Hk.
  pose proof (Inv_addStopMarker stopId stopName stopLat stopLon locationType selected text
                s Hs) as Hs'.
  pose proof (MarkerInv_addStopMarker stopId stopName stopLat stopLon locationType selected
                text s Hk) as Hk'.
  destruct (stopMarkersSelected (vars s) !! stopId) as [r|] eqn:Hsel.
  - destruct (mi_selected s Hk stopId r Hsel) as (m & Hm & [old Hold]).
    destruct (tr_sel _ _ _ _ _ (inv_tracked s Hs) stopId r Hsel) as (m' & Hm' & Hid).
    assert (m' = m) as -> by congruence.
    revert Hs' Hk'. unfold addStopMarker, marker_getText, marker_setText, get_marker,
      assign_global. run_monad. rewrite Hsel.
    destruct (truthy text); simpl; repeat (progress (rewrite ?Hm, ?Hold; simpl));
      intros Hs' Hk'; eexists r, _, _; (split; [reflexivity|]);
      (split; [exact Hs'|]); (split; [exact Hk'|]); simpl.
    + rewrite list_lookup_alter_eq, Hm. simpl. split; [reflexivity|].
      simpl. repeat split; auto.
    + split; [exact Hm|]. repeat split; auto.
  - destruct (stopMarkersBackground (vars s) !! stopId) as [r|] eqn:Hbg.
    + destruct selected.
      * revert Hs' Hk'. rewrite (addStopMarker_promote _ _ _ _ _ s r text Hsel Hbg).
        intros Hs' Hk'. eexists _, _, _. split; [reflexivity|].
        split; [exact Hs'|]. split; [exact Hk'|]. simpl.
        split; [apply list_lookup_middle; reflexivity|]. split; [reflexivity|].
        rewrite lookup_insert_eq. split; [auto|]. split; [auto|].
        split; [|auto]. intros id His. rewrite lookup_insert. case_decide; eauto.
      * destruct (tr_bg _ _ _ _ _ (inv_tracked s Hs) stopId r Hbg) as (m & Hm & Hid).
        rewrite (addStopMarker_background_hit _ _ _ _ _ s r text Hsel Hbg).
        exists r, s, m. split; [reflexivity|]. split; [exact Hs|]. split; [exact Hk|].
        split; [exact Hm|]. split; [exact Hid|]. split; [right; exact Hbg|].
        split; [discriminate|]. auto.
    + revert Hs' Hk'. rewrite (addStopMarker_fresh _ _ _ _ _ s selected text Hsel Hbg).
      intros Hs' Hk'. eexists _, _, _. split; [reflexivity|].
      split; [exact Hs'|]. split; [exact Hk'|]. simpl.
      split; [apply list_lookup_middle; reflexivity|]. split; [reflexivity|].
      destruct selected; simpl; rewrite lookup_insert_eq.
      * split; [auto|]. split; [auto|]. split; [|auto].
        intros id His. rewrite lookup_insert. case_decide; eauto.
      * split; [auto|]. split; [discriminate|]. auto.
Qed.

(** X16. In every state the client can reach, and for every stop id that
    names no member of [Object.prototype], [addStopMarker] returns,
    whatever the other arguments, and what it returns is a marker of the
    stop, on record under the stop id in one of the two marker maps: in
    [stopMarkersSelected] when the call selects the stop. *)
Theorem addStopMarker_returns_a_marker_of_the_stop
    (s : State) (stopId stopName : string) (stopLat stopLon : Coord) (locationType : Z)
    (selected : bool) (text : option string) :
  reachable s -> own_key stopId ->
  exists r s' m,
    addStopMarker stopId stopName stopLat stopLon locationType selected text s = (Ret r, s') /\
    markers (mapst s') !! r = Some m /\ m_stopId m = stopId /\
    (stopMarkersSelected (vars s') !! stopId = Some r \/
     stopMarkersBackground (vars s') !! stopId = Some r) /\
    (selected = true -> stopMarkersSelected (vars s') !! stopId = Some r).
Proof.
  intros Hreach _.
  destruct (addStopMarker_returns stopId stopName stopLat stopLon locationType selected text s)
    as (r & s' & m & Hrun & _ & _ & Hm & Hid & Hrec & Hsel & _);
    [apply Inv_reachable; exact Hreach|apply MarkerInv_reachable; exact Hreach|].
  exists r, s', m. auto.
Qed.

(** X17. A text given for a stop that is already selected is added to the
    label of its marker, after the old label and a line break; the marker
    is returned, and nothing else changes but the implicit global
    [oldText]. *)
Theorem addStopMarker_adds_the_text_to_the_label
    (s : State) (stopId stopName : string) (stopLat stopLon : Coord) (locationType : Z)
    (selected : bool) (text : string) (r : nat) :
  reachable s ->
  stopMarkersSelected (vars s) !! stopId = Some r ->
  text <> "" ->
  exists m old,
    markers (mapst s) !! r = Some m /\ m_label m = Some old /\
    addStopMarker stopId stopName stopLat stopLon locationType selected (Some text) s
    = (Ret r, update_marker r (set_m_label (Some (label_with old text)))
                (exec (assign_global "oldText") s)).
Proof.
  intros Hreach Hsel Htext. apply MarkerInv_reachable in Hreach as Hk.
  destruct (mi_selected s Hk stopId r Hsel) as (m & Hm & [old Hold]).
  exists m, old. split; [exact Hm|]. split; [exact Hold|].
  unfold addStopMarker, marker_getText, marker_setText, get_marker, assign_global, exec.
  run_monad. rewrite Hsel.
  apply String.eqb_neq in Htext. rewrite Htext. simpl. rewrite Hm. simpl.
  rewrite Hold. simpl. rewrite Hm. simpl. rewrite Hold. simpl. reflexivity.
Qed.

(** *** The stops of a trip *)

Lemma run_bind {A B} (m : M A) (f : A -> M B) s a s1 :
  m s = (Ret a, s1) -> (m ≫= f) s = f a s1.
Proof. intros Hm. unfold mbind, M_bind, bind. rewrite Hm. reflexivity. Qed.

Lemma displayTripStopTimes_loop (arrivalTimes departureTimes : option (list (option Z)))
    (l : list (nat * StopRow)) s :
  Inv s -> MarkerInv s ->
  exists s',
    for_each (fun '((i, stop) : nat * StopRow) =>
      let arrival : option Z := l ← arrivalTimes; t ← l !! i; t in
      let departure : option Z := l ← departureTimes; t ← l !! i; t in
      marker ←
        match arrival with
        | Some a =>
            let label := formatTime a in
            let label :=
              match departure with
              | Some d => if negb (a =? d)%Z then label +:+ "-" +:+ formatTime d else label
              | None => label
              end in
            assign_global "label";;
            addStopMarkerFromList stop true (Some label)
        | None => addStopMarkerFromList stop true None
        end;
      m ← get_marker marker;
      expandBoundingBox (m_position m)) l s = (Ret tt, s') /\
    Inv s' /\ MarkerInv s' /\
    map_loaded (mapst s') = map_loaded (mapst s) /\
    requests (net s') = requests (net s) /\
    (forall id, is_Some (stopMarkersSelected (vars s) !! id) \/ id ∈ stop_ids l.*2 ->
                is_Some (stopMarkersSelected (vars s') !! id)).
Proof.
  revert s. induction l as [|[i stop] l IH]; intros s Hs Hk.
  - exists s. split; [reflexivity|]. split; [exact Hs|]. split; [exact Hk|].
    split; [reflexivity|]. split; [reflexivity|].
    intros id [His|Hin]; [exact His|]. inversion Hin.
  - cbn [for_each]. cbv zeta.
    assert (forall text s0, Inv s0 -> MarkerInv s0 ->
              map_loaded (mapst s0) = map_loaded (mapst s) ->
              requests (net s0) = requests (net s) ->
              (forall id, is_Some (stopMarkersSelected (vars s) !! id) ->
                          is_Some (stopMarkersSelected (vars s0) !! id)) ->
              exists s',
                (marker ← addStopMarkerFromList stop true text;
                 m ← get_marker marker;
                 expandBoundingBox (m_position m)) s0 = (Ret tt, s') /\
                Inv s' /\ MarkerInv s' /\
                map_loaded (mapst s') = map_loaded (mapst s) /\
                requests (net s') = requests (net s) /\
                (forall id, is_Some (stopMarkersSelected (vars s) !! id)
                            \/ id = sr_stopId stop ->
                            is_Some (stopMarkersSelected (vars s') !! id))) as Hbody.
    { intros text s0 Hs0 Hk0 Hl0 Hr0 Hsel0. unfold addStopMarkerFromList.
      destruct (addStopMarker_returns (sr_stopId stop) (sr_stopName stop) (sr_lat stop)
                  (sr_lon stop) (sr_locationType stop) true text s0 Hs0 Hk0)
        as (r & s1 & m & Hrun & Hs1 & Hk1 & Hm & Hid & _ & Hsel1 & Hmono & Hl1 & Hr1).
      unfold get_marker. unfold mbind, M_bind, bind, get. rewrite Hrun.
      cbv beta iota. rewrite Hm. unfold mret, M_ret, ret.
      pose proof (Inv_expandBoundingBox (m_position m) s1 Hs1) as Hs2.
      pose proof (MarkerInv_expandBoundingBox (m_position m) s1 Hk1) as Hk2.
      eexists. split; [reflexivity|]. split; [exact Hs2|]. split; [exact Hk2|].
      simpl. split; [congruence|]. split; [congruence|].
      intros id Hcase.
      assert (is_Some (stopMarkersSelected (vars s1) !! id)) as Hgoal.
      { destruct Hcase as [His| ->]; [apply Hmono, Hsel0, His|].
        rewrite Hsel1 by reflexivity. eauto. }
      destruct (boundsOfPolyLine (vars s1)); exact Hgoal. }
    assert (exists s1,
      (let arrival : option Z := l0 ← arrivalTimes; t ← l0 !! i; t in
       let departure : option Z := l0 ← departureTimes; t ← l0 !! i; t in
       marker ←
         match arrival with
         | Some a =>
             let label := formatTime a in
             let label :=
               match departure with
               | Some d => if negb (a =? d)%Z then label +:+ "-" +:+ formatTime d else label
               | None => label
               end in
             assign_global "label";;
             addStopMarkerFromList stop true (Some label)
         | None => addStopMarkerFromList stop true None
         end;
       m ← get_marker marker;
       expandBoundingBox (m_position m)) s = (Ret tt, s1) /\
      Inv s1 /\ MarkerInv s1 /\
      map_loaded (mapst s1) = map_loaded (mapst s) /\
      requests (net s1) = requests (net s) /\
      (forall id, is_Some (stopMarkersSelected (vars s) !! id) \/ id = sr_stopId stop ->
                  is_Some (stopMarkersSelected (vars s1) !! id))) as (s1 & Hrun1 & Hs1 & Hk1 & Hl1 & Hr1 & Hsel1).
    { cbv zeta.
      destruct (l0 ← arrivalTimes; t ← l0 !! i; t) as [a|].
      - cbv zeta.
        match goal with |- context [addStopMarkerFromList stop true ?text] =>
          destruct (Hbody text (exec (assign_global "label") s)) as (s1 & Hrun1 & Hrest)
        end.
        + apply preserves_exec; [apply Inv_assign_global; discriminate|exact Hs].
        + apply preserves_exec; [unfold assign_global; frame2|exact Hk].
        + reflexivity.
        + reflexivity.
        + auto.
        + exists s1. split; [|exact Hrest].
          unfold mbind, M_bind, bind in *. exact Hrun1.
      - apply (Hbody None s Hs Hk); auto. }
    destruct (IH s1 Hs1 Hk1) as (s' & Hrun & Hs' & Hk' & Hl' & Hr' & Hsel').
    exists s'. split.
    { unfold mbind, M_bind, bind in *. cbv zeta in Hrun1. rewrite Hrun1. exact Hrun. }
    split; [exact Hs'|]. split; [exact Hk'|]. split; [congruence|]. split; [congruence|].
    intros id Hid. apply Hsel'. simpl in Hid. rewrite elem_of_cons in Hid.
    destruct Hid as [His|[->|Hin]]; auto.
Qed.

(** X18. When the page is loaded, [displayTripStopTimes] returns from every
    state the client can reach, whatever the times and whatever the stops
    whose ids name no member of [Object.prototype], and leaves every stop
    of the trip on record as a selected stop; it sends no request. *)
Theorem displayTripStopTimes_selects_every_stop
    (s : State) (stops : list StopRow) (arrivalTimes departureTimes : option (list (option Z))) :
  reachable s -> map_loaded (mapst s) = true ->
  Forall own_key (stop_ids stops) ->
  exists s',
    displayTripStopTimes stops arrivalTimes departureTimes s = (Ret tt, s') /\
    (forall id, id ∈ stop_ids stops -> is_Some (stopMarkersSelected (vars s') !! id)) /\
    requests (net s') = requests (net s).
Proof.
  intros Hreach Hloaded _. apply Inv_reachable in Hreach as Hs.
  apply MarkerInv_reachable in Hreach as Hk.
  destruct (displayTripStopTimes_loop arrivalTimes departureTimes
              (zip (seq 0 (length stops)) stops) (exec (assign_global "i") s))
    as (s1 & Hrun & _ & _ & Hl1 & Hr1 & Hsel1).
  { apply preserves_exec; [apply Inv_assign_global; discriminate|exact Hs]. }
  { apply preserves_exec; [unfold assign_global; frame2|exact Hk]. }
  unfold displayTripStopTimes.
  erewrite run_bind; [|reflexivity]. cbv beta.
  erewrite run_bind; [|exact Hrun]. cbv beta.
  unfold get, map_fitBounds. run_monad. simpl in Hl1. rewrite Hl1, Hloaded.
  eexists. split; [reflexivity|]. simpl. split; [|exact Hr1].
  intros id Hid. apply Hsel1. right.
  rewrite snd_zip; [exact Hid|]. rewrite length_seq. reflexivity.
Qed.

(** *** New stops of a background answer *)

Lemma stop_absent_addStopMarkerFromList id n loaded stop :
  sr_stopId stop <> id ->
  preserves (stop_absent id n loaded) (addStopMarkerFromList stop false None).
Proof.
  intros Hne s (Hsel & Hbg & Hlen & Hloaded). unfold addStopMarkerFromList.
  destruct (stopMarkersSelected (vars s) !! sr_stopId stop) as [r1|] eqn:Hsel1.
  { rewrite (addStopMarker_selected_hit _ _ _ _ _ s r1 false Hsel1). repeat split; auto. }
  destruct (stopMarkersBackground (vars s) !! sr_stopId stop) as [r1|] eqn:Hbg1.
  { rewrite (addStopMarker_background_hit _ _ _ _ _ s r1 None Hsel1 Hbg1).
    repeat split; auto. }
  rewrite (addStopMarker_fresh _ _ _ _ _ s false None Hsel1 Hbg1).
  split; [exact Hsel|]. simpl. split; [rewrite lookup_insert_ne; auto|].
  split; [rewrite length_app; lia|exact Hloaded].
Qed.

Lemma stop_recorded_addStopMarkerFromList id r m stop :
  preserves (stop_recorded id r m) (addStopMarkerFromList stop false None).
Proof.
  intros s [Hbg Hm]. unfold addStopMarkerFromList.
  destruct (stopMarkersSelected (vars s) !! sr_stopId stop) as [r1|] eqn:Hsel1.
  { rewrite (addStopMarker_selected_hit _ _ _ _ _ s r1 false Hsel1). split; auto. }
  destruct (stopMarkersBackground (vars s) !! sr_stopId stop) as [r1|] eqn:Hbg1.
  { rewrite (addStopMarker_background_hit _ _ _ _ _ s r1 None Hsel1 Hbg1). split; auto. }
  rewrite (addStopMarker_fresh _ _ _ _ _ s false None Hsel1 Hbg1).
  split; simpl.
  - rewrite lookup_insert_ne; [exact Hbg|]. intros Heq. congruence.
  - rewrite lookup_app_l; [exact Hm|]. eapply lookup_lt_Some. exact Hm.
Qed.

Lemma stop_recorded_addBackgroundStops id r m stops oldStopMarkers :
  preserves (stop_recorded id r m) (addBackgroundStops stops oldStopMarkers).
Proof.
  revert oldStopMarkers. induction stops as [|stop stops IH]; intros old; simpl.
  - keeps_step.
  - keeps_step; [apply stop_recorded_addStopMarkerFromList|].
    keeps_step; [|apply IH].
    unfold get_marker. keeps_step. keeps_step; [keeps_step|apply keeps_throw; auto].
Qed.

(** In the states the client can reach the first loop of the callback
    returns. *)
Lemma addBackgroundStops_returns stops oldStopMarkers s :
  Inv s -> MarkerInv s ->
  exists s1 old', addBackgroundStops stops oldStopMarkers s = (Ret old', s1).
Proof.
  revert oldStopMarkers s. induction stops as [|stop stops IH]; intros old s Hs Hk.
  - exists s, old. reflexivity.
  - cbn [addBackgroundStops]. unfold addStopMarkerFromList.
    destruct (addStopMarker_returns (sr_stopId stop) (sr_stopName stop) (sr_lat stop)
                (sr_lon stop) (sr_locationType stop) false None s Hs Hk)
      as (r0 & s0 & m0 & Hrun & Hs0 & Hk0 & Hm0 & _).
    rewrite (run_bind _ _ s r0 s0 Hrun).
    assert (get_marker r0 s0 = (Ret m0, s0)) as Hget
      by (unfold get_marker; run_monad; rewrite Hm0; reflexivity).
    rewrite (run_bind _ _ s0 m0 s0 Hget). apply IH; assumption.
Qed.

(** It makes a marker for a stop of the answer that was not on record. *)
Lemma addBackgroundStops_records_a_new_stop id stops oldStopMarkers s :
  id ∈ stop_ids stops -> Inv s -> MarkerInv s ->
  stopMarkersSelected (vars s) !! id = None ->
  stopMarkersBackground (vars s) !! id = None ->
  exists s1 old' r m,
    addBackgroundStops stops oldStopMarkers s = (Ret old', s1) /\
    stop_recorded id r m s1 /\ length (markers (mapst s)) <= r /\
    m_map m = map_loaded (mapst s) /\ m_stopId m = id.
Proof.
  revert oldStopMarkers s.
  induction stops as [|stop stops IH]; intros old s Hin Hs Hk Hsel Hbg; [inversion Hin|].
  cbn [addBackgroundStops]. unfold addStopMarkerFromList.
  destruct (addStopMarker_returns (sr_stopId stop) (sr_stopName stop) (sr_lat stop)
              (sr_lon stop) (sr_locationType stop) false None s Hs Hk)
    as (r0 & s0 & m0 & Hrun & Hs0 & Hk0 & Hm0 & Hid0 & _).
  rewrite (run_bind _ _ s r0 s0 Hrun).
  assert (get_marker r0 s0 = (Ret m0, s0)) as Hget
    by (unfold get_marker; run_monad; rewrite Hm0; reflexivity).
  rewrite (run_bind _ _ s0 m0 s0 Hget).
  destruct (decide (sr_stopId stop = id)) as [Heq|Hne].
  - assert (stop_recorded id (length (markers (mapst s))) m0 s0 /\
            r0 = length (markers (mapst s)) /\ m_map m0 = map_loaded (mapst s))
      as (Hrec0 & -> & Hmap0).
    { rewrite (addStopMarker_fresh _ _ _ _ _ s false None) in Hrun
        by (rewrite Heq; assumption).
      injection Hrun as <- <-. simpl in Hm0. rewrite list_lookup_middle in Hm0 by reflexivity.
      injection Hm0 as <-. simpl. rewrite Heq.
      split; [|auto]. split; [apply lookup_insert_eq|].
      simpl. apply list_lookup_middle. reflexivity. }
    match goal with |- context [addBackgroundStops stops ?o s0] =>
      destruct (addBackgroundStops_returns stops o s0 Hs0 Hk0) as (s1 & old' & Hrun1);
      pose proof (stop_recorded_addBackgroundStops id (length (markers (mapst s))) m0
                    stops o s0 Hrec0) as Hrec1
    end.
    rewrite Hrun1 in Hrec1 |- *.
    exists s1, old', (length (markers (mapst s))), m0.
    split; [reflexivity|]. split; [exact Hrec1|]. split; [lia|]. split; [exact Hmap0|].
    rewrite Hid0. exact Heq.
  - pose proof (stop_absent_addStopMarkerFromList id (length (markers (mapst s)))
                  (map_loaded (mapst s)) stop Hne s) as Habs.
    unfold addStopMarkerFromList in Habs. rewrite Hrun in Habs.
    destruct Habs as (Hsel0 & Hbg0 & Hlen0 & Hloaded0); [repeat split; auto|].
    match goal with |- context [addBackgroundStops stops ?o s0] =>
      destruct (IH o s0) as (s1 & old' & r & m & Hrun1 & Hrec1 & Hlen1 & Hmap1 & Hid1)
    end; try assumption.
    { unfold stop_ids in *. simpl in Hin. rewrite elem_of_cons in Hin.
      destruct Hin as [Hin|Hin]; [congruence|exact Hin]. }
    exists s1, old', r, m. split; [exact Hrun1|]. split; [exact Hrec1|].
    split; [lia|]. split; [congruence|exact Hid1].
Qed.

(** X19. When the page is loaded, a 200 answer handled by
    [callbackDisplayStopsBackground] puts every stop of the answer that
    was on record in neither marker map, and whose id names no member of
    [Object.prototype], on the map: the callback returns, the stop is on
    record in [stopMarkersBackground], and its marker is a marker of the
    stop and is on the map. *)
Theorem new_background_stop_is_shown (s : State) (data : string) (id : string) :
  reachable s -> map_loaded (mapst s) = true ->
  id ∈ stop_ids (eval_stops data) -> own_key id ->
  stopMarkersSelected (vars s) !! id = None ->
  stopMarkersBackground (vars s) !! id = None ->
  exists s' r m,
    callbackDisplayStopsBackground data 200 s = (Ret tt, s') /\
    stopMarkersBackground (vars s') !! id = Some r /\
    markers (mapst s') !! r = Some m /\ m_stopId m = id /\ m_map m = true.
Proof.
  intros Hreach Hloaded Hin _ Hsel Hbg.
  apply Inv_reachable in Hreach as Hs. apply MarkerInv_reachable in Hreach as Hk.
  destruct (addBackgroundStops_records_a_new_stop id (eval_stops data)
              (stopMarkersBackground (vars s)) s Hin Hs Hk Hsel Hbg)
    as (s1 & old' & r & m & Hrun & [Hbg1 Hm1] & Hlen & Hmap & Hid).
  destruct (addBackgroundStops_spec (eval_stops data) s (stopMarkersBackground (vars s)) Hs)
    as (s1' & old'' & Hrun' & _ & _ & _ & _ & Hold'); [auto|].
  rewrite Hrun in Hrun'. injection Hrun' as <- <-.
  exists (with_mapst (fun ms => set_markers (hide_markers (refs old') (markers ms)) ms) s1),
    r, m.
  split.
  { unfold callbackDisplayStopsBackground.
    change (negb (200 =? 200)%Z) with false. cbv iota zeta.
    unfold mbind, M_bind, bind, get. rewrite Hrun.
    rewrite for_each_marker_setMap_null. reflexivity. }
  simpl. split; [exact Hbg1|]. split; [|split; [exact Hid|congruence]].
  rewrite lookup_hide_markers, Hm1. simpl.
  rewrite bool_decide_eq_false_2; [reflexivity|].
  intros Hr. apply elem_of_refs in Hr as [id0 Hr]. apply Hold' in Hr as [Hr _].
  destruct (tr_bg _ _ _ _ _ (inv_tracked s Hs) id0 r Hr) as (m' & Hm' & _).
  apply lookup_lt_Some in Hm'. lia.
Qed.

(** *** Shapes *)

Lemma for_each_expandBoundingBox points s :
  for_each expandBoundingBox points s
  = (Ret tt,
     with_vars (set_boundsOfPolyLine (extended_bounds (boundsOfPolyLine (vars s)) points)) s).
Proof.
  revert s. induction points as [|p points IH]; intros s.
  - simpl. unfold mret, M_ret, ret. destruct s as [? [] ? ?]. reflexivity.
  - cbn [for_each]. unfold expandBoundingBox at 1.
    erewrite run_bind; [|reflexivity]. rewrite IH. f_equal.
    destruct s as [ms v d n]. unfold with_vars. simpl. f_equal.
    destruct (boundsOfPolyLine v) as [pts|] eqn:Hb; simpl.
    + destruct points; simpl; rewrite <- ?app_assoc; reflexivity.
    + destruct points; reflexivity.
Qed.

(** X20. When the page is loaded, [displayPolyLine] returns. It adds one
    polyline, which is on the map, has the points of the answer, weight 4
    and the colour of the answer (or [#003399] when the answer has none),
    and is recorded last in [existingPolylines]; the bounds are the old
    bounds with the points of the answer added, not bounds of this shape
    alone, and the map is fitted to them. Markers and requests are as
    before. *)
Theorem displayPolyLine_shows_the_shape (s : State) (polyData : PolyData) :
  map_loaded (mapst s) = true ->
  exists s',
    displayPolyLine polyData s = (Ret tt, s') /\
    polylines (mapst s') =
      polylines (mapst s) ++
      [{| pl_path := poly_points polyData;
          pl_color := if truthy (poly_color polyData)
                      then default "" (poly_color polyData) else "#003399";
          pl_weight := 4; pl_map := true |}] /\
    existingPolylines (vars s') =
      existingPolylines (vars s) ++ [length (polylines (mapst s))] /\
    boundsOfPolyLine (vars s') =
      extended_bounds (boundsOfPolyLine (vars s)) (poly_points polyData) /\
    map_fit (mapst s') = Some (FitPoints (boundsOfPolyLine (vars s'))) /\
    markers (mapst s') = markers (mapst s) /\ requests (net s') = requests (net s).
Proof.
  intros Hloaded. unfold displayPolyLine. cbv zeta.
  erewrite run_bind; [|reflexivity].
  erewrite run_bind; [|apply for_each_expandBoundingBox].
  unfold get, map_fitBounds. run_monad. rewrite Hloaded.
  eexists. split; [reflexivity|]. simpl. repeat split.
Qed.

(** *** The info window of a stop *)

(** X21. In every state the client can reach, the marker that a request of
    [fetchStopInfoWindow] was made for still exists when the answer
    arrives, whatever happened in between: on a 200 answer the callback
    returns and opens the info window on that marker, also when the marker
    has been taken off the map; nothing else changes. *)
Theorem stop_info_answer_opens_the_window
    (s : State) (i : nat) (x : Xhr) (r : nat) (data : string) :
  reachable s ->
  requests (net s) !! i = Some x -> xhr_onload x = CbStopInfoWindow r ->
  exists m html,
    markers (mapst s) !! r = Some m /\
    run_callback (xhr_onload x) data 200 s
    = (Ret tt, with_mapst (set_infoWindow html (Some r)) s).
Proof.
  intros Hreach Hx Hcb. apply MarkerInv_reachable in Hreach as Hk.
  assert (is_Some (markers (mapst s) !! r)) as [m Hm].
  { apply lookup_lt_is_Some. apply (mi_info s Hk x r); [|exact Hcb].
    eapply list_elem_of_lookup_2. exact Hx. }
  exists m. rewrite Hcb. cbn [run_callback]. unfold callbackDisplayStopInfoWindow.
  change (negb (200 =? 200)%Z) with false. cbv iota zeta.
  unfold get_marker. run_monad. rewrite Hm. simpl. eexists. split; reflexivity.
Qed.

End Facts.

(** ** Closed instances: evaluations, witnesses and counterexamples *)

#[local] Existing Instance Demo.platform.

(** *** C1 *)

(** C1, as stated, fails: on a 500 response the callback of [saveData]
    writes the response text into [edit_status], which the user sees. *)
Lemma saveData_callback_shows_failed_response :
  let s := exec (run_callback CbSaveData "Internal Server Error" 500) init_state in
  props (dom s) !! ("edit_status", "innerHTML") = Some "Internal Server Error" /\
  props (dom init_state) !! ("edit_status", "innerHTML") = None.
Proof. split; reflexivity. Qed.

Lemma guarded_callbacks_abort_witness :
  run_callback CbDisplayStops "a" 404 init_state = (Ret tt, init_state).
Proof.
  apply (proj1 (guarded_callbacks_abort_on_failed_response "a" 404 init_state));
    [discriminate|reflexivity].
Defined.

(** *** C8 *)

(** C8: [parseTimeInput] on the input "12:30:45" does not return 45000: it
    throws a [ReferenceError] on [second]. *)
Theorem parseTimeInput_with_seconds_throws :
  parseTimeInput (exec (set_prop "timeInput" "value" "12:30:45") init_state) =
  (Throw (ReferenceError "second"),
   exec (set_prop "timeInput" "value" "12:30:45") init_state).
Proof. vm_compute. reflexivity. Qed.

(** Without the seconds field the value is hours and minutes in seconds;
    without a match it is the empty string. *)
Example parseTimeInput_hours_minutes :
  fst (parseTimeInput (exec (set_prop "timeInput" "value" "12:30") init_state)) =
  Ret (JNum 45000).
Proof. vm_compute. reflexivity. Qed.

Example parseTimeInput_no_match :
  fst (parseTimeInput (exec (set_prop "timeInput" "value" "noon") init_state)) =
  Ret (JStr "").
Proof. vm_compute. reflexivity. Qed.

(** *** C9 *)

Lemma maybeAddLeadingZero_below_ten (n : Z) :
  (1 <= n < 10)%Z ->
  exists c, maybeAddLeadingZero n = JStr (String "0" (String c "")).
Proof.
  intros Hn.
  assert (n = 1 \/ n = 2 \/ n = 3 \/ n = 4 \/ n = 5 \/ n = 6 \/ n = 7 \/ n = 8 \/ n = 9)%Z
    as Hcases by lia.
  repeat (destruct Hcases as [->|Hcases]); try subst n; eexists; reflexivity.
Qed.

Lemma maybeAddLeadingZero_ten : maybeAddLeadingZero 10 = JStr "010".
Proof. reflexivity. Qed.

(** Above ten the number itself is returned, not a string. *)
Lemma maybeAddLeadingZero_above_ten (n : Z) :
  (10 < n)%Z -> maybeAddLeadingZero n = JNum n.
Proof.
  intros Hn. unfold maybeAddLeadingZero.
  destruct (10 <? n)%Z eqn:Hlt; [reflexivity|]. apply Z.ltb_ge in Hlt. lia.
Qed.

(** C9: for the tenth of November 2024, with the year a number as the
    calendar passes it, [maybeAddLeadingZero(11)] is the number 11, the
    year and the month are added, and the date string has seven
    characters, not more than eight. *)
Theorem setStartDate_november_tenth :
  let s := exec (setStartDate (JNum 2024) 11 10) init_state in
  maybeAddLeadingZero 11 = JNum 11 /\
  props (dom s) !! ("startDateInput", "value") = Some "2035010" /\
  String.length "2035010" = 7%nat.
Proof. repeat split. Qed.

(** The month of October gives nine characters, as the claim says. *)
Example setStartDate_october_fifth :
  props (dom (exec (setStartDate (JNum 2024) 10 5) init_state))
    !! ("startDateInput", "value") = Some "202401005".
Proof. reflexivity. Qed.

(** *** C3 *)



Lemma two_background_stops_reachable : reachable two_background_stops.
Proof. exists [EvLoad Demo.config; EvXhrLoad 0 "ab" 200]. reflexivity. Defined.

(** *** C2 *)

Lemma at_most_one_marker_per_stop_witness :
  let s := fold_left run_op
             [OpAddStopMarker "a" "Stop a" "47.5" "8.5" 0 true None; OpClearMap;
              OpCallbackDisplayStopsBackground "ab" 200]
             two_background_stops in
  (forall id, ~ (is_Some (stopMarkersSelected (vars s) !! id) /\
                 is_Some (stopMarkersBackground (vars s) !! id))) /\
  (forall r1 r2 m1 m2,
     markers (mapst s) !! r1 = Some m1 -> m_map m1 = true ->
     markers (mapst s) !! r2 = Some m2 -> m_map m2 = true ->
     m_stopId m1 = m_stopId m2 -> r1 = r2).
Proof.
  pose proof (at_most_one_marker_per_stop two_background_stops
                [OpAddStopMarker "a" "Stop a" "47.5" "8.5" 0 true None; OpClearMap;
                 OpCallbackDisplayStopsBackground "ab" 200]
                two_background_stops_reachable) as (Hdisjoint & _ & Hone & _).
  split; [exact Hdisjoint|exact Hone].
Defined.

(** The background marker of stop "a" goes off the map when the stop is
    selected, and the selected marker is a new one. *)
Example promote_background_stop :
  let s := exec (addStopMarker "a" "Stop a" "47.5" "8.5" 0 true None) two_background_stops in
  m_map <$> markers (mapst s) !! 0%nat = Some false /\
  stopMarkersBackground (vars s) !! "a" = None /\
  stopMarkersSelected (vars s) !! "a" = Some 2%nat /\
  m_map <$> markers (mapst s) !! 2%nat = Some true.
Proof. vm_compute. repeat split. Qed.

(** *** C4 *)

(** C4, as stated, fails: the background marker of stop "a", made by the
    first answer, is still on the map after the map has moved, the fetch of
    [callbackMoveEnd] has completed with code 200, and a zoom has ended. *)
Lemma background_marker_survives_map_move :
  let s := run [EvMoveEnd (cfg_bounds Demo.config); EvXhrLoad 2 "ab" 200; EvZoomEnd]
             two_background_stops in
  m_map <$> markers (mapst two_background_stops) !! 0%nat = Some true /\
  xhr_status <$> requests (net s) !! 2%nat = Some Loaded /\
  m_map <$> markers (mapst s) !! 0%nat = Some true.
Proof. vm_compute. repeat split. Qed.

Lemma overlays_go_on_trip_selection_witness :
  nothing_shown (step two_background_stops (EvTripClick "t")).
Proof.
  exact (proj1 (overlays_go_on_trip_selection two_background_stops
                  two_background_stops_reachable) "t").
Defined.

(** *** C5 *)

(** C5, as stated, fails: a trip selection sends three requests. *)
Lemma selectTrip_sends_three_requests :
  requests (net init_state) = [] /\
  xhr_url <$> requests (net (step init_state (EvTripClick "t"))) =
  ["/json/tripstoptimes?trip=t"; "/json/tripshape?trip=t"; "/json/triprows?trip=t"].
Proof. vm_compute. split; reflexivity. Qed.

Lemma requests_per_user_action_witness :
  exists new,
    requests (net (step two_background_stops (EvTripClick "t"))) =
      requests (net two_background_stops) ++ new /\
    length new = 3%nat /\
    Forall (fun x => xhr_method x = "GET") new /\
    url_path <$> (xhr_url <$> new) =
      ["/json/tripstoptimes"; "/json/tripshape"; "/json/triprows"] /\
    (forall tripId,
       EvTripClick "t" = EvTripClick tripId \/
       (EvTripClick "t" = EvTripTextSearchSubmit /\
        tripId = default "" (props (dom two_background_stops)
                               !! ("tripTextSearchInput", "value"))) ->
       xhr_url <$> new =
         ["/json/tripstoptimes?trip=" +:+ encodeURIComponent tripId;
          "/json/tripshape?trip=" +:+ encodeURIComponent tripId;
          "/json/triprows?trip=" +:+ encodeURIComponent tripId]).
Proof.
  apply (requests_per_user_action two_background_stops (EvTripClick "t")).
  - reflexivity.
  - reflexivity.
  - intros [=].
Defined.

(** A click on a marker sends one request, to [/json/stoptrips]. *)
Example marker_click_sends_one_request :
  xhr_url <$> requests (net (step two_background_stops (EvMarkerClick 0))) =
  (xhr_url <$> requests (net two_background_stops)) ++
  ["/json/stoptrips?stop=a&time=&date="].
Proof. vm_compute. reflexivity. Qed.

(** With a seconds field in the time input, the same click sends nothing. *)
Example marker_click_with_seconds_sends_nothing :
  let s := step two_background_stops (EvInput "timeInput" "12:30:45") in
  requests (net (step s (EvMarkerClick 0))) = requests (net s).
Proof. vm_compute. reflexivity. Qed.

(** *** C7 *)




(** The two orders end in different states: the stop shown is that of the
    answer that arrived last. *)
Example answers_in_either_order :
  let in_order := run [EvXhrLoad 2 "a" 200; EvXhrLoad 3 "b" 200] two_searches in
  let reversed := run [EvXhrLoad 3 "b" 200; EvXhrLoad 2 "a" 200] two_searches in
  fst <$> map_to_list (stopMarkersSelected (vars in_order)) = ["b"] /\
  fst <$> map_to_list (stopMarkersSelected (vars reversed)) = ["a"].
Proof. vm_compute. split; reflexivity. Qed.

(** *** Instances of the further properties *)

Import BehaviourNotions.

Lemma parseTimeInput_reads_formatTime_back_witness :
  let s := exec (set_prop "timeInput" "value" "12:30") init_state in
  formatTime 45000 = "12:30" /\ parseTimeInput s = (Ret (JNum 45000), s).
Proof.
  split; [reflexivity|].
  apply (parseTimeInput_reads_formatTime_back
           (exec (set_prop "timeInput" "value" "12:30") init_state) 45000);
    [lia|reflexivity|reflexivity].
Defined.

Lemma parseTimeInput_drops_the_tens_of_hours_witness :
  let s := exec (set_prop "timeInput" "value" "35:00") init_state in
  formatTime 126000 = "35:00" /\ parseTimeInput s = (Ret (JNum 18000), s).
Proof.
  split; [reflexivity|].
  apply (parseTimeInput_drops_the_tens_of_hours
           (exec (set_prop "timeInput" "value" "35:00") init_state) 126000);
    [lia|reflexivity|reflexivity].
Defined.

Lemma parseDateInput_on_eight_digit_dates_witness :
  let s := exec (set_prop "startDateInput" "value" "19990315") init_state in
  date_text 1999 3 15 = "19990315" /\ parseDateInput s = (Ret "", s).
Proof.
  split; [reflexivity|].
  apply (parseDateInput_on_eight_digit_dates
           (exec (set_prop "startDateInput" "value" "19990315") init_state) 1999 3 15);
    [lia|lia|lia|reflexivity].
Defined.

Lemma parseDateInput_accepts_any_text_with_a_date_witness :
  let s := exec (set_prop "startDateInput" "value" "from 20240101 on") init_state in
  parseDateInput s = (Ret "from 20240101 on", s).
Proof.
  apply (parseDateInput_accepts_any_text_with_a_date
           (exec (set_prop "startDateInput" "value" "from 20240101 on") init_state)
           "from " "20240101" " on"); reflexivity.
Defined.

Lemma setStartDate_writes_the_date_iff_witness :
  props (dom (exec (setStartDate (JNum 2024) 3 5) init_state)) !! ("startDateInput", "value")
  = Some (date_text 2024 3 5).
Proof.
  apply (proj2 (setStartDate_writes_the_date_iff init_state 2024 3 5
                  ltac:(lia) ltac:(lia) ltac:(lia))).
  split; [lia|discriminate].
Defined.

Lemma addStopMarker_again_returns_the_same_marker_witness :
  exists r s1,
    addStopMarker "a" "Stop a" "47.5" "8.5" 0 false None init_state = (Ret r, s1) /\
    addStopMarker "a" "Stop A, moved" "47.6" "8.6" 1 false None s1 = (Ret r, s1).
Proof.
  apply (addStopMarker_again_returns_the_same_marker init_state "a" "Stop a" "Stop A, moved"
           "47.5" "8.5" "47.6" "8.6" 0 1 false false).
  reflexivity.
Defined.

Lemma dropped_background_stop_is_not_shown_again_witness :
  let s' := refresh_background ["a"; "ab"] two_background_stops in
  stopMarkersBackground (vars two_background_stops) !! "b" = Some 1 /\
  stopMarkersBackground (vars s') !! "b" = Some 1 /\
  forall r' m, markers (mapst s') !! r' = Some m -> m_stopId m = "b" -> m_map m = false.
Proof.
  split; [reflexivity|].
  apply (dropped_background_stop_is_not_shown_again two_background_stops "b" 1 "a" ["ab"]).
  - apply two_background_stops_reachable.
  - reflexivity.
  - intros Hin. apply list_elem_of_In in Hin. simpl in Hin. intuition discriminate.
Defined.

Lemma selectRoute_highlights_one_div_witness :
  let l := routeList (dom (exec (selectRoute "a") routes_listed)) in
  has_route "a" (routeList (dom routes_listed)) = true /\
  highlighted l = 1 /\
  (forall c, c ∈ l -> rc_elemClass c = "routeChoiceSelected" -> rc_routeId c = "a") /\
  (forall c, c ∈ l -> rc_containerClass c = "routeChoiceSelected" ->
             "a" = "container_" +:+ rc_routeId c).
Proof.
  split; [reflexivity|].
  apply (selectRoute_highlights_one_div routes_listed "a"). reflexivity.
Defined.

Lemma callbackDisplayStops_asks_for_the_trips_of_a_single_stop_witness :
  exists s',
    callbackDisplayStops "a" 200 init_state = (Ret tt, s') /\
    requests (net s') = requests (net init_state) ++
      match eval_stops "a" with
      | [stop] => [stop_info_request init_state (sr_stopId stop)
                     (length (markers (mapst init_state)))]
      | _ => []
      end /\
    (forall stop, eval_stops "a" = [stop] ->
       stopMarkersSelected (vars s') !! sr_stopId stop
       = Some (length (markers (mapst init_state)))).
Proof.
  apply (callbackDisplayStops_asks_for_the_trips_of_a_single_stop "a" init_state).
  - reflexivity.
  - apply own_keys_decided. vm_compute. reflexivity.
Defined.

Lemma callbackDisplayPatterns_selects_the_first_trip_witness :
  exists s',
    callbackDisplayPatterns "t" 200 route_selected = (Ret tt, s') /\
    xhr_url <$> requests (net s') =
      (xhr_url <$> requests (net route_selected)) ++
      (if some_trip (eval_patterns "t")
       then trip_urls (first_trip (eval_patterns "t")) else []).
Proof.
  apply (callbackDisplayPatterns_selects_the_first_trip "t" route_selected "a");
    reflexivity.
Defined.

Lemma read_only_page_never_moves_a_stop_witness :
  let s := run [EvLoad read_only_config; EvXhrLoad 0 "ab" 200;
                EvMarkerDragEnd 0 {| lat := "47.6"; lng := "8.6" |}] init_state in
  forbid_editing (vars s) = true /\
  Forall (fun x => xhr_onload x <> CbChangeStopLocation /\
                   url_path (xhr_url x) <> "/json/setstoplocation") (requests (net s)) /\
  (forall r m, markers (mapst s) !! r = Some m -> m_map m = true -> m_draggable m = false).
Proof.
  split; [reflexivity|].
  apply (read_only_page_never_moves_a_stop
           [EvLoad read_only_config; EvXhrLoad 0 "ab" 200;
            EvMarkerDragEnd 0 {| lat := "47.6"; lng := "8.6" |}]).
  reflexivity.
Defined.

Lemma addStopMarker_returns_a_marker_of_the_stop_witness :
  exists r s' m,
    addStopMarker "b" "Stop b" "47.5" "8.5" 0 true (Some "08:00") two_background_stops
      = (Ret r, s') /\
    markers (mapst s') !! r = Some m /\ m_stopId m = "b" /\
    (stopMarkersSelected (vars s') !! "b" = Some r \/
     stopMarkersBackground (vars s') !! "b" = Some r) /\
    (true = true -> stopMarkersSelected (vars s') !! "b" = Some r).
Proof.
  apply (addStopMarker_returns_a_marker_of_the_stop two_background_stops "b" "Stop b"
           "47.5" "8.5" 0 true (Some "08:00")).
  - apply two_background_stops_reachable.
  - apply own_key_decided. vm_compute. reflexivity.
Defined.

Lemma two_selected_stops_reachable : reachable two_selected_stops.
Proof.
  exists [EvLoad Demo.config; EvInput "stopTextSearchInput" "ab"; EvStopTextSearchSubmit;
          EvXhrLoad 2 "ab" 200]. reflexivity.
Qed.

Lemma addStopMarker_adds_the_text_to_the_label_witness :
  stopMarkersSelected (vars two_selected_stops) !! "a" = Some 0 /\
  exists m old,
    markers (mapst two_selected_stops) !! 0 = Some m /\ m_label m = Some old /\
    addStopMarker "a" "Stop a" "47.5" "8.5" 0 true (Some "08:00") two_selected_stops
    = (Ret 0, update_marker 0 (set_m_label (Some (label_with old "08:00")))
                (exec (assign_global "oldText") two_selected_stops)).
Proof.
  split; [reflexivity|].
  apply (addStopMarker_adds_the_text_to_the_label two_selected_stops "a" "Stop a"
           "47.5" "8.5" 0 true "08:00" 0).
  - apply two_selected_stops_reachable.
  - reflexivity.
  - discriminate.
Defined.

Lemma displayTripStopTimes_selects_every_stop_witness :
  exists s',
    displayTripStopTimes [Demo.stop_of_char "a"; Demo.stop_of_char "c"]
      (Some [Some 28800%Z; Some 29100%Z]) (Some [Some 28800%Z; None]) two_background_stops
    = (Ret tt, s') /\
    (forall id, id ∈ stop_ids [Demo.stop_of_char "a"; Demo.stop_of_char "c"] ->
                is_Some (stopMarkersSelected (vars s') !! id)) /\
    requests (net s') = requests (net two_background_stops).
Proof.
  apply (displayTripStopTimes_selects_every_stop two_background_stops).
  - apply two_background_stops_reachable.
  - reflexivity.
  - apply own_keys_decided. vm_compute. reflexivity.
Defined.

Lemma parseTimeInput_returns_a_time_of_day_witness :
  let s := exec (set_prop "timeInput" "value" "at 7:45 or so") init_state in
  exists v,
    parseTimeInput s = (Ret v, s) /\
    (v = JStr "" \/
     exists h m, v = JNum (h * 3600 + m * 60) /\ (0 <= h <= 29)%Z /\ (0 <= m <= 59)%Z).
Proof.
  apply (parseTimeInput_returns_a_time_of_day
           (exec (set_prop "timeInput" "value" "at 7:45 or so") init_state)).
  reflexivity.
Defined.

Lemma new_background_stop_is_shown_witness :
  exists s' r m,
    callbackDisplayStopsBackground "abc" 200 two_background_stops = (Ret tt, s') /\
    stopMarkersBackground (vars s') !! "c" = Some r /\
    markers (mapst s') !! r = Some m /\ m_stopId m = "c" /\ m_map m = true.
Proof.
  apply (new_background_stop_is_shown two_background_stops "abc" "c").
  - apply two_background_stops_reachable.
  - reflexivity.
  - apply list_elem_of_In. simpl. auto.
  - apply own_key_decided. vm_compute. reflexivity.
  - reflexivity.
  - reflexivity.
Defined.

Lemma displayPolyLine_shows_the_shape_witness :
  let polyData := {| poly_points := [{| lat := "47.5"; lng := "8.5" |};
                                     {| lat := "47.6"; lng := "8.6" |}];
                     poly_color := Some "" |} in
  exists s',
    displayPolyLine polyData two_background_stops = (Ret tt, s') /\
    polylines (mapst s') =
      polylines (mapst two_background_stops) ++
      [{| pl_path := poly_points polyData;
          pl_color := if truthy (poly_color polyData)
                      then default "" (poly_color polyData) else "#003399";
          pl_weight := 4; pl_map := true |}] /\
    existingPolylines (vars s') =
      existingPolylines (vars two_background_stops)
      ++ [length (polylines (mapst two_background_stops))] /\
    boundsOfPolyLine (vars s') =
      extended_bounds (boundsOfPolyLine (vars two_background_stops)) (poly_points polyData) /\
    map_fit (mapst s') = Some (FitPoints (boundsOfPolyLine (vars s'))) /\
    markers (mapst s') = markers (mapst two_background_stops) /\
    requests (net s') = requests (net two_background_stops).
Proof.
  apply (displayPolyLine_shows_the_shape two_background_stops). reflexivity.
Defined.

Lemma stop_info_answer_opens_the_window_witness :
  let x := {| xhr_method := "GET"; xhr_url := "/json/stoptrips?stop=a&time=&date=";
              xhr_async := true; xhr_timeout := 0;
              xhr_onload := CbStopInfoWindow 0; xhr_status := Sent |} in
  requests (net stop_info_pending) !! 3 = Some x /\
  (forall m, markers (mapst stop_info_pending) !! 0 = Some m -> m_map m = false) /\
  exists m html,
    markers (mapst stop_info_pending) !! 0 = Some m /\
    run_callback (xhr_onload x) "" 200 stop_info_pending
    = (Ret tt, with_mapst (set_infoWindow html (Some 0)) stop_info_pending).
Proof.
  split; [vm_compute; reflexivity|].
  split; [intros m Hm; vm_compute in Hm; injection Hm as <-; reflexivity|].
  apply (stop_info_answer_opens_the_window stop_info_pending 3
           {| xhr_method := "GET"; xhr_url := "/json/stoptrips?stop=a&time=&date=";
              xhr_async := true; xhr_timeout := 0;
              xhr_onload := CbStopInfoWindow 0; xhr_status := Sent |} 0 "").
  - exists [EvLoad Demo.config; EvInput "stopTextSearchInput" "a"; EvStopTextSearchSubmit;
            EvXhrLoad 2 "a" 200; EvTripClick "t"]. reflexivity.
  - vm_compute. reflexivity.
  - reflexivity.
Defined.

End ClientFacts.
